(** * uws: a WebSocket endpoint (RFC 6455), shallow embedding and properties

    The development follows src/uws/uws.go.  Go's [int], [int64] and
    [time.Duration] are 64-bit two's complement integers; they are embedded
    as [Z], with the wrap-around written out where the source does
    arithmetic on them.  A byte is a [Z] in [0, 256).  Slices are lists;
    in-place updates of a slice return the updated list. *)

From Stdlib Require Import ZArith Lia Bool String Ascii.
From stdpp Require Import base list strings gmap.

Local Open Scope Z_scope.

Module uws.

(** ** Machine integers *)

(** Wrap-around of a 64-bit signed integer ([int], [int64]). *)
Definition wrap64 (z : Z) : Z := (z + 2^63) `mod` 2^64 - 2^63.

(** [time.Second], in nanoseconds. *)
Definition Second : Z := 1000000000.

(** ** Constants (uws.go, lines 32-45) *)

Definition WEBSOCKET_FIN : Z := 128.
Definition WEBSOCKET_MASK : Z := 128.
Definition WEBSOCKET_OPCODE_TEXT : Z := 1.
Definition WEBSOCKET_OPCODE_BLOB : Z := 2.
Definition WEBSOCKET_OPCODE_CLOSE : Z := 8.
Definition WEBSOCKET_OPCODE_PING : Z := 9.
Definition WEBSOCKET_OPCODE_PONG : Z := 10.
Definition WEBSOCKET_ERROR_PROTOCOL : Z := 1002.
Definition WEBSOCKET_ERROR_INVALID : Z := 1007.
Definition WEBSOCKET_ERROR_OVERSIZED : Z := 1009.

(** ** Configuration (type Config, lines 47-66)

    The numeric options and the fields the handshake and the session read.
    A callback is embedded by whether it is set ([true]) or nil ([false]);
    its invocations are recorded in the traces of the operations below. *)

Record Config : Type := mkConfig {
  Protocols : list string;
  NeedProtocol : bool;
  ReadSize : Z;
  FragmentSize : Z;
  MessageSize : Z;
  ConnectTimeout : Z;
  ProbeTimeout : Z;
  InactiveTimeout : Z;
  WriteTimeout : Z;
  WriteBufferSize : Z;
  ReadBufferSize : Z;
  OpenHandler : bool;
  MessageHandler : bool;
  CloseHandler : bool
}.

(** The zero value [Config{}]. *)
Definition Config_zero : Config :=
  mkConfig [] false 0 0 0 0 0 0 0 0 0 false false false.

(** ** cval (lines 651-662) *)

Definition cval (value fallback min max : Z) : Z :=
  let value := if value =? 0 then fallback else value in
  let value := if value <? min then min else value in
  let value := if value >? max then max else value in
  value.

(** ** Option clamping of Dial (lines 101-113)

    The statements are kept in the order of the source: [ConnectTimeout]
    is computed from the [ProbeTimeout] the caller passed, before
    [ProbeTimeout] itself is clamped. *)

Definition Dial_clamp (config : Config) : Config :=
  let readSize := cval (ReadSize config) (Z.shiftl 4 10) (Z.shiftl 4 10) (Z.shiftl 256 10) in
  let fragmentSize := cval (FragmentSize config) (Z.shiftl 16 10) (Z.shiftl 4 10) (Z.shiftl 1 20) in
  let messageSize := cval (MessageSize config) (Z.shiftl 4 20) (Z.shiftl 4 10) (Z.shiftl 64 20) in
  let connectTimeout := cval (ProbeTimeout config) (10 * Second) (1 * Second) (30 * Second) in
  let probeTimeout := cval (ProbeTimeout config) (15 * Second) (1 * Second) (30 * Second) in
  let inactiveTimeout :=
    cval (InactiveTimeout config) (wrap64 (3 * probeTimeout))
         (wrap64 (probeTimeout + Second)) (wrap64 (5 * probeTimeout)) in
  let writeTimeout := cval (WriteTimeout config) (10 * Second) (1 * Second) (30 * Second) in
  let readBufferSize :=
    if negb (ReadBufferSize config =? 0)
    then cval (ReadBufferSize config) (Z.shiftl 4 10) (Z.shiftl 4 10) (Z.shiftl 32 20)
    else ReadBufferSize config in
  let writeBufferSize :=
    if negb (WriteBufferSize config =? 0)
    then cval (WriteBufferSize config) (Z.shiftl 4 10) (Z.shiftl 4 10) (Z.shiftl 32 20)
    else WriteBufferSize config in
  mkConfig (Protocols config) (NeedProtocol config)
           readSize fragmentSize messageSize
           connectTimeout probeTimeout inactiveTimeout writeTimeout
           writeBufferSize readBufferSize
           (OpenHandler config) (MessageHandler config) (CloseHandler config).

(** ** Option clamping of Handle (lines 307-318)

    [ConnectTimeout] is not touched on the server side, and the fallback of
    [ProbeTimeout] is 10 s here. *)

Definition Handle_clamp (config : Config) : Config :=
  let readSize := cval (ReadSize config) (Z.shiftl 4 10) (Z.shiftl 4 10) (Z.shiftl 256 10) in
  let fragmentSize := cval (FragmentSize config) (Z.shiftl 16 10) (Z.shiftl 4 10) (Z.shiftl 1 20) in
  let messageSize := cval (MessageSize config) (Z.shiftl 4 20) (Z.shiftl 4 10) (Z.shiftl 64 20) in
  let probeTimeout := cval (ProbeTimeout config) (10 * Second) (1 * Second) (30 * Second) in
  let inactiveTimeout :=
    cval (InactiveTimeout config) (wrap64 (3 * probeTimeout))
         (wrap64 (probeTimeout + Second)) (wrap64 (5 * probeTimeout)) in
  let writeTimeout := cval (WriteTimeout config) (10 * Second) (1 * Second) (30 * Second) in
  let readBufferSize :=
    if negb (ReadBufferSize config =? 0)
    then cval (ReadBufferSize config) (Z.shiftl 4 10) (Z.shiftl 4 10) (Z.shiftl 32 20)
    else ReadBufferSize config in
  let writeBufferSize :=
    if negb (WriteBufferSize config =? 0)
    then cval (WriteBufferSize config) (Z.shiftl 4 10) (Z.shiftl 4 10) (Z.shiftl 32 20)
    else WriteBufferSize config in
  mkConfig (Protocols config) (NeedProtocol config)
           readSize fragmentSize messageSize
           (ConnectTimeout config) probeTimeout inactiveTimeout writeTimeout
           writeBufferSize readBufferSize
           (OpenHandler config) (MessageHandler config) (CloseHandler config).

(** ** Byte slices

    [len], indexing, [data[lo:hi]], [copy] and the store of a block at an
    offset of the same backing array.  Indexing outside the slice panics in
    Go; here it reads 0, and every use below is inside the bounds the
    source has checked. *)

Definition byte_ok (b : Z) : Prop := 0 <= b < 256.

Definition len (data : list Z) : Z := Z.of_nat (length data).

Definition byte_at (data : list Z) (index : Z) : Z :=
  default 0 (data !! Z.to_nat index).

Definition slice (data : list Z) (lo hi : Z) : list Z :=
  take (Z.to_nat (hi - lo)) (drop (Z.to_nat lo) data).

Definition splice (data : list Z) (lo : Z) (block : list Z) : list Z :=
  take (Z.to_nat lo) data ++ block ++ drop (Z.to_nat lo + length block) data.

(** [copy(dst, src)]: the first [min(len(dst), len(src))] bytes. *)
Definition copy (dst src : list Z) : list Z :=
  splice dst 0 (take (length dst) src).

(** ** The masking primitive xor (lines 664-683)

    [xorsize] is the size of [uintptr]: 8, the package only builds where
    [int] has 64 bits (the constant [int(10*time.Second)] does not fit 32).
    The word read and written through the [unsafe.Pointer] casts is the
    little-endian value of the 8 bytes at that offset. *)

Definition xorsize : Z := 8.

Fixpoint load_word (block : list Z) : Z :=
  match block with
  | [] => 0
  | b :: rest => Z.lor b (Z.shiftl (load_word rest) 8)
  end.

Fixpoint store_word (n : nat) (word : Z) : list Z :=
  match n with
  | O => []
  | S n' => Z.land word 255 :: store_word n' (Z.shiftr word 8)
  end.

(** [for index := 0; index < offset; index += xorsize], at most [n] rounds. *)
Fixpoint xor_words (n : nat) (xorer index offset : Z) (data : list Z) : list Z :=
  match n with
  | O => data
  | S n' =>
      if index <? offset then
        let word := Z.lxor (load_word (slice data index (index + xorsize))) xorer in
        xor_words n' xorer (index + xorsize) offset
                  (splice data index (store_word (Z.to_nat xorsize) word))
      else data
  end.

(** [for index := offset; index < length; index++], at most [n] rounds. *)
Fixpoint xor_tail (n : nat) (mask : list Z) (offset index length : Z)
         (data : list Z) : list Z :=
  match n with
  | O => data
  | S n' =>
      if index <? length then
        xor_tail n' mask offset (index + 1) length
                 (<[Z.to_nat index :=
                      Z.lxor (byte_at data index)
                             (byte_at mask (Z.rem (index - offset) 4))]> data)
      else data
  end.

Definition xor (mask data : list Z) : list Z :=
  let length := len data in
  let '(offset, data) :=
    if length >=? xorsize then
      let value := (fun index => byte_at mask (Z.rem index 4)) <$> seqZ 0 xorsize in
      let xorer := load_word value in
      let offset := Z.quot length xorsize * xorsize in
      (offset, xor_words (Z.to_nat (Z.quot length xorsize)) xorer 0 offset data)
    else (0, data) in
  xor_tail (Z.to_nat (length - offset)) mask offset offset length data.

(** The byte-wise reference of section 4.1 of the specification:
    [d[i] ^= m[i mod 4]] at every index. *)
Definition xor_bytewise (m d : list Z) : list Z :=
  imap (fun i b => Z.lxor b (byte_at m (Z.of_nat i `mod` 4))) d.

(** ** Sockets (type Socket, lines 68-76)

    The three mutexes are not fields of the embedding: a critical section
    is one atomic step of the models below.  Three ghost fields stand for
    what surrounds the Go struct: the outcome of the next writes on the
    stream ([true]: the write fails), the bytes [math/rand] yields next,
    and the log of the observable events, oldest first. *)

Inductive event : Type :=
| Closing                              (* closing: false -> true *)
| Disconnected                         (* connected: true -> false *)
| OnOpen                               (* OpenHandler(s) *)
| OnMessage (mode : Z) (data : list Z) (* MessageHandler(s, mode, data) *)
| OnClose (code : Z)                   (* CloseHandler(s, code) *)
| Written (payload : list (list Z))    (* payload.WriteTo(conn) completed *)
| WriteFailed (payload : list (list Z)) (* payload.WriteTo(conn) returned an error *)
| StreamClosed.                        (* conn.Close() *)

Record Socket : Type := mkSocket {
  Path : string;
  Origin : string;
  Agent : string;
  Remote : string;
  Protocol : string;
  config : option Config;
  connected : bool;
  client : bool;
  closing : bool;
  faults : list bool;
  entropy : list Z;
  log : list event
}.

Definition set_closing (v : bool) (s : Socket) : Socket :=
  mkSocket (Path s) (Origin s) (Agent s) (Remote s) (Protocol s) (config s)
           (connected s) (client s) v (faults s) (entropy s)
           (log s ++ (if negb (closing s) && v then [Closing] else [])).

Definition set_connected (v : bool) (s : Socket) : Socket :=
  mkSocket (Path s) (Origin s) (Agent s) (Remote s) (Protocol s) (config s)
           v (client s) (closing s) (faults s) (entropy s)
           (log s ++ (if connected s && negb v then [Disconnected] else [])).

Definition set_faults (v : list bool) (s : Socket) : Socket :=
  mkSocket (Path s) (Origin s) (Agent s) (Remote s) (Protocol s) (config s)
           (connected s) (client s) (closing s) v (entropy s) (log s).

Definition set_entropy (v : list Z) (s : Socket) : Socket :=
  mkSocket (Path s) (Origin s) (Agent s) (Remote s) (Protocol s) (config s)
           (connected s) (client s) (closing s) (faults s) v (log s).

Definition record (e : event) (s : Socket) : Socket :=
  mkSocket (Path s) (Origin s) (Agent s) (Remote s) (Protocol s) (config s)
           (connected s) (client s) (closing s) (faults s) (entropy s)
           (log s ++ [e]).

(** The frames that reached the wire. *)
Definition wire (s : Socket) : list (list (list Z)) :=
  omap (fun e => match e with Written payload => Some payload | _ => None end) (log s).

(** ** rmask (lines 645-649): four bytes of [math/rand] *)

Definition rmask (s : Socket) : list Z * Socket :=
  ((fun index => byte_at (entropy s) index `mod` 256) <$> [0; 1; 2; 3],
   set_entropy (drop 4 (entropy s)) s).

(** [payload.WriteTo(s.conn)]: the stream takes the whole payload or the
    write fails. *)
Definition WriteTo (s : Socket) (payload : list (list Z)) : Socket * bool :=
  match faults s with
  | true :: rest => (record (WriteFailed payload) (set_faults rest s), true)
  | false :: rest => (record (Written payload) (set_faults rest s), false)
  | [] => (record (Written payload) s, false)
  end.

(** [binary.BigEndian.PutUint16] and [PutUint64]. *)
Definition PutUint16 (v : Z) : list Z :=
  [Z.land (Z.shiftr v 8) 255; Z.land v 255].

Definition PutUint64 (v : Z) : list Z :=
  (fun k => Z.land (Z.shiftr v (8 * k)) 255) <$> [7; 6; 5; 4; 3; 2; 1; 0].

(** ** Close (lines 401-428) and send (lines 430-447)

    [Close] and [send] call each other, and any number of callers may be
    inside [Close] at once.  A call of [Close(code)] is a stack frame with
    the place it has reached; one step runs up to the next point where
    another caller may interleave.  The section under the close mutex
    (test of the flags and [s.closing = true]) is one step.  The deadline
    refresh of [send] (lines 435-439) arms the timer of the stream and has
    no other effect; the outcome of the write is taken from [faults]. *)

Inductive place : Type :=
| AtGate         (* line 402: s.clock.Lock() *)
| AtNotify       (* line 406: the CloseHandler *)
| AtSend         (* lines 409-422: the CLOSE frame and s.send(payload) *)
| AtDisconnect   (* line 423: s.connected = false *)
| AtStreamClose. (* line 424: s.conn.Close() *)

Definition frame : Type := place * Z.
Definition thread : Type := list frame.

(** The CLOSE frame (lines 409-421). *)
Definition Close_payload (s : Socket) (code : Z) : list (list Z) * Socket :=
  let first := Z.lor WEBSOCKET_FIN WEBSOCKET_OPCODE_CLOSE in
  let '(second, key, s) :=
    if client s
    then let '(mask, s') := rmask s in (Z.lor 0 WEBSOCKET_MASK, [mask], s')
    else (0, [], s) in
  if negb (code =? 0) then
    let second := Z.lor second 2 in
    let body := PutUint16 (code `mod` 65536) in
    let body := match key with
                | mask :: _ => xor mask body
                | [] => body
                end in
    ([[first; second]] ++ key ++ [body], s)
  else ([[first; second]] ++ key, s).

Definition has_CloseHandler (s : Socket) : bool :=
  match config s with
  | Some config0 => CloseHandler config0
  | None => false
  end.

(** One step of the innermost call; the result is the frames that replace
    it on the stack.  A failed write leaves [send], which calls
    [s.Close(0)] before it returns to line 423. *)
Definition Close_step (fr : frame) (s : Socket) : list frame * Socket :=
  let '(at_, code) := fr in
  match at_ with
  | AtGate =>
      if negb (closing s) && connected s
      then ([(AtNotify, code)], set_closing true s)
      else ([], s)
  | AtNotify =>
      ([(AtSend, code)], if has_CloseHandler s then record (OnClose code) s else s)
  | AtSend =>
      let '(payload, s) := Close_payload s code in
      if negb (connected s) then ([(AtDisconnect, code)], s)
      else
        let '(s, err) := WriteTo s payload in
        if err then ([(AtGate, 0); (AtDisconnect, code)], s)
        else ([(AtDisconnect, code)], s)
  | AtDisconnect => ([(AtStreamClose, code)], set_connected false s)
  | AtStreamClose => ([], record StreamClosed s)
  end.

Definition thread_step (ts : thread * Socket) : thread * Socket :=
  match ts with
  | ([], s) => ([], s)
  | (fr :: rest, s) => let '(frs, s') := Close_step fr s in (frs ++ rest, s')
  end.

(** A call of [Close] that runs alone: six steps reach its end (lemma
    [Close_returns]). *)
Definition Close (s : Socket) (code : Z) : Socket :=
  snd (Nat.iter 6 thread_step ([(AtGate, code)], s)).

Definition send (s : Socket) (payload : list (list Z)) : Socket * bool :=
  if negb (connected s) then (s, true)
  else
    let '(s, err) := WriteTo s payload in
    if err then (Close s 0, true) else (s, false).

(** Any number of callers of [Close] on one socket: a schedule names the
    caller that takes the next step. *)
Record World : Type := mkWorld {
  shared : Socket;
  threads : list thread
}.

Definition world_step (w : World) (tid : nat) : World :=
  match threads w !! tid with
  | Some t =>
      let '(t', s') := thread_step (t, shared w) in
      mkWorld s' (<[tid := t']> (threads w))
  | None => w
  end.

Definition run (schedule : list nat) (w : World) : World :=
  foldl world_step w schedule.

Definition callers (s : Socket) (codes : list Z) : World :=
  mkWorld s ((fun code => [(AtGate, code)]) <$> codes).

Definition finished (w : World) : Prop :=
  Forall (fun t : thread => t = []) (threads w).

(** The next write on the stream fails. *)
Definition write_fails (s : Socket) : bool :=
  match faults s with
  | true :: _ => true
  | _ => false
  end.

(** How often the CloseHandler was invoked. *)
Definition OnClose_count (events : list event) : nat :=
  length (omap (fun e => match e with OnClose code => Some code | _ => None end) events).

(** ** Write (lines 351-399)

    A call returns, or panics where Go does: on a nil configuration and on
    the division by a zero [FragmentSize].  [data] is the caller's slice:
    the call returns it as it is left in memory.  The dispatch mutex is
    held for the whole call.  [(frame-1)*FragmentSize] is at most
    [len(data)] and does not wrap. *)

Inductive outcome (A : Type) : Type :=
| Returns (a : A)
| Panics.
Arguments Returns {A} a.
Arguments Panics {A}.

(** One round of the loop (lines 363-395); the result carries [mode], which
    the loop overwrites after the first frame. *)
Definition Write_round (fragment length frames frame mode : Z)
           (s : Socket) (data : list Z) : Socket * list Z * Z * bool :=
  let offset := (frame - 1) * fragment in
  let '(fin, size) :=
    if frame =? frames then (WEBSOCKET_FIN, length - offset) else (0, fragment) in
  let mode := if frame >? 1 then 0 else mode in
  let first := Z.lor fin mode in
  let '(second, extension) :=
    if size <? 126 then (Z.lor 0 (size `mod` 256), [])
    else if size <? 65536 then (Z.lor 0 126, [PutUint16 (size `mod` 65536)])
    else (Z.lor 0 127, [PutUint64 (size `mod` 2^64)]) in
  if client s then
    let second := Z.lor second WEBSOCKET_MASK in
    let '(mask, s) := rmask s in
    let data := splice data offset (xor mask (slice data offset (offset + size))) in
    let payload :=
      [[first; second]] ++ extension ++ [mask] ++ [slice data offset (offset + size)] in
    let '(s, err) := send s payload in
    let data := splice data offset (xor mask (slice data offset (offset + size))) in
    (s, data, mode, err)
  else
    let payload :=
      [[first; second]] ++ extension ++ [slice data offset (offset + size)] in
    let '(s, err) := send s payload in
    (s, data, mode, err).

(** [for frame := 1; frame <= frames; frame++], at most [n] rounds. *)
Fixpoint Write_loop (n : nat) (fragment length frames frame mode : Z)
         (s : Socket) (data : list Z) : Socket * list Z * bool :=
  match n with
  | O => (s, data, false)
  | S n' =>
      if frame <=? frames then
        let '(s, data, mode, err) :=
          Write_round fragment length frames frame mode s data in
        if err then (s, data, true)
        else Write_loop n' fragment length frames (frame + 1) mode s data
      else (s, data, false)
  end.

Definition Write (s : Socket) (mode : Z) (data : list Z)
  : outcome (Socket * list Z * bool) :=
  let length := len data in
  if ((mode =? WEBSOCKET_OPCODE_TEXT) || (mode =? WEBSOCKET_OPCODE_BLOB))
     && (length >? 0) then
    match config s with
    | None => Panics
    | Some config0 =>
        let fragment := FragmentSize config0 in
        if fragment =? 0 then Panics
        else
          let frames := Z.quot length fragment in
          let frames :=
            if negb (Z.rem length fragment =? 0) then frames + 1 else frames in
          Returns (Write_loop (Z.to_nat frames) fragment length frames 1 mode s data)
    end
  else Returns (s, data, false).

(** *** Reading a frame back from what was handed to the stream *)

Definition frame_first (payload : list (list Z)) : Z :=
  byte_at (default [] (payload !! 0%nat)) 0.

Definition frame_fin (payload : list (list Z)) : bool :=
  Z.testbit (frame_first payload) 7.

Definition frame_opcode (payload : list (list Z)) : Z :=
  Z.land (frame_first payload) 15.


(** ** Strings of the handshake

    [strings.ToLower] and [strings.Contains], on ASCII text as HTTP header
    values are. *)

Definition lower (c : ascii) : ascii :=
  let n := nat_of_ascii c in
  if ((65 <=? n) && (n <=? 90))%nat then ascii_of_nat (n + 32) else c.

Fixpoint ToLower (s : string) : string :=
  match s with
  | EmptyString => EmptyString
  | String c rest => String (lower c) (ToLower rest)
  end.

Fixpoint Contains (s substr : string) : bool :=
  String.prefix substr s ||
  match s with
  | EmptyString => false
  | String _ rest => Contains rest substr
  end.

(** Modelled from the spec: [rcache.Get("[, ]+")], the cache of compiled
    patterns, is not part of src/; it yields the pattern [[, ]+] that
    section 4.4 names, and [Split] is [regexp.Split] of the Go library for
    that pattern: the text between the maximal runs of commas and blanks,
    in at most [n] pieces, the last piece being the unsplit rest. *)

Definition separator (c : ascii) : bool :=
  (Ascii.eqb c ",") || (Ascii.eqb c " ").

(** [piece] is the piece read so far, [inside] tells that the previous
    character belongs to a run of separators, [splits] is the number of
    runs that may still split. *)
Fixpoint Split_from (s piece : string) (inside : bool) (splits : nat) : list string :=
  match s with
  | EmptyString => [piece]
  | String c rest =>
      if separator c then
        if inside then Split_from rest piece true splits
        else
          match splits with
          | O => [(piece ++ s)%string]
          | S splits' => piece :: Split_from rest EmptyString true splits'
          end
      else Split_from rest (piece ++ String c EmptyString)%string false splits
  end.

Definition Split (s : string) (n : nat) : list string :=
  match n with
  | O => []
  | S splits => Split_from s EmptyString false splits
  end.

(** ** Server accept: Handle (lines 258-341)

    A request is its method, its path and its headers ([Header.Get] gives
    the empty string for a missing header).  The response writer holds the
    headers set so far and the status once written; it may support
    hijacking, and hijacking may fail.  The stream got by hijacking comes
    with the ghost state of the socket built on it. *)

Record Request : Type := mkRequest {
  Method : string;
  URLPath : string;
  Header : gmap string string
}.

Record Conn : Type := mkConn {
  RemoteAddr : string;
  conn_faults : list bool;
  conn_entropy : list Z
}.

Record ResponseWriter : Type := mkResponseWriter {
  response_header : gmap string string;
  status : option Z;
  hijacker : bool;
  hijack : option Conn
}.

Definition Get (header : gmap string string) (name : string) : string :=
  default EmptyString (header !! name).

Definition Set_ (name value : string) (response : ResponseWriter) : ResponseWriter :=
  mkResponseWriter (<[name := value]> (response_header response))
                   (status response) (hijacker response) (hijack response).

(** Only the first [WriteHeader] counts. *)
Definition WriteHeader (code : Z) (response : ResponseWriter) : ResponseWriter :=
  mkResponseWriter (response_header response)
                   (match status response with Some c => Some c | None => Some code end)
                   (hijacker response) (hijack response).

Definition WEBSOCKET_UUID : string := "258EAFA5-E914-47DA-95CA-C5AB0DC85B11".
Definition WEBSOCKET_VERSION : string := "13".

(** Lines 275-289, for a configuration with protocols. *)
Definition negotiate (config0 : Config) (offered : string) : string :=
  let cprotocols := Split offered 10 in
  if (0 <? length cprotocols)%nat then
    let sprotocols : gmap string bool :=
      foldl (fun m value => <[value := true]> m) ∅ (Protocols config0) in
    foldl (fun protocol value =>
             if default false (sprotocols !! value) then value else protocol)
          EmptyString cprotocols
  else EmptyString.

(** Lines 297-337: the reply 101 and the socket.  [accept] stands for
    [base64(sha1(.))]. *)
Definition Handle_upgrade (accept : string -> string) (response : ResponseWriter)
           (request : Request) (config0 : Config) (ckey protocol : string)
  : bool * option Socket * ResponseWriter :=
  let response := Set_ "Connection" "Upgrade" response in
  let response := Set_ "Upgrade" "websocket" response in
  let response := Set_ "Sec-WebSocket-Accept" (accept (ckey ++ WEBSOCKET_UUID)%string) response in
  let response := WriteHeader 101 response in
  match hijack response with
  | Some conn =>
      let config1 := Handle_clamp config0 in
      let origin := Get (Header request) "Origin" in
      let origin := if String.eqb (ToLower origin) "null" then EmptyString else origin in
      let ws := mkSocket (URLPath request) origin (Get (Header request) "User-Agent")
                         (RemoteAddr conn) protocol (Some config1)
                         true false false (conn_faults conn) (conn_entropy conn) [] in
      let ws := if OpenHandler config1 then record OnOpen ws else ws in
      (true, Some ws, response)
  | None => (true, None, response)
  end.

Definition Handle (accept : string -> string) (response : ResponseWriter)
           (request : Request) (config : option Config)
  : outcome (bool * option Socket * ResponseWriter) :=
  let header := Get (Header request) in
  if Contains (ToLower (header "Connection")) "upgrade"
     && String.eqb (ToLower (header "Upgrade")) "websocket" then
    if negb (String.eqb (Method request) "GET") then
      Returns (true, None, WriteHeader 405 response)
    else
      let ckey := header "Sec-WebSocket-Key" in
      if negb (String.eqb (header "Sec-WebSocket-Version") WEBSOCKET_VERSION)
         || String.eqb ckey EmptyString then
        Returns (true, None,
                 WriteHeader 400 (Set_ "Sec-WebSocket-Version" WEBSOCKET_VERSION response))
      else if negb (hijacker response) then
        Returns (true, None, WriteHeader 500 response)
      else
        match config with
        | None => Panics                  (* line 276: len(config.Protocols) *)
        | Some config0 =>
            if (0 <? length (Protocols config0))%nat then
              let protocol := negotiate config0 (header "Sec-WebSocket-Protocol") in
              if negb (String.eqb protocol EmptyString) then
                Returns (Handle_upgrade accept
                           (Set_ "Sec-WebSocket-Protocol" protocol response)
                           request config0 ckey protocol)
              else if NeedProtocol config0 then
                Returns (true, None, WriteHeader 400 response)
              else
                Returns (Handle_upgrade accept response request config0 ckey protocol)
            else
              Returns (Handle_upgrade accept response request config0 ckey EmptyString)
        end
  else Returns (false, None, response).

(** ** Client connect: the check of the reply in Dial (lines 219-241)

    The part of [Dial] behind [http.ReadResponse]: the reply of the server
    is its status and its headers, [nonce] is the key that was sent,
    [path] the path of the endpoint, [conn] the stream.  [sha1] stands for
    [sha1.Sum] and [DecodeString] for [base64.StdEncoding.DecodeString],
    whose error is dropped at line 219.  [config] is the caller's; it is
    clamped at lines 101-113, a nil configuration being replaced by the
    zero one (lines 95-97).  [None] is the error return. *)

Record Response : Type := mkResponse {
  StatusCode : Z;
  ResponseHeader : gmap string string
}.

Definition Dial_response (sha1 DecodeString : string -> list Z)
           (response : Response) (nonce path origin : string) (conn : Conn)
           (config : option Config) : option Socket :=
  let config0 := Dial_clamp (default Config_zero config) in
  let skey := DecodeString (Get (ResponseHeader response) "Sec-WebSocket-Accept") in
  let ckey := sha1 (nonce ++ WEBSOCKET_UUID)%string in
  let path := if String.eqb path "" then "/" else path in
  if negb (StatusCode response =? 101)%Z
     || negb (String.eqb (ToLower (Get (ResponseHeader response) "Connection")) "upgrade")
     || negb (String.eqb (ToLower (Get (ResponseHeader response) "Upgrade")) "websocket")
     || negb (bool_decide (ckey = skey))
  then None
  else
    let protocol := Get (ResponseHeader response) "Sec-WebSocket-Protocol" in
    if (0 <? length (Protocols config0))%nat && String.eqb protocol ""
       && NeedProtocol config0
    then None
    else
      let ws := mkSocket path origin "" (RemoteAddr conn) protocol (Some config0)
                         true true false (conn_faults conn) (conn_entropy conn) [] in
      Some (if OpenHandler config0 then record OnOpen ws else ws).

(** The offer as section 4.4 words it: the header split on [[, ]+] into all
    its values, and the last value that is in the server's list. *)
Definition offered_values (offered : string) : list string :=
  Split offered (S (String.length offered)).

Definition last_match (server values : list string) : option string :=
  last (filter (fun value => value ∈ server) values).

(** ** The receive loop (lines 449-643)

    The local variables of [receive] are a record; [size < 0] means that no
    frame header is latched.  [data] and [control] come from the buffer
    pool: a nil slice and a fresh buffer both have length 0 and are the
    empty list.  [buffer] is the read buffer with its capacity as length,
    [buffer[roffset:woffset]] are the bytes read and not yet consumed. *)

Module recv.

Record state : Type := mk {
  fin : Z;
  opcode : Z;
  size : Z;
  mask : list Z;
  seen : Z;
  code : Z;
  dmode : Z;
  dsize : Z;
  doffset : Z;
  dlast : bool;
  buffer : list Z;
  roffset : Z;
  woffset : Z;
  data : list Z;
  control : list Z
}.

Definition with_fin (v : Z) (st : state) : state :=
  mk v (opcode st) (size st) (mask st) (seen st) (code st) (dmode st) (dsize st) (doffset st) (dlast st) (buffer st) (roffset st) (woffset st) (data st) (control st).

Definition with_opcode (v : Z) (st : state) : state :=
  mk (fin st) v (size st) (mask st) (seen st) (code st) (dmode st) (dsize st) (doffset st) (dlast st) (buffer st) (roffset st) (woffset st) (data st) (control st).

Definition with_size (v : Z) (st : state) : state :=
  mk (fin st) (opcode st) v (mask st) (seen st) (code st) (dmode st) (dsize st) (doffset st) (dlast st) (buffer st) (roffset st) (woffset st) (data st) (control st).

Definition with_mask (v : list Z) (st : state) : state :=
  mk (fin st) (opcode st) (size st) v (seen st) (code st) (dmode st) (dsize st) (doffset st) (dlast st) (buffer st) (roffset st) (woffset st) (data st) (control st).

Definition with_seen (v : Z) (st : state) : state :=
  mk (fin st) (opcode st) (size st) (mask st) v (code st) (dmode st) (dsize st) (doffset st) (dlast st) (buffer st) (roffset st) (woffset st) (data st) (control st).

Definition with_code (v : Z) (st : state) : state :=
  mk (fin st) (opcode st) (size st) (mask st) (seen st) v (dmode st) (dsize st) (doffset st) (dlast st) (buffer st) (roffset st) (woffset st) (data st) (control st).

Definition with_dmode (v : Z) (st : state) : state :=
  mk (fin st) (opcode st) (size st) (mask st) (seen st) (code st) v (dsize st) (doffset st) (dlast st) (buffer st) (roffset st) (woffset st) (data st) (control st).

Definition with_dsize (v : Z) (st : state) : state :=
  mk (fin st) (opcode st) (size st) (mask st) (seen st) (code st) (dmode st) v (doffset st) (dlast st) (buffer st) (roffset st) (woffset st) (data st) (control st).

Definition with_doffset (v : Z) (st : state) : state :=
  mk (fin st) (opcode st) (size st) (mask st) (seen st) (code st) (dmode st) (dsize st) v (dlast st) (buffer st) (roffset st) (woffset st) (data st) (control st).

Definition with_dlast (v : bool) (st : state) : state :=
  mk (fin st) (opcode st) (size st) (mask st) (seen st) (code st) (dmode st) (dsize st) (doffset st) v (buffer st) (roffset st) (woffset st) (data st) (control st).

Definition with_buffer (v : list Z) (st : state) : state :=
  mk (fin st) (opcode st) (size st) (mask st) (seen st) (code st) (dmode st) (dsize st) (doffset st) (dlast st) v (roffset st) (woffset st) (data st) (control st).

Definition with_roffset (v : Z) (st : state) : state :=
  mk (fin st) (opcode st) (size st) (mask st) (seen st) (code st) (dmode st) (dsize st) (doffset st) (dlast st) (buffer st) v (woffset st) (data st) (control st).

Definition with_woffset (v : Z) (st : state) : state :=
  mk (fin st) (opcode st) (size st) (mask st) (seen st) (code st) (dmode st) (dsize st) (doffset st) (dlast st) (buffer st) (roffset st) v (data st) (control st).

Definition with_data (v : list Z) (st : state) : state :=
  mk (fin st) (opcode st) (size st) (mask st) (seen st) (code st) (dmode st) (dsize st) (doffset st) (dlast st) (buffer st) (roffset st) (woffset st) v (control st).

Definition with_control (v : list Z) (st : state) : state :=
  mk (fin st) (opcode st) (size st) (mask st) (seen st) (code st) (dmode st) (dsize st) (doffset st) (dlast st) (buffer st) (roffset st) (woffset st) (data st) v.

End recv.

(** Modelled from the spec: [bslab.Get], the buffer pool, is not part of
    src/; section 4.5 gives the receive loop "a read buffer of ReadSize".
    The buffer starts zeroed. *)
Definition bslab_Get (capacity : Z) : list Z := replicate (Z.to_nat capacity) 0.

(** [binary.BigEndian.Uint16] and [Uint64]. *)
Definition Uint16 (b : list Z) : Z :=
  Z.lor (Z.shiftl (byte_at b 0) 8) (byte_at b 1).

Definition Uint64 (b : list Z) : Z :=
  foldl (fun acc k => Z.lor (Z.shiftl acc 8) (byte_at b k)) 0 [0; 1; 2; 3; 4; 5; 6; 7].

(** How a statement of the frame loop ends: it falls through, it leaves
    the frame loop ([break]), it leaves the session ([break close]) at one
    of the places of the source, or it panics (a slice out of range). *)
Inductive reason : Type :=
| Violation      (* line 491 *)
| Oversized      (* lines 531 and 549 *)
| Invalid        (* line 562 *)
| PeerClosed     (* line 592 *)
| SendFailed     (* lines 602 and 626 *)
| ReadFailed     (* lines 629 and 632 *)
| Inactive.      (* line 636 *)

Inductive flow (A : Type) : Type :=
| Next (a : A)
| Break (a : A)
| Exit (why : reason) (a : A)
| Panic.
Arguments Next {A} a.
Arguments Break {A} a.
Arguments Exit {A} why a.
Arguments Panic {A}.

Definition smask_of (s : Socket) : Z := if client s then 0 else 4.

(** The test of line 487-489 on the first two bytes of a frame. *)
Definition violation (s : Socket) (st : recv.state) (second : Z) : bool :=
  (client s && negb (Z.land second WEBSOCKET_MASK =? 0))
  || (negb (client s) && (Z.land second WEBSOCKET_MASK =? 0))
  || ((recv.fin st =? 0) && (recv.opcode st >=? WEBSOCKET_OPCODE_CLOSE)
      && (recv.opcode st <=? WEBSOCKET_OPCODE_PONG))
  || (negb (recv.opcode st =? 0) && negb (recv.opcode st =? WEBSOCKET_OPCODE_TEXT)
      && negb (recv.opcode st =? WEBSOCKET_OPCODE_BLOB)
      && ((recv.opcode st <? WEBSOCKET_OPCODE_CLOSE)
          || (recv.opcode st >? WEBSOCKET_OPCODE_PONG))).

(** Lines 503-528: the length of the payload, the mask key of a server and
    the read cursor moved behind the header; [None] when the header is not
    complete yet. *)
Definition extended (s : Socket) (st : recv.state) : option recv.state :=
  let smask := smask_of s in
  let buffer := recv.buffer st in
  let roffset := recv.roffset st in
  let available := recv.woffset st - roffset in
  let latch (at_ : Z) (st : recv.state) : recv.state :=
    if negb (client s)
    then recv.with_mask (copy (recv.mask st) (drop (Z.to_nat (roffset + at_)) buffer)) st
    else st in
  if recv.size st =? 126 then
    if available <? 4 + smask then None
    else
      let st := recv.with_size (Uint16 (drop (Z.to_nat (roffset + 2)) buffer)) st in
      Some (recv.with_roffset (roffset + (4 + smask)) (latch 4 st))
  else if recv.size st =? 127 then
    if available <? 10 + smask then None
    else
      let st := recv.with_size (wrap64 (Uint64 (drop (Z.to_nat (roffset + 2)) buffer))) st in
      Some (recv.with_roffset (roffset + (10 + smask)) (latch 10 st))
  else Some (recv.with_roffset (roffset + (2 + smask)) (latch 2 st)).

(** The test of line 529. *)
Definition oversized (config0 : Config) (st : recv.state) : bool :=
  ((recv.opcode st <=? WEBSOCKET_OPCODE_BLOB) && (recv.size st =? 0))
  || ((recv.opcode st >? WEBSOCKET_OPCODE_BLOB) && (recv.size st >? 125))
  || ((recv.fin st =? 1) && (recv.size st >? MessageSize config0)).

(** Lines 484-539: the frame header. *)
Definition header (s : Socket) (config0 : Config) (st : recv.state) : flow recv.state :=
  if recv.size st <? 0 then
    if recv.woffset st - recv.roffset st >=? 2 then
      let first := byte_at (recv.buffer st) (recv.roffset st) in
      let second := byte_at (recv.buffer st) (recv.roffset st + 1) in
      let st := recv.with_fin (Z.shiftr first 7) st in
      let st := recv.with_opcode (Z.land first 15) st in
      let st := recv.with_size (Z.land second 127) st in
      if violation s st second then
        Exit Violation (recv.with_code WEBSOCKET_ERROR_PROTOCOL st)
      else if negb (client s)
              && (recv.woffset st - recv.roffset st <? 2 + smask_of s) then
        Break (recv.with_size (-1) st)
      else
        let st :=
          if (recv.opcode st =? WEBSOCKET_OPCODE_TEXT)
             || (recv.opcode st =? WEBSOCKET_OPCODE_BLOB)
          then recv.with_dmode (recv.opcode st) st else st in
        let st :=
          if negb (recv.dmode st =? 0) && (recv.fin st =? 1)
          then recv.with_dlast true st else st in
        match extended s st with
        | None => Break (recv.with_size (-1) st)
        | Some st =>
            if oversized config0 st then
              Exit Oversized (recv.with_code WEBSOCKET_ERROR_OVERSIZED st)
            else if negb (recv.dmode st =? 0) then
              Next (recv.with_dsize (wrap64 (recv.dsize st + recv.size st)) st)
            else Next st
        end
    else Break st
  else Next st.

(** Lines 543-553: the bytes at hand go to the reassembly buffer.
    [math.Min] on the two lengths is exact: one of them is at most the
    capacity of the read buffer. *)
Definition absorb (config0 : Config) (st : recv.state) : flow recv.state :=
  let max := Z.min (recv.woffset st - recv.roffset st) (recv.size st) in
  if len (recv.data st) + max >? MessageSize config0 then
    Exit Oversized (recv.with_code WEBSOCKET_ERROR_OVERSIZED st)
  else
    let st := recv.with_data
                (recv.data st
                 ++ slice (recv.buffer st) (recv.roffset st) (recv.roffset st + max)) st in
    let st := recv.with_size (recv.size st - max) st in
    Next (recv.with_roffset (recv.roffset st + max) st).

(** Lines 554-574: a data frame is complete.  [utf8_Valid] stands for
    [utf8.Valid]. *)
Definition complete (utf8_Valid : list Z -> bool) (config0 : Config)
           (s : Socket) (st : recv.state) : flow (Socket * recv.state) :=
  if (recv.size st <=? 0) && (len (recv.data st) >=? recv.dsize st) then
    if negb (client s)
       && negb ((0 <=? recv.doffset st) && (recv.doffset st <=? recv.dsize st)) then
      Panic
    else
      let st :=
        if negb (client s)
        then recv.with_data
               (splice (recv.data st) (recv.doffset st)
                       (xor (recv.mask st)
                            (slice (recv.data st) (recv.doffset st) (recv.dsize st)))) st
        else st in
      let st := recv.with_doffset (recv.dsize st) st in
      if recv.dlast st then
        if (recv.dmode st =? WEBSOCKET_OPCODE_TEXT) && negb (utf8_Valid (recv.data st))
        then Exit Invalid (s, recv.with_code WEBSOCKET_ERROR_INVALID st)
        else
          let s := if MessageHandler config0
                   then record (OnMessage (recv.dmode st) (recv.data st)) s else s in
          let st := recv.with_dmode 0 st in
          let st := recv.with_dsize 0 st in
          let st := recv.with_doffset 0 st in
          let st := recv.with_dlast false st in
          let st := recv.with_data [] st in
          Next (s, recv.with_size (-1) st)
      else Next (s, recv.with_size (-1) st)
  else Next (s, st).

(** Lines 576-607: a control frame. *)
Definition control_frame (s : Socket) (st : recv.state) : flow (Socket * recv.state) :=
  let max := Z.min (recv.woffset st - recv.roffset st) (recv.size st) in
  let st := recv.with_control
              (recv.control st
               ++ slice (recv.buffer st) (recv.roffset st) (recv.roffset st + max)) st in
  let st := recv.with_size (recv.size st - max) st in
  let st := recv.with_roffset (recv.roffset st + max) st in
  if recv.size st <=? 0 then
    let st := if negb (client s)
              then recv.with_control (xor (recv.mask st) (recv.control st)) st else st in
    if recv.opcode st =? WEBSOCKET_OPCODE_CLOSE then
      Exit PeerClosed
           (s, if len (recv.control st) >=? 2
               then recv.with_code (Uint16 (recv.control st)) st else st)
    else if recv.opcode st =? WEBSOCKET_OPCODE_PING then
      let first := Z.lor WEBSOCKET_FIN WEBSOCKET_OPCODE_PONG in
      let second := len (recv.control st) `mod` 256 in
      let '(payload, s, st) :=
        if client s then
          let '(key, s') := rmask s in
          let st := recv.with_control (xor key (recv.control st)) st in
          ([[first; Z.lor second WEBSOCKET_MASK]; key; recv.control st], s', st)
        else ([[first; second]; recv.control st], s, st) in
      let '(s, err) := send s payload in
      if err then Exit SendFailed (s, st)
      else Next (s, recv.with_control [] (recv.with_size (-1) st))
    else Next (s, recv.with_control [] (recv.with_size (-1) st))
  else Next (s, st).

(** Lines 541-609. *)
Definition payload (utf8_Valid : list Z -> bool) (config0 : Config)
           (s : Socket) (st : recv.state) : flow (Socket * recv.state) :=
  if recv.size st >=? 0 then
    if negb (recv.dmode st =? 0) then
      match absorb config0 st with
      | Next st => complete utf8_Valid config0 s st
      | Break st => Break (s, st)
      | Exit why st => Exit why (s, st)
      | Panic => Panic
      end
    else control_frame s st
  else Next (s, st).

(** Lines 611-614. *)
Definition rewind (st : recv.state) : flow recv.state :=
  if recv.roffset st >=? recv.woffset st
  then Break (recv.with_woffset 0 (recv.with_roffset 0 st))
  else Next st.

(** One round of the frame loop (lines 483-615). *)
Definition frame_round (utf8_Valid : list Z -> bool) (config0 : Config)
           (s : Socket) (st : recv.state) : flow (Socket * recv.state) :=
  match header s config0 st with
  | Next st =>
      match payload utf8_Valid config0 s st with
      | Next (s, st) =>
          match rewind st with
          | Next st => Next (s, st)
          | Break st => Break (s, st)
          | Exit why st => Exit why (s, st)
          | Panic => Panic
          end
      | other => other
      end
  | Break st => Break (s, st)
  | Exit why st => Exit why (s, st)
  | Panic => Panic
  end.

(** The frame loop (lines 483-615), at most [n] rounds; [None] when it
    has not ended by then. *)
Fixpoint frame_loop (n : nat) (utf8_Valid : list Z -> bool) (config0 : Config)
         (s : Socket) (st : recv.state) : option (flow (Socket * recv.state)) :=
  match n with
  | O => None
  | S n' =>
      match frame_round utf8_Valid config0 s st with
      | Next (s, st) => frame_loop n' utf8_Valid config0 s st
      | other => Some other
      end
  end.

(** What one call of [Read] returned: the bytes, the error, and the
    values of the coarse clock read at lines 481 and 635.  A read longer
    than the room left in the buffer is cut to it. *)
Inductive read_error : Type :=
| NoError
| Timeout    (* a net.Error with Timeout() *)
| Failure.   (* any other error, io.EOF included *)

Record read : Type := mkRead {
  read_bytes : list Z;
  read_err : read_error;
  now_read : Z;
  now_after : Z
}.

(** Lines 462-466. *)
Definition compact (st : recv.state) : recv.state :=
  if len (recv.buffer st) - recv.roffset st <? 14 then
    let st' := recv.with_buffer
                 (splice (recv.buffer st) 0
                         (slice (recv.buffer st) (recv.roffset st) (recv.woffset st))) st in
    recv.with_roffset 0 (recv.with_woffset (recv.woffset st - recv.roffset st) st')
  else st.

(** Lines 618-637: the error of the read and the inactivity test. *)
Definition after_read (config0 : Config) (rd : read) (got : Z)
           (s : Socket) (st : recv.state) : flow (Socket * recv.state) :=
  let probed :=
    match read_err rd with
    | Timeout =>
        let first := Z.lor WEBSOCKET_FIN WEBSOCKET_OPCODE_PING in
        let '(payload, s) :=
          if client s
          then let '(key, s') := rmask s in ([[first; Z.lor 0 WEBSOCKET_MASK]; key], s')
          else ([[first; 0]], s) in
        let '(s, err) := send s payload in
        if err then Exit SendFailed (s, st) else Next (s, st)
    | Failure => Exit ReadFailed (s, st)
    | NoError => if got =? 0 then Exit ReadFailed (s, st) else Next (s, st)
    end in
  match probed with
  | Next (s, st) =>
      if now_after rd - recv.seen st >=? InactiveTimeout config0
      then Exit Inactive (s, st) else Next (s, st)
  | other => other
  end.

(** One round of the session loop (lines 461-638).  The refresh of the
    read deadline (lines 468-472) arms the timer of the stream; its effect
    is the [Timeout] of a later read. *)
Definition session_round (utf8_Valid : list Z -> bool) (config0 : Config)
           (s : Socket) (st : recv.state) (rd : read)
  : option (flow (Socket * recv.state)) :=
  let st := compact st in
  let got := take (Z.to_nat (len (recv.buffer st) - recv.woffset st)) (read_bytes rd) in
  let st := recv.with_buffer (splice (recv.buffer st) (recv.woffset st) got) st in
  if len got >? 0 then
    let st := recv.with_seen (now_read rd) st in
    let st := recv.with_woffset (recv.woffset st + len got) st in
    match frame_loop (S (Z.to_nat (recv.woffset st - recv.roffset st)))
                     utf8_Valid config0 s st with
    | Some (Break (s, st)) | Some (Next (s, st)) =>
        Some (after_read config0 rd (len got) s st)
    | Some other => Some other
    | None => None
    end
  else Some (after_read config0 rd (len got) s st).

(** The session loop; the list of reads ends with the end of the stream. *)
Fixpoint session (utf8_Valid : list Z -> bool) (config0 : Config)
         (reads : list read) (s : Socket) (st : recv.state)
  : option (flow (Socket * recv.state)) :=
  match reads with
  | [] => Some (Exit ReadFailed (s, st))
  | rd :: rest =>
      match session_round utf8_Valid config0 s st rd with
      | Some (Next (s, st)) => session utf8_Valid config0 rest s st
      | other => other
      end
  end.

(** Lines 453-459: the variables at the start; [now] is the coarse clock. *)
Definition receive_start (s : Socket) (config0 : Config) (now : Z) : recv.state :=
  recv.mk 0 0 (-1) [0; 0; 0; 0] now 0 0 0 0 false
          (bslab_Get (ReadSize config0)) 0 0 [] [].


(** ** The frame header as section 4.2 words it

    "FIN bit, opcode (4 bits), MASK bit, payload length (7/16/64-bit
    encoding)"; FIN is bit 0x80 of the first byte, MASK bit 0x80 of the
    length byte. *)


Definition opcode_of (first : Z) : Z := first `mod` 16.


Definition control_opcode (opcode : Z) : Prop :=
  opcode = WEBSOCKET_OPCODE_CLOSE \/ opcode = WEBSOCKET_OPCODE_PING \/
  opcode = WEBSOCKET_OPCODE_PONG.

Definition known_opcode (opcode : Z) : Prop :=
  opcode = 0 \/ opcode = WEBSOCKET_OPCODE_TEXT \/ opcode = WEBSOCKET_OPCODE_BLOB \/
  control_opcode opcode.



(** The bytes of a frame, from its first byte on. *)
Definition length_code (frame_bytes : list Z) : Z := byte_at frame_bytes 1 `mod` 128.

Definition declared_length (frame_bytes : list Z) : Z :=
  if length_code frame_bytes =? 126 then Uint16 (drop 2 frame_bytes)
  else if length_code frame_bytes =? 127 then Uint64 (drop 2 frame_bytes)
  else length_code frame_bytes.


(** ** The clamping rules as the specification words them (sections 3, 4.7)

    "For each numeric option, substitute the default when zero, then clamp
    to [min, max].  InactiveTimeout is derived from ProbeTimeout and
    re-clamped.  Buffer-size options of zero mean: leave OS default."
    Each option is read from its own prior value. *)

Definition table_rule (value default min max : Z) : Z :=
  Z.min max (Z.max min (if value =? 0 then default else value)).

Definition table_clamp (config : Config) : Config :=
  let probe := table_rule (ProbeTimeout config) (15 * Second) (1 * Second) (30 * Second) in
  mkConfig (Protocols config) (NeedProtocol config)
           (table_rule (ReadSize config) 4096 4096 262144)
           (table_rule (FragmentSize config) 16384 4096 1048576)
           (table_rule (MessageSize config) 4194304 4096 67108864)
           (table_rule (ConnectTimeout config) (10 * Second) (1 * Second) (30 * Second))
           probe
           (table_rule (InactiveTimeout config) (3 * probe) (probe + Second) (5 * probe))
           (table_rule (WriteTimeout config) (10 * Second) (1 * Second) (30 * Second))
           (if WriteBufferSize config =? 0 then 0
            else table_rule (WriteBufferSize config) 0 4096 33554432)
           (if ReadBufferSize config =? 0 then 0
            else table_rule (ReadBufferSize config) 0 4096 33554432)
           (OpenHandler config) (MessageHandler config) (CloseHandler config).

(* ===================================================================== *)
(** * Notions of the statements, tactics, instances *)
(* ===================================================================== *)

(** The key repeated to the width of a word. *)
Definition key_block (mask : list Z) : list Z :=
  (fun index => byte_at mask (Z.rem index 4)) <$> seqZ 0 xorsize.

(** The byte-wise masking of a span that starts at index [k] of the data. *)
Definition mask_from (mask : list Z) (k : nat) (span : list Z) : list Z :=
  imap (fun i b => Z.lxor b (byte_at mask (Z.of_nat (k + i) `mod` 4))) span.

(** What one call of [Close] that passes the gate does to the socket. *)
Definition Close_effect (s : Socket) (code : Z) : Socket :=
  let s1 := set_closing true s in
  let s2 := if has_CloseHandler s1 then record (OnClose code) s1 else s1 in
  let '(payload, s3) := Close_payload s2 code in
  let '(s4, _) := WriteTo s3 payload in
  record StreamClosed (set_connected false s4).

(** Steps that leave the flags, the role and the configuration alone. *)
Definition same_flags (s s' : Socket) : Prop :=
  connected s' = connected s /\ closing s' = closing s /\
  client s' = client s /\ config s' = config s.

(** The state of a caller of [Close(code)] and of the socket after [k]
    steps of that caller alone. *)
Abbreviation steps k code s0 := (Nat.iter k thread_step ([(AtGate, code)], s0)).

(** The worlds that [N] callers of [Close] on the open socket [s0] can
    reach: nobody has moved, or one caller has passed the gate and taken
    [k] steps of its call, while every other caller is still in front of
    the gate or has returned without doing anything. *)
Definition untouched (s0 : Socket) (codes : list Z) (w : World) : Prop :=
  w = callers s0 codes.

Definition won (s0 : Socket) (codes : list Z) (w : World) : Prop :=
  exists (tid : nat) (code : Z) (k : nat),
    codes !! tid = Some code /\ (1 <= k)%nat /\
    threads w !! tid = Some (fst (steps k code s0)) /\
    shared w = snd (steps k code s0) /\
    forall (j : nat) (t : thread),
      j <> tid -> threads w !! j = Some t -> t = [] \/ exists c, t = [(AtGate, c)].

(** The number of frames that [Write] computes (lines 358-361). *)
Definition frames_of (length fragment : Z) : Z :=
  let frames := Z.quot length fragment in
  if negb (Z.rem length fragment =? 0) then frames + 1 else frames.

(** The socket is connected and no coming write fails. *)
Definition reliable (s : Socket) : Prop :=
  connected s = true /\ Forall (fun fault => fault = false) (faults s).

(** The request passes the checks of lines 259-274: it asks for the
    upgrade with GET, version 13 and a key, and the writer can be
    hijacked. *)
Definition upgradable (response : ResponseWriter) (request : Request) : Prop :=
  Contains (ToLower (Get (Header request) "Connection")) "upgrade" = true /\
  ToLower (Get (Header request) "Upgrade") = "websocket" /\
  Method request = "GET" /\
  Get (Header request) "Sec-WebSocket-Version" = "13" /\
  Get (Header request) "Sec-WebSocket-Key" <> "" /\
  hijacker response = true.

Ltac compare_all :=
  repeat match goal with
         | |- context [?a =? ?b] => destruct (Z.eqb_spec a b)
         | |- context [?a <? ?b] => destruct (Z.ltb_spec a b)
         | |- context [?a <=? ?b] => destruct (Z.leb_spec a b)
         | |- context [?a >? ?b] => destruct (Z.gtb_spec a b)
         | |- context [?a >=? ?b] => destruct (Z.geb_spec a b)
         end.

(** The state in which the first two bytes of a frame are decoded
    (line 486). *)
Definition decoded (st : recv.state) : recv.state :=
  let first := byte_at (recv.buffer st) (recv.roffset st) in
  let second := byte_at (recv.buffer st) (recv.roffset st + 1) in
  recv.with_size (Z.land second 127)
    (recv.with_opcode (Z.land first 15) (recv.with_fin (Z.shiftr first 7) st)).

(** A statement ends in the state [a], however it ends. *)
Definition lands {A : Type} (f : flow A) (a : A) : Prop :=
  f = Next a \/ f = Break a \/ exists why, f = Exit why a.

(** The states of the local variables at the points of the loop: the
    start, and what each statement of the session loop and of the frame
    loop leaves, on any socket and with any bytes read. *)
Inductive reachable (utf8_Valid : list Z -> bool) (config0 : Config)
  : recv.state -> Prop :=
| reach_start s now : reachable utf8_Valid config0 (receive_start s config0 now)
| reach_compact st :
    reachable utf8_Valid config0 st -> reachable utf8_Valid config0 (compact st)
| reach_buffer st bytes :
    reachable utf8_Valid config0 st ->
    reachable utf8_Valid config0 (recv.with_buffer bytes st)
| reach_seen st now :
    reachable utf8_Valid config0 st ->
    reachable utf8_Valid config0 (recv.with_seen now st)
| reach_woffset st woffset :
    reachable utf8_Valid config0 st ->
    reachable utf8_Valid config0 (recv.with_woffset woffset st)
| reach_header s st st' :
    reachable utf8_Valid config0 st -> lands (header s config0 st) st' ->
    reachable utf8_Valid config0 st'
| reach_absorb st st' :
    reachable utf8_Valid config0 st -> lands (absorb config0 st) st' ->
    reachable utf8_Valid config0 st'
| reach_complete s st s' st' :
    reachable utf8_Valid config0 st ->
    lands (complete utf8_Valid config0 s st) (s', st') ->
    reachable utf8_Valid config0 st'
| reach_control s st s' st' :
    reachable utf8_Valid config0 st -> lands (control_frame s st) (s', st') ->
    reachable utf8_Valid config0 st'
| reach_rewind st st' :
    reachable utf8_Valid config0 st -> lands (rewind st) st' ->
    reachable utf8_Valid config0 st'.

Ltac landed H :=
  let E := fresh "E" in
  destruct H as [E | [E | [? E]]];
  first [discriminate E | inversion E; subst; clear E].

(** The bytes of the frame whose header is next in the read buffer. *)
Definition frame_bytes (st : recv.state) : list Z :=
  drop (Z.to_nat (recv.roffset st)) (recv.buffer st).

(** ** Instances: sockets, requests and read buffers to run the model on *)

Definition example_config : Config :=
  Dial_clamp (mkConfig ["chat"%string; "k"%string] false 0 0 0 0 0 0 0 0 0 true true true).

Definition example_client : Socket :=
  mkSocket "/" "" "" "peer:80" "" (Some example_config) true true false
           [] [1; 2; 3; 4; 5; 6; 7; 8] [].

Definition example_bytes : list Z := [104; 101; 108; 108; 111; 32; 119; 111; 114; 108; 100].

(** A configuration with fragments of 4 bytes, on both roles. *)
Definition small_config : Config :=
  mkConfig [] false 4096 4 4096 0 0 0 0 0 0 true true true.

Definition small_server : Socket :=
  mkSocket "/" "" "" "peer:80" "" (Some small_config) true false false [] [] [].

Definition small_client : Socket :=
  mkSocket "/" "" "" "peer:80" "" (Some small_config) true true false
           [false; true] [9; 8; 7; 6; 5; 4; 3; 2] [].

(** An upgrade request that offers three protocols. *)
Definition example_request (offered : string) : Request :=
  mkRequest "GET" "/ws"
    (list_to_map [("Connection", "keep-alive, Upgrade"); ("Upgrade", "WebSocket");
                  ("Sec-WebSocket-Version", "13");
                  ("Sec-WebSocket-Key", "dGhlIHNhbXBsZSBub25jZQ==");
                  ("Sec-WebSocket-Protocol", offered)]%string).

Definition example_writer : ResponseWriter :=
  mkResponseWriter ∅ None true (Some (mkConn "peer:80" [] [])).

(** The read buffer of a client after a read of the bytes [bytes]. *)
Definition example_state (bytes : list Z) : recv.state :=
  let st := receive_start example_client example_config 0 in
  recv.with_woffset (len bytes)
    (recv.with_buffer (splice (recv.buffer st) 0 bytes) st).

(** ** IsClient and IsConnected (lines 343-349) *)

Definition IsClient (s : Socket) : bool := client s.

Definition IsConnected (s : Socket) : bool := connected s.

(** ** Frames on the stream

    [net.Buffers.WriteTo] writes the buffers of a payload one after the
    other: the bytes of a frame on the stream are their concatenation. *)

(** The 7-bit length code and the extended length of a payload of [n]
    bytes (lines 372-381). *)
Definition length_field (n : Z) : Z * list Z :=
  if n <? 126 then (n, [])
  else if n <? 65536 then (126, PutUint16 n)
  else (127, PutUint64 n).

(** The header of a frame: the byte of FIN and opcode, the byte of MASK
    and length code, the extended length, the key of a masked frame. *)
Definition frame_head (masked : bool) (fin opcode n : Z) (key : list Z) : list Z :=
  [128 * fin + opcode; (if masked then 128 else 0) + fst (length_field n)]
  ++ snd (length_field n) ++ (if masked then key else []).

(** The state of the receive loop between two frames: no header is
    latched, and the fragments of a message of kind [mode] received so far
    make [prefix], unmasked; between two messages [mode] is 0 and [prefix]
    is empty. *)
Definition assembling (st : recv.state) (mode : Z) (prefix : list Z) : Prop :=
  recv.size st < 0 /\ recv.dmode st = mode /\ recv.dsize st = len prefix /\
  recv.doffset st = len prefix /\ recv.dlast st = false /\ recv.data st = prefix /\
  recv.control st = [] /\ length (recv.mask st) = 4%nat.

Definition idle (st : recv.state) : Prop := assembling st 0 [].

(** The bytes read and not yet consumed are [bytes]. *)
Definition at_hand (st : recv.state) (bytes : list Z) : Prop :=
  0 <= recv.roffset st <= recv.woffset st /\ recv.woffset st <= len (recv.buffer st) /\
  slice (recv.buffer st) (recv.roffset st) (recv.woffset st) = bytes.

(** Reads at constant indices of a list of bytes. *)
Ltac index_bytes :=
  unfold byte_at;
  repeat match goal with
         | |- context [Z.to_nat ?k] =>
             let v := eval vm_compute in (Z.to_nat k) in change (Z.to_nat k) with v
         end;
  cbn [lookup list_lookup default from_option id].

(** The reply as the client reads it: the status and the headers that the
    handler has written. *)
Definition sent (response : ResponseWriter) : Response :=
  mkResponse (default 200 (status response)) (response_header response).

(** The read window: the cursors are in order and inside the buffer. *)
Definition window (st : recv.state) : Prop :=
  0 <= recv.roffset st <= recv.woffset st /\ recv.woffset st <= len (recv.buffer st).

(** A statement keeps the read window and the buffer. *)
Definition keeps_window (st st' : recv.state) : Prop :=
  window st -> window st' /\ len (recv.buffer st') = len (recv.buffer st).

(* ===================================================================== *)
(** * Properties *)
(* ===================================================================== *)

(** ** Bytes and words *)

Lemma byte_land_255 b : byte_ok b -> Z.land b 255 = b.
Proof.
  intros [Hlo Hhi]. change 255 with (Z.ones 8).
  rewrite Z.land_ones by lia. apply Z.mod_small. lia.
Qed.

Lemma byte_shiftr_8 b : byte_ok b -> Z.shiftr b 8 = 0.
Proof.
  intros [Hlo Hhi]. rewrite Z.shiftr_div_pow2 by lia.
  apply Z.div_small. lia.
Qed.

Lemma land_lxor_255 x y :
  Z.land (Z.lxor x y) 255 = Z.lxor (Z.land x 255) (Z.land y 255).
Proof.
  apply Z.bits_inj'. intros n Hn.
  rewrite !Z.land_spec, !Z.lxor_spec, !Z.land_spec.
  destruct (Z.testbit x n), (Z.testbit y n), (Z.testbit 255 n); reflexivity.
Qed.

Lemma lor_shiftl_low b w : byte_ok b -> Z.land (Z.lor b (Z.shiftl w 8)) 255 = b.
Proof.
  intros Hb. rewrite Z.land_lor_distr_l, byte_land_255 by assumption.
  change 255 with (Z.ones 8). rewrite Z.land_ones by lia.
  rewrite Z.shiftl_mul_pow2 by lia. rewrite Z.mod_mul by lia.
  apply Z.lor_0_r.
Qed.

Lemma lor_shiftl_high b w : byte_ok b -> Z.shiftr (Z.lor b (Z.shiftl w 8)) 8 = w.
Proof.
  intros Hb. rewrite Z.shiftr_lor, byte_shiftr_8 by assumption.
  rewrite Z.shiftr_shiftl_l by lia. simpl. apply Z.shiftl_0_r.
Qed.

Lemma lxor_byte_ok a b : byte_ok a -> byte_ok b -> byte_ok (Z.lxor a b).
Proof.
  intros Ha Hb. unfold byte_ok.
  assert (H : Z.lxor a b = Z.land (Z.lxor a b) 255).
  { rewrite land_lxor_255, !byte_land_255; auto. }
  rewrite H. change 255 with (Z.ones 8). rewrite Z.land_ones by lia.
  apply Z.mod_pos_bound. lia.
Qed.

(** Storing the exclusive or of two loaded words is the exclusive or of
    the blocks, byte by byte: the word operation does not mix bytes. *)
Lemma store_lxor_load (a v : list Z) :
  length a = length v -> Forall byte_ok a -> Forall byte_ok v ->
  store_word (length a) (Z.lxor (load_word a) (load_word v)) = zip_with Z.lxor a v.
Proof.
  revert v. induction a as [|x a IH]; intros [|y v] Hlen Ha Hv; try discriminate.
  - reflexivity.
  - inversion Ha as [|? ? Hx Ha']; inversion Hv as [|? ? Hy Hv']; subst.
    simpl in Hlen. injection Hlen as Hlen.
    simpl. f_equal.
    + rewrite land_lxor_255, !lor_shiftl_low by assumption. reflexivity.
    + rewrite Z.shiftr_lxor, !lor_shiftl_high by assumption.
      apply IH; assumption.
Qed.

(** ** C6: the word-aligned [xor] is the byte-wise reference *)

Lemma mask_from_app mask k l1 l2 :
  mask_from mask k (l1 ++ l2) =
  mask_from mask k l1 ++ mask_from mask (k + length l1) l2.
Proof.
  unfold mask_from. rewrite imap_app. f_equal.
  apply imap_ext. intros i x _. do 3 f_equal. lia.
Qed.

Lemma mask_from_shift4 mask k span :
  mask_from mask (4 + k) span = mask_from mask k span.
Proof.
  unfold mask_from. apply imap_ext. intros i x _. do 2 f_equal.
  replace (Z.of_nat (4 + k + i)) with (Z.of_nat (k + i) + 1 * 4) by lia.
  apply Z.mod_add. lia.
Qed.

Lemma mask_from_aligned mask q k span :
  mask_from mask (4 * q + k) span = mask_from mask k span.
Proof.
  induction q as [|q IH]; [reflexivity|].
  replace (4 * S q + k)%nat with (4 + (4 * q + k))%nat by lia.
  rewrite mask_from_shift4. exact IH.
Qed.

Lemma length_mask_from mask k span : length (mask_from mask k span) = length span.
Proof. apply length_imap. Qed.

Lemma key_block_bytes mask : Forall byte_ok mask -> Forall byte_ok (key_block mask).
Proof.
  intros Hm. unfold key_block. apply Forall_fmap, Forall_forall.
  intros index _. simpl. unfold byte_at.
  destruct (mask !! Z.to_nat (Z.rem index 4)) as [b|] eqn:E; simpl.
  - eapply Forall_lookup_1; eassumption.
  - unfold byte_ok; lia.
Qed.

(** One word of data against the key word. *)
Lemma word_against_key mask (block : list Z) :
  length block = 8%nat -> Forall byte_ok mask -> Forall byte_ok block ->
  store_word (Z.to_nat xorsize)
             (Z.lxor (load_word block) (load_word (key_block mask)))
  = mask_from mask 0 block.
Proof.
  intros Hlen Hm Hb.
  change (Z.to_nat xorsize) with 8%nat. rewrite <- Hlen.
  rewrite store_lxor_load; [| rewrite Hlen; reflexivity | assumption
                            | apply key_block_bytes; assumption].
  destruct block as [|b0 [|b1 [|b2 [|b3 [|b4 [|b5 [|b6 [|b7 [|]]]]]]]]];
    try discriminate.
  reflexivity.
Qed.

Lemma len_app (l1 l2 : list Z) : len (l1 ++ l2) = len l1 + len l2.
Proof. unfold len. rewrite length_app. lia. Qed.

Lemma len_nonneg (l : list Z) : 0 <= len l.
Proof. unfold len. lia. Qed.

Lemma slice_after_prefix (prefix rest : list Z) (n : Z) :
  slice (prefix ++ rest) (len prefix) (len prefix + n) = take (Z.to_nat n) rest.
Proof.
  unfold slice, len. rewrite Nat2Z.id, drop_app_length.
  f_equal. lia.
Qed.

Lemma splice_after_prefix (prefix rest block : list Z) :
  splice (prefix ++ rest) (len prefix) block
  = prefix ++ block ++ drop (length block) rest.
Proof.
  unfold splice, len. rewrite Nat2Z.id, take_app_length, drop_app_add.
  reflexivity.
Qed.

(** The word loop: after [n] rounds the first [8 n] bytes behind the
    prefix are masked, the others are untouched. *)
Lemma xor_words_spec mask (n : nat) :
  Forall byte_ok mask ->
  forall prefix rest : list Z,
    Forall byte_ok rest -> (8 * n <= length rest)%nat ->
    xor_words n (load_word (key_block mask)) (len prefix)
              (len prefix + 8 * Z.of_nat n) (prefix ++ rest)
    = prefix ++ mask_from mask 0 (take (8 * n) rest) ++ drop (8 * n) rest.
Proof.
  intros Hm. induction n as [|n IH]; intros prefix rest Hr Hlen.
  - simpl. reflexivity.
  - cbn [xor_words].
    destruct (Z.ltb_spec (len prefix) (len prefix + 8 * Z.of_nat (S n))); [|lia].
    change (len prefix + xorsize) with (len prefix + 8).
    rewrite slice_after_prefix.
    change (Z.to_nat 8) with 8%nat.
    assert (Hblk : length (take 8 rest) = 8%nat) by (rewrite length_take; lia).
    rewrite word_against_key;
      [| assumption | assumption | apply Forall_take; assumption].
    rewrite splice_after_prefix, length_mask_from, Hblk.
    rewrite (app_assoc prefix).
    replace (len prefix + 8 * Z.of_nat (S n))
      with (len (prefix ++ mask_from mask 0 (take 8 rest)) + 8 * Z.of_nat n)
      by (rewrite len_app; unfold len; rewrite length_mask_from, Hblk; lia).
    replace (len prefix + 8)
      with (len (prefix ++ mask_from mask 0 (take 8 rest)))
      by (rewrite len_app; unfold len; rewrite length_mask_from, Hblk; lia).
    rewrite IH; [| apply Forall_drop; assumption | rewrite length_drop; lia].
    rewrite <- app_assoc. f_equal.
    replace (8 * S n)%nat with (8 + 8 * n)%nat by lia.
    rewrite <- (take_take_drop rest 8 (8 * n)).
    rewrite mask_from_app, Hblk.
    change (0 + 8)%nat with (4 * 2 + 0)%nat. rewrite mask_from_aligned.
    rewrite drop_drop, <- app_assoc. reflexivity.
Qed.

(** The byte loop: the bytes behind the prefix are masked from phase [k]. *)
Lemma xor_tail_spec mask :
  forall (rest prefix : list Z) (k : nat),
    xor_tail (length rest) mask (len prefix - Z.of_nat k) (len prefix)
             (len (prefix ++ rest)) (prefix ++ rest)
    = prefix ++ mask_from mask k rest.
Proof.
  induction rest as [|b rest IH]; intros prefix k.
  - simpl. reflexivity.
  - cbn [xor_tail length].
    destruct (Z.ltb_spec (len prefix) (len (prefix ++ b :: rest))) as [_|Hge];
      [| rewrite len_app in Hge; unfold len in Hge; simpl in Hge; lia].
    assert (Hat : byte_at (prefix ++ b :: rest) (len prefix) = b).
    { unfold byte_at, len. rewrite Nat2Z.id.
      rewrite lookup_app_r, Nat.sub_diag by lia. reflexivity. }
    rewrite Hat.
    replace (Z.to_nat (len prefix)) with (length prefix + 0)%nat
      by (unfold len; lia).
    rewrite insert_app_r. cbn [list_insert].
    replace (len prefix - (len prefix - Z.of_nat k)) with (Z.of_nat k) by lia.
    rewrite Z.rem_mod_nonneg by lia.
    set (b' := Z.lxor b (byte_at mask (Z.of_nat k `mod` 4))).
    change (<[0%nat:=b']> (b :: rest)) with (b' :: rest).
    replace (prefix ++ b' :: rest) with ((prefix ++ [b']) ++ rest)
      by (rewrite <- app_assoc; reflexivity).
    replace (len (prefix ++ b :: rest)) with (len ((prefix ++ [b']) ++ rest))
      by (rewrite !len_app; unfold len; simpl; lia).
    replace (len prefix + 1) with (len (prefix ++ [b']))
      by (rewrite len_app; unfold len; simpl; lia).
    replace (len prefix - Z.of_nat k) with (len (prefix ++ [b']) - Z.of_nat (S k))
      by (rewrite len_app; unfold len; simpl; lia).
    rewrite IH. rewrite <- app_assoc. f_equal.
    unfold mask_from. cbn [imap]. subst b'. simpl app.
    rewrite Nat.add_0_r. f_equal.
    apply imap_ext. intros i x _. simpl. do 3 f_equal. lia.
Qed.

Lemma xor_bytewise_mask_from mask data :
  xor_bytewise mask data = mask_from mask 0 data.
Proof. reflexivity. Qed.

Lemma xor_is_mask_from mask data :
  Forall byte_ok mask -> Forall byte_ok data ->
  xor mask data = mask_from mask 0 data.
Proof.
  intros Hm Hd. unfold xor.
  destruct (Z.geb_spec (len data) xorsize) as [Hge|Hlt].
  - set (q := Z.to_nat (Z.quot (len data) xorsize)).
    assert (Hq : Z.quot (len data) xorsize = Z.of_nat q).
    { subst q. rewrite Z2Nat.id; [reflexivity|].
      apply Z.quot_pos; unfold xorsize in *; lia. }
    assert (Hbound : (8 * q <= length data)%nat).
    { assert (H : xorsize * Z.quot (len data) xorsize <= len data).
      { apply Z.mul_quot_le; unfold xorsize; [apply len_nonneg | lia]. }
      rewrite Hq in H. unfold xorsize, len in H. lia. }
    fold (key_block mask).
    pose proof (xor_words_spec mask q Hm [] data Hd Hbound) as Hw.
    change (len []) with 0 in Hw. cbn [app] in Hw.
    replace (Z.quot (len data) xorsize * xorsize) with (0 + 8 * Z.of_nat q)
      by (rewrite Hq; unfold xorsize; lia).
    rewrite Hw.
    replace (mask_from mask 0 data)
      with (mask_from mask 0 (take (8 * q) data ++ drop (8 * q) data))
      by (rewrite take_drop; reflexivity).
    rewrite mask_from_app, length_take, Nat.min_l by lia.
    replace (0 + 8 * q)%nat with (4 * (2 * q) + 0)%nat by lia.
    rewrite mask_from_aligned.
    set (P := mask_from mask 0 (take (8 * q) data)).
    set (R := drop (8 * q) data).
    assert (HP : len P = 0 + 8 * Z.of_nat q).
    { subst P. unfold len. rewrite length_mask_from, length_take. lia. }
    assert (HR : Z.to_nat (len data - (0 + 8 * Z.of_nat q)) = length R).
    { subst R. rewrite length_drop. unfold len. lia. }
    assert (HPR : len data = len (P ++ R)).
    { rewrite len_app, HP. subst R. unfold len. rewrite length_drop. lia. }
    rewrite HR, HPR, <- HP.
    replace (len P) with (len P - Z.of_nat 0) at 1 by lia.
    apply xor_tail_spec.
  - pose proof (xor_tail_spec mask data [] 0) as Ht.
    change (len []) with 0 in Ht. cbn [app] in Ht.
    replace (Z.to_nat (len data - 0)) with (length data) by (unfold len; lia).
    exact Ht.
Qed.

(** C6. For a 4-byte key [mask] and a byte span [data] of any length, the
    word-aligned primitive [xor] (machine-word blocks, then the tail byte by
    byte) gives at every index exactly the byte-wise reference
    [data[i] ^= mask[i mod 4]]. *)
Theorem xor_refines_bytewise (mask data : list Z) :
  length mask = 4%nat -> Forall byte_ok mask -> Forall byte_ok data ->
  xor mask data = xor_bytewise mask data.
Proof.
  intros _ Hm Hd. rewrite xor_bytewise_mask_from.
  apply xor_is_mask_from; assumption.
Qed.

(** ** Configuration clamping *)

Lemma cval_table value fallback min max :
  min <= max -> cval value fallback min max = table_rule value fallback min max.
Proof.
  intros Hmm. unfold cval, table_rule.
  destruct (value =? 0);
    repeat match goal with
           | |- context [?a <? ?b] => destruct (Z.ltb_spec a b)
           | |- context [?a >? ?b] => destruct (Z.gtb_spec a b)
           end; lia.
Qed.

Lemma cval_range value fallback min max :
  min <= max -> min <= cval value fallback min max <= max.
Proof. intros Hmm. rewrite cval_table by assumption. unfold table_rule. lia. Qed.

Lemma cval_fixed value fallback min max :
  value <> 0 -> min <= value <= max -> cval value fallback min max = value.
Proof.
  intros Hnz Hr. unfold cval.
  destruct (Z.eqb_spec value 0); [contradiction|].
  destruct (Z.ltb_spec value min); [lia|].
  destruct (Z.gtb_spec value max); [lia|]. reflexivity.
Qed.

Lemma cval_idempotent value fallback min max :
  0 < min -> min <= max ->
  cval (cval value fallback min max) fallback min max = cval value fallback min max.
Proof.
  intros Hpos Hmm. pose proof (cval_range value fallback min max Hmm).
  apply cval_fixed; lia.
Qed.

Lemma wrap64_small z : - 2^63 <= z < 2^63 -> wrap64 z = z.
Proof. intros Hz. unfold wrap64. rewrite Z.mod_small; lia. Qed.

(** The probe timeout after either entry point lies in [1 s, 30 s]. *)
Lemma probe_range value fallback :
  1 * Second <= cval value fallback (1 * Second) (30 * Second) <= 30 * Second.
Proof. apply cval_range. unfold Second. lia. Qed.

(** The inactivity timeout is derived from a probe timeout [probe] in
    [1 s, 30 s]: the products do not wrap, and the result lies in
    [probe + 1 s, 5 probe]. *)
Lemma inactive_rule value probe :
  1 * Second <= probe <= 30 * Second ->
  cval value (wrap64 (3 * probe)) (wrap64 (probe + Second)) (wrap64 (5 * probe))
  = table_rule value (3 * probe) (probe + Second) (5 * probe).
Proof.
  unfold Second. intros Hp.
  rewrite !wrap64_small by lia. apply cval_table. lia.
Qed.

(** What Dial does to each option, in the words of the table: every
    option follows the table, except [ConnectTimeout], which is computed
    from the caller's [ProbeTimeout]. *)
Lemma Dial_clamp_table config :
  Dial_clamp config =
  let t := table_clamp config in
  mkConfig (Protocols t) (NeedProtocol t) (ReadSize t) (FragmentSize t) (MessageSize t)
           (table_rule (ProbeTimeout config) (10 * Second) (1 * Second) (30 * Second))
           (ProbeTimeout t) (InactiveTimeout t) (WriteTimeout t)
           (WriteBufferSize t) (ReadBufferSize t)
           (OpenHandler t) (MessageHandler t) (CloseHandler t).
Proof.
  unfold Dial_clamp, table_clamp. cbn zeta. cbn [Protocols NeedProtocol ReadSize
    FragmentSize MessageSize ConnectTimeout ProbeTimeout InactiveTimeout WriteTimeout
    WriteBufferSize ReadBufferSize OpenHandler MessageHandler CloseHandler].
  rewrite inactive_rule by apply probe_range.
  change (Z.shiftl 4 10) with 4096. change (Z.shiftl 256 10) with 262144.
  change (Z.shiftl 16 10) with 16384. change (Z.shiftl 1 20) with 1048576.
  change (Z.shiftl 4 20) with 4194304. change (Z.shiftl 64 20) with 67108864.
  change (Z.shiftl 32 20) with 33554432.
  rewrite !(cval_table _ _ 4096) by lia.
  rewrite !(cval_table _ _ (1 * Second)) by (unfold Second; lia).
  f_equal.
  - destruct (Z.eqb_spec (WriteBufferSize config) 0) as [->|Hnz]; [reflexivity|].
    cbn [negb]. unfold table_rule.
    destruct (Z.eqb_spec (WriteBufferSize config) 0); [contradiction|reflexivity].
  - destruct (Z.eqb_spec (ReadBufferSize config) 0) as [->|Hnz]; [reflexivity|].
    cbn [negb]. unfold table_rule.
    destruct (Z.eqb_spec (ReadBufferSize config) 0); [contradiction|reflexivity].
Qed.

(** Handle follows the table on every option it clamps, except that the
    fallback of [ProbeTimeout] is 10 s; [ConnectTimeout] is left as it is. *)
Lemma Handle_clamp_table config :
  Handle_clamp config =
  let probe := table_rule (ProbeTimeout config) (10 * Second) (1 * Second) (30 * Second) in
  let t := table_clamp config in
  mkConfig (Protocols t) (NeedProtocol t) (ReadSize t) (FragmentSize t) (MessageSize t)
           (ConnectTimeout config) probe
           (table_rule (InactiveTimeout config) (3 * probe) (probe + Second) (5 * probe))
           (WriteTimeout t) (WriteBufferSize t) (ReadBufferSize t)
           (OpenHandler t) (MessageHandler t) (CloseHandler t).
Proof.
  unfold Handle_clamp, table_clamp. cbn zeta. cbn [Protocols NeedProtocol ReadSize
    FragmentSize MessageSize ConnectTimeout ProbeTimeout InactiveTimeout WriteTimeout
    WriteBufferSize ReadBufferSize OpenHandler MessageHandler CloseHandler].
  rewrite inactive_rule by apply probe_range.
  change (Z.shiftl 4 10) with 4096. change (Z.shiftl 256 10) with 262144.
  change (Z.shiftl 16 10) with 16384. change (Z.shiftl 1 20) with 1048576.
  change (Z.shiftl 4 20) with 4194304. change (Z.shiftl 64 20) with 67108864.
  change (Z.shiftl 32 20) with 33554432.
  rewrite !(cval_table _ _ 4096) by lia.
  rewrite !(cval_table _ _ (1 * Second)) by (unfold Second; lia).
  f_equal.
  - destruct (Z.eqb_spec (WriteBufferSize config) 0) as [->|Hnz]; [reflexivity|].
    cbn [negb]. unfold table_rule.
    destruct (Z.eqb_spec (WriteBufferSize config) 0); [contradiction|reflexivity].
  - destruct (Z.eqb_spec (ReadBufferSize config) 0) as [->|Hnz]; [reflexivity|].
    cbn [negb]. unfold table_rule.
    destruct (Z.eqb_spec (ReadBufferSize config) 0); [contradiction|reflexivity].
Qed.

(** C1. Every numeric option that is zero is replaced by the default of the
    table and clamped into the table's range, [ConnectTimeout] from its own
    prior value (default 10 s) and [ProbeTimeout] with default 15 s in both
    entry points.  The code departs from this at two inputs: Dial, given
    [ConnectTimeout] = 5 s and no [ProbeTimeout], returns 10 s where the
    table gives 5 s; Handle, given the zero configuration, sets
    [ProbeTimeout] to 10 s where the table (and Dial) give 15 s. *)
Theorem clamp_departs_from_table :
  let own := mkConfig [] false 0 0 0 (5 * Second) 0 0 0 0 0 false false false in
  ConnectTimeout (Dial_clamp own) = 10 * Second /\
  ConnectTimeout (table_clamp own) = 5 * Second /\
  ProbeTimeout (Handle_clamp Config_zero) = 10 * Second /\
  ProbeTimeout (Dial_clamp Config_zero) = 15 * Second /\
  ProbeTimeout (table_clamp Config_zero) = 15 * Second.
Proof. vm_compute. repeat split; reflexivity. Qed.

(** A second pass of Dial's clamping changes nothing but [ConnectTimeout],
    which becomes the clamped [ProbeTimeout]. *)
Lemma Dial_clamp_twice config :
  Dial_clamp (Dial_clamp config) =
  let c := Dial_clamp config in
  mkConfig (Protocols c) (NeedProtocol c) (ReadSize c) (FragmentSize c) (MessageSize c)
           (ProbeTimeout c) (ProbeTimeout c) (InactiveTimeout c) (WriteTimeout c)
           (WriteBufferSize c) (ReadBufferSize c)
           (OpenHandler c) (MessageHandler c) (CloseHandler c).
Proof.
  unfold Dial_clamp. cbn zeta. cbn [Protocols NeedProtocol ReadSize
    FragmentSize MessageSize ConnectTimeout ProbeTimeout InactiveTimeout WriteTimeout
    WriteBufferSize ReadBufferSize OpenHandler MessageHandler CloseHandler].
  change (Z.shiftl 4 10) with 4096. change (Z.shiftl 256 10) with 262144.
  change (Z.shiftl 16 10) with 16384. change (Z.shiftl 1 20) with 1048576.
  change (Z.shiftl 4 20) with 4194304. change (Z.shiftl 64 20) with 67108864.
  change (Z.shiftl 32 20) with 33554432.
  pose proof (probe_range (ProbeTimeout config) (15 * Second)) as Hp.
  set (probe := cval (ProbeTimeout config) (15 * Second) (1 * Second) (30 * Second)) in *.
  assert (Hprobe : forall fallback,
             cval probe fallback (1 * Second) (30 * Second) = probe).
  { intros fallback. apply cval_fixed; unfold Second in *; lia. }
  rewrite !Hprobe.
  f_equal; try (apply cval_idempotent; unfold Second; lia).
  - apply cval_idempotent; rewrite !wrap64_small; unfold Second in *; lia.
  - destruct (Z.eqb_spec (WriteBufferSize config) 0) as [->|Hnz]; [reflexivity|].
    cbn [negb].
    pose proof (cval_range (WriteBufferSize config) 4096 4096 33554432 ltac:(lia)).
    destruct (Z.eqb_spec (cval (WriteBufferSize config) 4096 4096 33554432) 0);
      [lia|]. cbn [negb]. apply cval_idempotent; lia.
  - destruct (Z.eqb_spec (ReadBufferSize config) 0) as [->|Hnz]; [reflexivity|].
    cbn [negb].
    pose proof (cval_range (ReadBufferSize config) 4096 4096 33554432 ltac:(lia)).
    destruct (Z.eqb_spec (cval (ReadBufferSize config) 4096 4096 33554432) 0);
      [lia|]. cbn [negb]. apply cval_idempotent; lia.
Qed.

(** Dial's clamping is idempotent exactly on the configurations whose
    [ProbeTimeout] is set: with a zero [ProbeTimeout] the first pass gives
    [ConnectTimeout] = 10 s and the second 15 s. *)
Lemma Dial_clamp_idempotent_iff config :
  Dial_clamp (Dial_clamp config) = Dial_clamp config <-> ProbeTimeout config <> 0.
Proof.
  rewrite Dial_clamp_twice. cbn zeta.
  assert (Hc : ConnectTimeout (Dial_clamp config)
               = cval (ProbeTimeout config) (10 * Second) (1 * Second) (30 * Second))
    by reflexivity.
  assert (Hp : ProbeTimeout (Dial_clamp config)
               = cval (ProbeTimeout config) (15 * Second) (1 * Second) (30 * Second))
    by reflexivity.
  split.
  - intros Heq Hz.
    apply (f_equal ConnectTimeout) in Heq. cbn [ConnectTimeout] in Heq.
    rewrite Hp in Heq. rewrite Hc in Heq at 1. rewrite Hz in Heq. vm_compute in Heq.
    discriminate.
  - intros Hnz.
    assert (Hsame : ProbeTimeout (Dial_clamp config) = ConnectTimeout (Dial_clamp config)).
    { rewrite Hc, Hp. unfold cval.
      destruct (Z.eqb_spec (ProbeTimeout config) 0); [contradiction|reflexivity]. }
    rewrite Hsame at 1. destruct (Dial_clamp config). reflexivity.
Qed.

(** C9. Applying the clamping rules of Dial a second time gives the same
    configuration for every numeric option, [ConnectTimeout] included.  The
    code breaks this on the zero configuration: the first pass sets
    [ConnectTimeout] to 10 s, the second pass to 15 s. *)
Theorem Dial_clamp_second_pass_differs :
  ConnectTimeout (Dial_clamp Config_zero) = 10 * Second /\
  ConnectTimeout (Dial_clamp (Dial_clamp Config_zero)) = 15 * Second /\
  Dial_clamp (Dial_clamp Config_zero) <> Dial_clamp Config_zero.
Proof.
  split; [reflexivity|]. split; [reflexivity|].
  intros Heq. apply (f_equal ConnectTimeout) in Heq. vm_compute in Heq. discriminate.
Qed.

(** ** Close *)

Lemma same_flags_refl s : same_flags s s.
Proof. repeat split. Qed.

Lemma same_flags_trans s1 s2 s3 :
  same_flags s1 s2 -> same_flags s2 s3 -> same_flags s1 s3.
Proof. unfold same_flags. intuition congruence. Qed.

Lemma record_flags e s : same_flags s (record e s).
Proof. repeat split. Qed.

Lemma rmask_flags s : same_flags s (snd (rmask s)).
Proof. repeat split. Qed.

Lemma Close_payload_flags s code : same_flags s (snd (Close_payload s code)).
Proof.
  unfold Close_payload. destruct (client s); cbn -[xor PutUint16 Z.modulo];
    destruct (negb (code =? 0)); repeat split.
Qed.

Lemma WriteTo_flags s payload : same_flags s (fst (WriteTo s payload)).
Proof. unfold WriteTo. destruct (faults s) as [|[] ?]; repeat split. Qed.

Lemma Close_payload_log s code : log (snd (Close_payload s code)) = log s.
Proof.
  unfold Close_payload. destruct (client s); cbn -[xor PutUint16 Z.modulo];
    destruct (negb (code =? 0)); reflexivity.
Qed.

(** The steps of the caller that passes the gate, one after the other:
    after six steps the call has returned. *)
Lemma Close_alone s code :
  connected s = true -> closing s = false ->
  Nat.iter 6 thread_step ([(AtGate, code)], s) = ([], Close_effect s code).
Proof.
  intros Hc Hg. unfold Close_effect.
  set (s1 := set_closing true s).
  set (s2 := if has_CloseHandler s1 then record (OnClose code) s1 else s1).
  assert (F2 : connected s2 = true /\ closing s2 = true).
  { subst s2. destruct (has_CloseHandler s1); cbn; auto. }
  destruct F2 as [C2 G2].
  pose proof (Close_payload_flags s2 code) as (C3 & G3 & _).
  destruct (Close_payload s2 code) as [payload s3] eqn:EP. cbn [snd] in C3, G3.
  pose proof (WriteTo_flags s3 payload) as (C4 & G4 & _).
  destruct (WriteTo s3 payload) as [s4 err] eqn:EW. cbn [fst] in C4, G4.
  unfold Nat.iter; cbn [nat_rect].
  assert (Step1 : thread_step ([(AtGate, code)], s) = ([(AtNotify, code)], s1)).
  { cbn. rewrite Hg, Hc. reflexivity. }
  assert (Step2 : thread_step ([(AtNotify, code)], s1) = ([(AtSend, code)], s2)).
  { reflexivity. }
  assert (Step3 : thread_step ([(AtSend, code)], s2)
                  = (if err then [(AtGate, 0); (AtDisconnect, code)]
                     else [(AtDisconnect, code)], s4)).
  { cbn [thread_step Close_step]. rewrite EP.
    rewrite C3, C2. cbn [negb]. rewrite EW. destruct err; reflexivity. }
  assert (Step4 : thread_step ([(AtGate, 0); (AtDisconnect, code)], s4)
                  = ([(AtDisconnect, code)], s4)).
  { cbn [thread_step Close_step]. rewrite G4, G3, G2. reflexivity. }
  rewrite Step1, Step2, Step3. destruct err.
  - rewrite Step4. reflexivity.
  - reflexivity.
Qed.

(** A call of [Close] returns: six steps empty its stack, whatever the
    socket. *)
Lemma Close_returns s code :
  fst (Nat.iter 6 thread_step ([(AtGate, code)], s)) = [].
Proof.
  destruct (negb (closing s) && connected s) eqn:Hgate.
  - apply andb_true_iff in Hgate as [Hg Hc]. apply negb_true_iff in Hg.
    rewrite Close_alone by assumption. reflexivity.
  - cbn. rewrite Hgate. reflexivity.
Qed.

Lemma Close_open s code :
  connected s = true -> closing s = false -> Close s code = Close_effect s code.
Proof. intros Hc Hg. unfold Close. rewrite Close_alone by assumption. reflexivity. Qed.

Lemma Close_shut s code :
  negb (closing s) && connected s = false -> Close s code = s.
Proof. intros Hgate. unfold Close. cbn. rewrite Hgate. reflexivity. Qed.

(** *** Any number of callers *)

Lemma steps_succ k code s0 :
  steps (S k) code s0 = thread_step (steps k code s0).
Proof. reflexivity. Qed.

Lemma thread_step_closing t s :
  closing s = true -> closing (snd (thread_step (t, s))) = true.
Proof.
  intros Hg. destruct t as [|[[] code] rest]; cbn [thread_step Close_step].
  - exact Hg.
  - rewrite Hg. cbn. exact Hg.
  - cbn. destruct (has_CloseHandler s); exact Hg.
  - pose proof (Close_payload_flags s code) as (_ & G & _).
    destruct (Close_payload s code) as [payload s3]. cbn [snd] in G.
    destruct (negb (connected s3)); [cbn; congruence|].
    pose proof (WriteTo_flags s3 payload) as (_ & G' & _).
    destruct (WriteTo s3 payload) as [s4 err]. cbn [fst] in G'.
    destruct err; cbn; congruence.
  - cbn. exact Hg.
  - cbn. exact Hg.
Qed.

Lemma steps_closing k code s0 :
  connected s0 = true -> closing s0 = false -> (1 <= k)%nat ->
  closing (snd (steps k code s0)) = true.
Proof.
  intros Hc Hg Hk. induction k as [|k IH]; [lia|].
  destruct k as [|k].
  - cbn. rewrite Hg, Hc. reflexivity.
  - rewrite steps_succ.
    destruct (steps (S k) code s0) as [t s] eqn:E.
    apply thread_step_closing. apply IH. lia.
Qed.

(** Once the stack is empty, further steps change nothing. *)
Lemma steps_stationary k m code s0 :
  fst (steps k code s0) = [] -> steps (k + m) code s0 = steps k code s0.
Proof.
  intros Hk. induction m as [|m IH].
  - rewrite Nat.add_0_r. reflexivity.
  - rewrite Nat.add_succ_r, steps_succ, IH.
    destruct (steps k code s0) as [t s]. cbn in Hk. subst t. reflexivity.
Qed.

Lemma steps_finished k code s0 :
  connected s0 = true -> closing s0 = false ->
  fst (steps k code s0) = [] -> snd (steps k code s0) = Close_effect s0 code.
Proof.
  intros Hc Hg Hk.
  pose proof (Close_alone s0 code Hc Hg) as H6.
  destruct (Nat.le_gt_cases k 6) as [Hle|Hgt].
  - replace 6%nat with (k + (6 - k))%nat in H6 by lia.
    rewrite steps_stationary in H6 by assumption. rewrite H6. reflexivity.
  - replace k with (6 + (k - 6))%nat by lia.
    rewrite steps_stationary by (rewrite H6; reflexivity).
    rewrite H6. reflexivity.
Qed.

Lemma world_step_some w tid t :
  threads w !! tid = Some t ->
  world_step w tid
  = mkWorld (snd (thread_step (t, shared w)))
            (<[tid := fst (thread_step (t, shared w))]> (threads w)).
Proof.
  intros Hlook. unfold world_step. rewrite Hlook.
  destruct (thread_step (t, shared w)). reflexivity.
Qed.

Lemma world_step_none w tid :
  threads w !! tid = None -> world_step w tid = w.
Proof. intros Hlook. unfold world_step. rewrite Hlook. reflexivity. Qed.

Lemma world_step_invariant s0 codes w tid :
  connected s0 = true -> closing s0 = false ->
  untouched s0 codes w \/ won s0 codes w ->
  untouched s0 codes (world_step w tid) \/ won s0 codes (world_step w tid).
Proof.
  intros Hc Hg [Hinit | (tid0 & code & k & Hcode & Hk & Hstack & Hshared & Hothers)].
  - unfold untouched in Hinit. subst w.
    destruct (codes !! tid) as [code|] eqn:Hcode.
    + assert (Hlook : threads (callers s0 codes) !! tid = Some [(AtGate, code)]).
      { unfold callers; cbn [threads]. rewrite list_lookup_fmap, Hcode. reflexivity. }
      rewrite (world_step_some _ _ _ Hlook).
      right. exists tid, code, 1%nat. cbn [threads shared callers].
      repeat split; try assumption; try lia.
      * apply list_lookup_insert_eq. rewrite length_fmap.
        eapply lookup_lt_Some; eassumption.
      * intros j t Hj Hl. rewrite list_lookup_insert_ne in Hl by congruence.
        rewrite list_lookup_fmap in Hl.
        destruct (codes !! j) as [c|]; cbn in Hl; [|discriminate].
        right. exists c. congruence.
    + left. apply world_step_none. unfold callers; cbn [threads].
      rewrite list_lookup_fmap, Hcode. reflexivity.
  - right.
    destruct (threads w !! tid) as [t|] eqn:Hlook;
      [| rewrite world_step_none by assumption;
         exists tid0, code, k; repeat split; assumption].
    rewrite (world_step_some _ _ _ Hlook).
    destruct (decide (tid = tid0)) as [->|Hne].
    + rewrite Hstack in Hlook. injection Hlook as <-.
      rewrite Hshared, <- surjective_pairing, <- steps_succ.
      exists tid0, code, (S k). cbn [threads shared].
      repeat split; try assumption; try lia.
      * apply list_lookup_insert_eq. eapply lookup_lt_Some; eassumption.
      * intros j t Hj Hl. rewrite list_lookup_insert_ne in Hl by congruence.
        eapply Hothers; eassumption.
    + assert (Hclosing : closing (shared w) = true).
      { rewrite Hshared. apply steps_closing; assumption. }
      assert (Hstep : thread_step (t, shared w) = ([], shared w)).
      { destruct (Hothers tid t Hne Hlook) as [-> | [c ->]]; [reflexivity|].
        cbn. rewrite Hclosing. reflexivity. }
      rewrite Hstep. exists tid0, code, k. cbn [threads shared fst snd].
      repeat split; try assumption.
      * rewrite list_lookup_insert_ne by congruence. assumption.
      * intros j t' Hj Hl.
        destruct (decide (j = tid)) as [->|Hjt].
        -- rewrite list_lookup_insert_eq in Hl
             by (eapply lookup_lt_Some; eassumption).
           left. congruence.
        -- rewrite list_lookup_insert_ne in Hl by congruence.
           eapply Hothers; eassumption.
Qed.

Lemma run_invariant s0 codes schedule :
  connected s0 = true -> closing s0 = false ->
  let w := run schedule (callers s0 codes) in
  untouched s0 codes w \/ won s0 codes w.
Proof.
  intros Hc Hg. cbn zeta. unfold run.
  induction schedule as [|tid schedule IH] using rev_ind.
  - left. reflexivity.
  - rewrite foldl_app. cbn [foldl].
    apply world_step_invariant; assumption.
Qed.

(** Whatever the interleaving of the callers, when all of them have
    returned the socket is as after one call of [Close] alone, with the
    code of one of the callers. *)
Lemma callers_linearize s0 codes schedule :
  connected s0 = true -> closing s0 = false -> codes <> [] ->
  finished (run schedule (callers s0 codes)) ->
  exists code, code ∈ codes /\
    shared (run schedule (callers s0 codes)) = Close s0 code.
Proof.
  intros Hc Hg Hne Hfin.
  destruct (run_invariant s0 codes schedule Hc Hg)
    as [Hinit | (tid & code & k & Hcode & Hk & Hstack & Hshared & _)].
  - exfalso. unfold untouched in Hinit. rewrite Hinit in Hfin.
    unfold finished, callers in Hfin. cbn [threads] in Hfin.
    destruct codes as [|c codes]; [congruence|].
    inversion Hfin as [|? ? Hhead _]. discriminate.
  - exists code. split; [eapply list_elem_of_lookup_2; eassumption|].
    unfold finished in Hfin.
    pose proof (Forall_lookup_1 _ _ _ _ Hfin Hstack) as Hempty.
    cbn beta in Hempty.
    rewrite Hshared, Close_open by assumption.
    apply steps_finished; assumption.
Qed.

Lemma Close_effect_spec s code :
  connected s = true -> closing s = false ->
  let s' := Close_effect s code in
  let payload := fst (Close_payload s code) in
  closing s' = true /\ connected s' = false /\
  log s' = log s ++ [Closing]
                 ++ (if has_CloseHandler s then [OnClose code] else [])
                 ++ [if write_fails s then WriteFailed payload else Written payload]
                 ++ [Disconnected; StreamClosed].
Proof.
  intros Hc Hg. destruct s as [p o a r pr cfg con cl clo fl en lg].
  cbn in Hc, Hg. subst con clo.
  unfold Close_effect, Close_payload, has_CloseHandler, write_fails, WriteTo, rmask.
  cbn [client config faults entropy log connected closing set_closing record
       set_connected set_entropy set_faults negb andb].
  destruct cfg as [c|]; [destruct (CloseHandler c)|];
    destruct cl; destruct (code =? 0); destruct fl as [|[] fl];
    cbn -[xor PutUint16 Z.modulo Z.lor]; rewrite <- ?app_assoc;
    repeat split; reflexivity.
Qed.

Lemma Close_payload_opcode s code :
  frame_opcode (fst (Close_payload s code)) = WEBSOCKET_OPCODE_CLOSE /\
  frame_fin (fst (Close_payload s code)) = true.
Proof.
  unfold Close_payload. destruct (client s); cbn -[xor PutUint16 Z.modulo];
    destruct (negb (code =? 0)); split; reflexivity.
Qed.

(** C2 (as the code has it).  Take a connected socket that is not closing
    and [N >= 1] callers of [Close], with any codes and in any
    interleaving.  When all of them have returned: [closing] went from
    false to true once; then the CloseHandler was invoked once, with the
    code of one of the callers, if one is set, and not at all otherwise;
    then one CLOSE frame was handed to the stream, which it reached unless
    that write failed; then [connected] went from true to false once; then
    the stream was closed.  Nothing else happened. *)
Theorem Close_happens_once (s : Socket) (codes : list Z) (schedule : list nat) :
  connected s = true -> closing s = false -> codes <> [] ->
  finished (run schedule (callers s codes)) ->
  exists code, code ∈ codes /\
    let s' := shared (run schedule (callers s codes)) in
    let payload := fst (Close_payload s code) in
    frame_opcode payload = WEBSOCKET_OPCODE_CLOSE /\
    closing s' = true /\ connected s' = false /\
    log s' = log s ++ [Closing]
                   ++ (if has_CloseHandler s then [OnClose code] else [])
                   ++ [if write_fails s then WriteFailed payload else Written payload]
                   ++ [Disconnected; StreamClosed].
Proof.
  intros Hc Hg Hne Hfin.
  destruct (callers_linearize s codes schedule Hc Hg Hne Hfin) as (code & Hin & Heq).
  exists code. split; [assumption|]. cbn zeta.
  rewrite Heq, Close_open by assumption.
  split; [apply Close_payload_opcode|].
  apply Close_effect_spec; assumption.
Qed.

(** ** Write *)

(** *** Slices *)

Lemma length_slice (data : list Z) lo hi :
  0 <= lo <= hi -> hi <= len data -> length (slice data lo hi) = Z.to_nat (hi - lo).
Proof.
  unfold slice, len. intros Hlo Hhi. rewrite length_take, length_drop. lia.
Qed.

Lemma length_splice (data block : list Z) lo :
  0 <= lo -> lo + len block <= len data ->
  length (splice data lo block) = length data.
Proof.
  unfold splice, len. intros Hlo Hhi.
  rewrite !length_app, length_take, length_drop. lia.
Qed.

Lemma slice_splice (data block : list Z) lo :
  0 <= lo -> lo + len block <= len data ->
  slice (splice data lo block) lo (lo + len block) = block.
Proof.
  unfold slice, splice, len. intros Hlo Hhi.
  rewrite drop_app_length' by (rewrite length_take; lia).
  replace (Z.to_nat (lo + Z.of_nat (length block) - lo)) with (length block) by lia.
  apply take_app_length.
Qed.

Lemma splice_splice (data block block' : list Z) lo :
  0 <= lo -> length block' = length block -> lo + len block <= len data ->
  splice (splice data lo block) lo block' = splice data lo block'.
Proof.
  unfold splice, len. intros Hlo Hsame Hhi.
  rewrite take_app_length' by (rewrite length_take; lia).
  do 2 f_equal.
  rewrite drop_app_add' by (rewrite length_take; lia).
  rewrite Hsame. rewrite drop_app_length. reflexivity.
Qed.

Lemma splice_slice (data : list Z) lo hi :
  0 <= lo <= hi -> hi <= len data -> splice data lo (slice data lo hi) = data.
Proof.
  intros Hlo Hhi. unfold splice. rewrite length_slice by assumption.
  unfold slice.
  rewrite <- (take_drop (Z.to_nat lo) data) at 4. f_equal.
  rewrite <- (take_drop (Z.to_nat (hi - lo)) (drop (Z.to_nat lo) data)) at 2.
  f_equal. rewrite drop_drop. reflexivity.
Qed.

Lemma Forall_slice (P : Z -> Prop) (data : list Z) lo hi :
  Forall P data -> Forall P (slice data lo hi).
Proof. intros H. unfold slice. apply Forall_take, Forall_drop, H. Qed.

(** *** Masking twice restores the bytes (section 4.1) *)

Lemma byte_at_ok (mask : list Z) index :
  Forall byte_ok mask -> byte_ok (byte_at mask index).
Proof.
  intros Hm. unfold byte_at.
  destruct (mask !! Z.to_nat index) as [b|] eqn:E; cbn.
  - eapply Forall_lookup_1; eassumption.
  - unfold byte_ok. lia.
Qed.

Lemma mask_from_bytes mask k span :
  Forall byte_ok mask -> Forall byte_ok span -> Forall byte_ok (mask_from mask k span).
Proof.
  intros Hm Hs. unfold mask_from. apply Forall_lookup_2. intros i b Hlook.
  rewrite list_lookup_imap in Hlook.
  destruct (span !! i) as [x|] eqn:E; cbn in Hlook; [|discriminate].
  injection Hlook as <-. apply lxor_byte_ok.
  - eapply Forall_lookup_1; eassumption.
  - apply byte_at_ok; assumption.
Qed.

Lemma mask_from_involutive mask k span :
  mask_from mask k (mask_from mask k span) = span.
Proof.
  unfold mask_from. apply list_eq. intros i.
  rewrite !list_lookup_imap. destruct (span !! i) as [x|]; cbn; [|reflexivity].
  f_equal. rewrite Z.lxor_assoc, Z.lxor_nilpotent. apply Z.lxor_0_r.
Qed.

Lemma xor_involutive mask data :
  Forall byte_ok mask -> Forall byte_ok data -> xor mask (xor mask data) = data.
Proof.
  intros Hm Hd.
  rewrite (xor_is_mask_from mask data) by assumption.
  rewrite xor_is_mask_from by (try apply mask_from_bytes; assumption).
  apply mask_from_involutive.
Qed.

Lemma length_xor mask data :
  Forall byte_ok mask -> Forall byte_ok data -> length (xor mask data) = length data.
Proof.
  intros Hm Hd. rewrite xor_is_mask_from by assumption. apply length_mask_from.
Qed.

Lemma rmask_bytes s : Forall byte_ok (fst (rmask s)) /\ length (fst (rmask s)) = 4%nat.
Proof.
  unfold rmask. cbn [fst]. split; [|reflexivity].
  repeat constructor; apply Z.mod_pos_bound; lia.
Qed.

(** *** One round of the loop *)

(** A payload masked in place is restored by masking it again. *)
Lemma masked_in_place (data mask : list Z) lo size :
  0 <= lo -> 0 <= size -> lo + size <= len data ->
  Forall byte_ok mask -> Forall byte_ok data ->
  let data1 := splice data lo (xor mask (slice data lo (lo + size))) in
  slice data1 lo (lo + size) = xor mask (slice data lo (lo + size)) /\
  splice data1 lo (xor mask (slice data1 lo (lo + size))) = data.
Proof.
  intros Hlo Hsize Hhi Hm Hd. cbn zeta.
  set (block := slice data lo (lo + size)).
  assert (Hblock : Forall byte_ok block) by (apply Forall_slice; assumption).
  assert (Hlen : len (xor mask block) = size).
  { unfold len. rewrite length_xor by assumption. subst block.
    rewrite length_slice by lia. lia. }
  assert (Hread : slice (splice data lo (xor mask block)) lo (lo + size)
                  = xor mask block).
  { rewrite <- Hlen. apply slice_splice; lia. }
  split; [exact Hread|].
  rewrite Hread, xor_involutive by assumption.
  rewrite splice_splice; [| lia | | lia].
  - subst block. apply splice_slice; lia.
  - rewrite length_xor by assumption. reflexivity.
Qed.

(** The caller's data after a round is the data before it, whatever
    [send] returns. *)
Lemma Write_round_data fragment frames frame mode s (data : list Z) :
  let offset := (frame - 1) * fragment in
  let size := if frame =? frames then len data - offset else fragment in
  0 <= offset -> 0 <= size -> offset + size <= len data ->
  Forall byte_ok data ->
  snd (fst (fst (Write_round fragment (len data) frames frame mode s data))) = data.
Proof.
  cbn zeta. intros Hlo Hsize Hhi Hd. unfold Write_round.
  destruct (frame =? frames);
    match goal with
    | |- context [if ?sz <? 126 then _ else _] =>
        destruct (sz <? 126); [| destruct (sz <? 65536)]
    end;
    (destruct (client s);
     [ pose proof (rmask_bytes s) as [Hm _];
       destruct (rmask s) as [mask s1]; cbn [fst] in Hm;
       match goal with
       | |- context [send ?s0 ?payload] => destruct (send s0 payload) as [s2 err]
       end;
       cbn [fst snd];
       apply masked_in_place; assumption
     | match goal with
       | |- context [send ?s0 ?payload] => destruct (send s0 payload) as [s2 err]
       end;
       reflexivity ]).
Qed.

(** *** The number of frames *)

Lemma frames_of_bounds length fragment :
  0 < length -> 0 < fragment ->
  (frames_of length fragment - 1) * fragment < length <= frames_of length fragment * fragment.
Proof.
  intros Hl Hf. unfold frames_of.
  pose proof (Z.quot_rem' length fragment) as Hqr.
  pose proof (Z.rem_bound_pos length fragment ltac:(lia) Hf) as Hr.
  destruct (Z.eqb_spec (Z.rem length fragment) 0) as [Hz|Hnz]; cbn [negb]; nia.
Qed.


Lemma round_bounds fragment frames frame (data : list Z) :
  0 < fragment -> 1 <= frame <= frames ->
  (frames - 1) * fragment < len data <= frames * fragment ->
  let offset := (frame - 1) * fragment in
  let size := if frame =? frames then len data - offset else fragment in
  0 <= offset /\ 0 < size /\ offset + size <= len data.
Proof.
  intros Hf Hfr Hb. cbn zeta.
  destruct (Z.eqb_spec frame frames) as [->|Hne]; nia.
Qed.

(** *** The caller's data *)

Lemma Write_loop_data fragment frames (data : list Z) :
  0 < fragment -> (frames - 1) * fragment < len data <= frames * fragment ->
  Forall byte_ok data ->
  forall (n : nat) frame mode s, 1 <= frame ->
    snd (fst (Write_loop n fragment (len data) frames frame mode s data)) = data.
Proof.
  intros Hf Hb Hd. induction n as [|n IH]; intros frame mode s Hfr; [reflexivity|].
  cbn [Write_loop]. destruct (Z.leb_spec frame frames) as [Hle|Hgt]; [|reflexivity].
  destruct (round_bounds fragment frames frame data Hf ltac:(lia) Hb) as (Ho & Hs & Hh).
  pose proof (Write_round_data fragment frames frame mode s data
                ltac:(lia) ltac:(lia) Hh Hd) as Hround.
  destruct (Write_round fragment (len data) frames frame mode s data)
    as [[[s' data'] mode'] err].
  cbn [fst snd] in Hround. subst data'.
  destruct err; [reflexivity|]. apply IH. lia.
Qed.

(** C7. A call of [Write] with TEXT or BLOB and a non-empty payload returns,
    and the caller's [data] holds its original contents at that point: each
    fragment is masked in place before it is sent and masked again after,
    whether the send succeeded or failed.  (On a server-role socket the
    data is never touched.) *)
Theorem Write_leaves_data (s : Socket) (config0 : Config) (mode : Z) (data : list Z) :
  config s = Some config0 -> 0 < FragmentSize config0 ->
  mode = WEBSOCKET_OPCODE_TEXT \/ mode = WEBSOCKET_OPCODE_BLOB ->
  data <> [] -> Forall byte_ok data ->
  exists s' err, Write s mode data = Returns (s', data, err).
Proof.
  intros Hcfg Hf Hmode Hne Hd. unfold Write. rewrite Hcfg.
  assert (Hlen : 0 < len data).
  { unfold len. destruct data; [congruence|]. cbn [length]. lia. }
  assert (Hvalid : ((mode =? WEBSOCKET_OPCODE_TEXT) || (mode =? WEBSOCKET_OPCODE_BLOB))
                   && (len data >? 0) = true).
  { destruct (Z.gtb_spec (len data) 0); [|lia].
    destruct Hmode as [-> | ->]; reflexivity. }
  rewrite Hvalid.
  destruct (Z.eqb_spec (FragmentSize config0) 0) as [Hz|_]; [lia|].
  fold (frames_of (len data) (FragmentSize config0)).
  pose proof (frames_of_bounds _ _ Hlen Hf) as Hb.
  pose proof (Write_loop_data _ _ data Hf Hb Hd
                (Z.to_nat (frames_of (len data) (FragmentSize config0)))
                1 mode s ltac:(lia)) as Hloop.
  destruct (Write_loop _ _ _ _ _ _ _ _) as [[s' data'] err].
  cbn [fst snd] in Hloop. subst data'. exists s', err. reflexivity.
Qed.

(** *** The frames of a call whose sends all succeed *)

Lemma send_reliable s payload :
  reliable s ->
  exists s', send s payload = (s', false) /\ reliable s' /\
             client s' = client s /\ log s' = log s ++ [Written payload].
Proof.
  intros [Hc Hf]. unfold send, WriteTo. rewrite Hc. cbn [negb].
  destruct (faults s) as [|[] rest] eqn:E.
  - eexists. split; [reflexivity|]. repeat split; cbn; try assumption.
    rewrite E. constructor.
  - inversion Hf; discriminate.
  - eexists. split; [reflexivity|]. repeat split; cbn; try assumption.
    inversion Hf; assumption.
Qed.

Lemma rmask_reliable s :
  reliable s ->
  reliable (snd (rmask s)) /\ client (snd (rmask s)) = client s /\
  log (snd (rmask s)) = log s.
Proof. intros [Hc Hf]. repeat split; assumption. Qed.





(** ** Handle *)

Local Open Scope string_scope.

Lemma Handle_upgradable accept response request config :
  upgradable response request ->
  Handle accept response request config =
  match config with
  | None => Panics
  | Some config0 =>
      if (0 <? length (Protocols config0))%nat then
        let protocol := negotiate config0 (Get (Header request) "Sec-WebSocket-Protocol") in
        if negb (String.eqb protocol "") then
          Returns (Handle_upgrade accept (Set_ "Sec-WebSocket-Protocol" protocol response)
                                  request config0
                                  (Get (Header request) "Sec-WebSocket-Key") protocol)
        else if NeedProtocol config0 then Returns (true, None, WriteHeader 400 response)
        else Returns (Handle_upgrade accept response request config0
                                     (Get (Header request) "Sec-WebSocket-Key") protocol)
      else Returns (Handle_upgrade accept response request config0
                                   (Get (Header request) "Sec-WebSocket-Key") "")
  end.
Proof.
  intros (Hconn & Hup & Hget & Hver & Hkey & Hhij). unfold Handle.
  rewrite Hconn, Hup, Hget, Hver, Hhij. cbn -[negotiate].
  destruct (String.eqb_spec (Get (Header request) "Sec-WebSocket-Key") "") as [He|_];
    [contradiction|].
  reflexivity.
Qed.

(** C10. A call [Handle(response, request, nil)] whose request asks for the
    upgrade ([Connection] contains "upgrade", [Upgrade] is "websocket",
    method GET, version "13", a non-empty key) on a writer that supports
    hijacking reads [config.Protocols] before the nil configuration is
    replaced, and panics instead of completing the upgrade. *)
Theorem Handle_nil_config_panics (accept : string -> string)
        (response : ResponseWriter) (request : Request) :
  Contains (ToLower (Get (Header request) "Connection")) "upgrade" = true ->
  ToLower (Get (Header request) "Upgrade") = "websocket" ->
  Method request = "GET" ->
  Get (Header request) "Sec-WebSocket-Version" = "13" ->
  Get (Header request) "Sec-WebSocket-Key" <> "" ->
  hijacker response = true ->
  Handle accept response request None = Panics.
Proof.
  intros Hconn Hup Hget Hver Hkey Hhij.
  rewrite Handle_upgradable by (repeat split; assumption). reflexivity.
Qed.

(** *** The negotiated protocol *)

Lemma sprotocols_lookup (server : list string) (value : string) :
  forall m : gmap string bool,
    default false (foldl (fun m v => <[v := true]> m) m server !! value)
    = if decide (value ∈ server) then true else default false (m !! value).
Proof.
  induction server as [|v server IH]; intros m; cbn [foldl].
  - destruct (decide (value ∈ [])) as [Hin|_]; [inversion Hin | reflexivity].
  - rewrite IH.
    destruct (decide (value ∈ server)) as [Hin|Hnin].
    + rewrite decide_True by (right; assumption). reflexivity.
    + destruct (decide (value = v)) as [->|Hne].
      * rewrite decide_True by left. rewrite lookup_insert_eq. reflexivity.
      * rewrite decide_False by (intros Hin; inversion Hin; subst; contradiction).
        rewrite lookup_insert_ne by congruence. reflexivity.
Qed.

Lemma foldl_last_filter (P : string -> bool) (values : list string) (init : string) :
  foldl (fun protocol value => if P value then value else protocol) init values
  = default init (last (filter (fun value => P value = true) values)).
Proof.
  induction values as [|value values IH] using rev_ind; [reflexivity|].
  rewrite foldl_app, filter_app. cbn [foldl]. rewrite IH.
  destruct (P value) eqn:HP.
  - rewrite filter_cons_True by assumption. cbn [filter list_filter].
    rewrite last_snoc. reflexivity.
  - rewrite filter_cons_False by congruence. cbn [filter list_filter].
    rewrite app_nil_r. reflexivity.
Qed.

(** The loop over a map of the server's protocols picks the last piece of
    the split header that is in the server's list. *)
Lemma negotiate_last_match config0 offered :
  negotiate config0 offered
  = default "" (last_match (Protocols config0) (Split offered 10)).
Proof.
  unfold negotiate, last_match.
  destruct (Split offered 10) as [|piece pieces] eqn:E; [reflexivity|].
  cbn [length Nat.ltb Nat.leb].
  rewrite (foldl_last_filter
             (fun value => default false
                (foldl (fun m v => <[v := true]> m) ∅ (Protocols config0) !! value))).
  do 2 f_equal. apply list_filter_iff. intros value.
  rewrite sprotocols_lookup, lookup_empty. cbn.
  destruct (decide (value ∈ Protocols config0)); split; auto; discriminate.
Qed.

Lemma Handle_upgrade_spec accept response request config0 ckey protocol :
  status response = None ->
  let '(handled, ws, response') :=
    Handle_upgrade accept response request config0 ckey protocol in
  handled = true /\
  status response' = Some 101 /\
  response_header response' !! "Sec-WebSocket-Protocol"
  = response_header response !! "Sec-WebSocket-Protocol" /\
  forall sock, ws = Some sock -> Protocol sock = protocol.
Proof.
  intros Hstatus. cbv beta delta [Handle_upgrade WriteHeader Set_] zeta.
  cbn [hijack status response_header].
  rewrite Hstatus.
  assert (Hheader :
    (<["Sec-WebSocket-Accept" := accept (ckey ++ WEBSOCKET_UUID)]>
       (<["Upgrade" := "websocket"]>
          (<["Connection" := "Upgrade"]> (response_header response))))
      !! "Sec-WebSocket-Protocol"
    = response_header response !! "Sec-WebSocket-Protocol").
  { rewrite !lookup_insert_ne by discriminate. reflexivity. }
  destruct (hijack response) as [conn|]; cbn [status response_header];
    (split; [reflexivity|]); (split; [reflexivity|]); (split; [exact Hheader|]).
  - intros sock Hsock. injection Hsock as <-.
    destruct (OpenHandler _); reflexivity.
  - intros sock Hsock. discriminate.
Qed.

(** C8 (as the code has it).  For an upgrade request and a server with a
    non-empty list of protocols, Handle splits the client's
    [Sec-WebSocket-Protocol] header on [[, ]+] into at most 10 pieces, the
    tenth being the unsplit rest of the header, and negotiates the last
    piece that is in the server's list: it replies 101 with that protocol.
    When no piece (or only the empty piece) is in the list, it replies 400
    if [NeedProtocol] is set, and otherwise replies 101 without the
    [Sec-WebSocket-Protocol] header. *)
Theorem Handle_negotiates_last_piece (accept : string -> string)
        (response : ResponseWriter) (request : Request) (config0 : Config) :
  upgradable response request ->
  Protocols config0 <> [] ->
  status response = None ->
  response_header response !! "Sec-WebSocket-Protocol" = None ->
  let pieces := Split (Get (Header request) "Sec-WebSocket-Protocol") 10 in
  let chosen := default "" (last_match (Protocols config0) pieces) in
  exists ws response',
    Handle accept response request (Some config0) = Returns (true, ws, response') /\
    if negb (String.eqb chosen "") then
      status response' = Some 101 /\
      response_header response' !! "Sec-WebSocket-Protocol" = Some chosen /\
      forall sock, ws = Some sock -> Protocol sock = chosen
    else if NeedProtocol config0 then
      status response' = Some 400 /\ ws = None
    else
      status response' = Some 101 /\
      response_header response' !! "Sec-WebSocket-Protocol" = None.
Proof.
  intros Hup Hserver Hstatus Hfresh. cbn zeta.
  rewrite Handle_upgradable by assumption.
  destruct (Protocols config0) as [|p ps] eqn:Eps; [congruence|].
  cbn [length Nat.ltb Nat.leb]. cbn zeta.
  rewrite negotiate_last_match, Eps.
  set (chosen := default "" (last_match (p :: ps) _)).
  destruct (negb (String.eqb chosen "")) eqn:Hchosen.
  - pose proof (Handle_upgrade_spec accept
                  (Set_ "Sec-WebSocket-Protocol" chosen response) request config0
                  (Get (Header request) "Sec-WebSocket-Key") chosen Hstatus) as Hspec.
    destruct (Handle_upgrade _ _ _ _ _ _) as [[handled ws] response'].
    destruct Hspec as (-> & Hst & Hhd & Hsock).
    exists ws, response'. split; [reflexivity|].
    split; [assumption|]. split; [|assumption].
    rewrite Hhd. cbn. apply lookup_insert_eq.
  - destruct (NeedProtocol config0).
    + eexists _, _. split; [reflexivity|]. cbn. rewrite Hstatus. split; reflexivity.
    + pose proof (Handle_upgrade_spec accept response request config0
                    (Get (Header request) "Sec-WebSocket-Key") chosen Hstatus) as Hspec.
      destruct (Handle_upgrade _ _ _ _ _ _) as [[handled ws] response'].
      destruct Hspec as (-> & Hst & Hhd & Hsock).
      exists ws, response'. split; [reflexivity|].
      split; [assumption|]. congruence.
Qed.

(** ** The receive loop *)

Local Open Scope Z_scope.

(** A property of bytes that holds on the 256 of them. *)
Lemma byte_cases (P : Z -> bool) :
  forallb P (seqZ 0 256) = true -> forall b, byte_ok b -> P b = true.
Proof.
  intros Hall b Hb. rewrite forallb_forall in Hall. apply Hall.
  apply list_elem_of_In, elem_of_seqZ. unfold byte_ok in Hb. lia.
Qed.



Lemma byte_opcode b : Z.land b 15 = opcode_of b.
Proof. unfold opcode_of. change 15 with (Z.ones 4). apply Z.land_ones. lia. Qed.

Lemma byte_length_code b : Z.land b 127 = b `mod` 128.
Proof. change 127 with (Z.ones 7). apply Z.land_ones. lia. Qed.



Lemma header_decodes s config0 st :
  recv.size st < 0 -> 2 <= recv.woffset st - recv.roffset st ->
  header s config0 st =
  let second := byte_at (recv.buffer st) (recv.roffset st + 1) in
  let st := decoded st in
  if violation s st second then
    Exit Violation (recv.with_code WEBSOCKET_ERROR_PROTOCOL st)
  else if negb (client s)
          && (recv.woffset st - recv.roffset st <? 2 + smask_of s) then
    Break (recv.with_size (-1) st)
  else
    let st :=
      if (recv.opcode st =? WEBSOCKET_OPCODE_TEXT)
         || (recv.opcode st =? WEBSOCKET_OPCODE_BLOB)
      then recv.with_dmode (recv.opcode st) st else st in
    let st :=
      if negb (recv.dmode st =? 0) && (recv.fin st =? 1)
      then recv.with_dlast true st else st in
    match extended s st with
    | None => Break (recv.with_size (-1) st)
    | Some st =>
        if oversized config0 st then
          Exit Oversized (recv.with_code WEBSOCKET_ERROR_OVERSIZED st)
        else if negb (recv.dmode st =? 0) then
          Next (recv.with_dsize (wrap64 (recv.dsize st + recv.size st)) st)
        else Next st
    end.
Proof.
  intros Hsize Havail. unfold header.
  destruct (Z.ltb_spec (recv.size st) 0); [|lia].
  destruct (Z.geb_spec (recv.woffset st - recv.roffset st) 2); [|lia].
  reflexivity.
Qed.





(** The session leaves with what the frame loop left with, and [receive]
    hands the code to [Close]. *)
Lemma frame_loop_exit n utf8_Valid config0 s st why p :
  frame_round utf8_Valid config0 s st = Exit why p ->
  frame_loop (S n) utf8_Valid config0 s st = Some (Exit why p).
Proof. intros Hround. cbn [frame_loop]. rewrite Hround. reflexivity. Qed.

(** *** Lengths *)





(** *** The states of the loop *)









(** *** The header of an oversized frame *)

Lemma byte_at_drop (bytes : list Z) r i :
  0 <= r -> 0 <= i -> byte_at (drop (Z.to_nat r) bytes) i = byte_at bytes (r + i).
Proof.
  intros Hr Hi. unfold byte_at. rewrite lookup_drop. do 2 f_equal. lia.
Qed.

Lemma frame_bytes_first st :
  0 <= recv.roffset st ->
  byte_at (frame_bytes st) 0 = byte_at (recv.buffer st) (recv.roffset st) /\
  byte_at (frame_bytes st) 1 = byte_at (recv.buffer st) (recv.roffset st + 1).
Proof.
  intros Hr. unfold frame_bytes. rewrite !byte_at_drop by lia.
  rewrite Z.add_0_r. split; reflexivity.
Qed.







(** *** The runs of the session are among the reachable states *)

Lemma lands_Next {A : Type} (a : A) : lands (Next a) a.
Proof. left. reflexivity. Qed.

Lemma payload_reachable utf8_Valid config0 s st s' st' :
  reachable utf8_Valid config0 st ->
  lands (payload utf8_Valid config0 s st) (s', st') ->
  reachable utf8_Valid config0 st'.
Proof.
  intros Hreach H. unfold payload in H.
  destruct (recv.size st >=? 0); [| landed H; assumption].
  destruct (negb (recv.dmode st =? 0)).
  - destruct (absorb config0 st) as [st1|st1|why st1|] eqn:Ha.
    + eapply reach_complete; [|eassumption].
      eapply reach_absorb; [eassumption|]. rewrite Ha. apply lands_Next.
    + landed H. eapply reach_absorb; [eassumption|]. rewrite Ha. right. left. reflexivity.
    + landed H. eapply reach_absorb; [eassumption|]. rewrite Ha. right. right.
      eexists. reflexivity.
    + destruct H as [H | [H | [? H]]]; discriminate H.
  - eapply reach_control; eassumption.
Qed.

Lemma frame_round_reachable utf8_Valid config0 s st s' st' :
  reachable utf8_Valid config0 st ->
  lands (frame_round utf8_Valid config0 s st) (s', st') ->
  reachable utf8_Valid config0 st'.
Proof.
  intros Hreach H. unfold frame_round in H.
  destruct (header s config0 st) as [st1|st1|why st1|] eqn:Hh.
  - assert (H1 : reachable utf8_Valid config0 st1).
    { eapply reach_header; [eassumption|]. rewrite Hh. apply lands_Next. }
    destruct (payload utf8_Valid config0 s st1) as [[s2 st2]|[s2 st2]|why [s2 st2]|] eqn:Hp.
    + assert (H2 : reachable utf8_Valid config0 st2).
      { eapply payload_reachable; [exact H1|]. rewrite Hp. apply lands_Next. }
      destruct (rewind st2) as [st3|st3|why st3|] eqn:Hr;
        try (destruct H as [H | [H | [? H]]]; discriminate H);
        landed H; eapply reach_rewind; try exact H2; rewrite Hr.
      * apply lands_Next.
      * right. left. reflexivity.
      * right. right. eexists. reflexivity.
    + landed H. eapply payload_reachable; [exact H1|]. rewrite Hp. right. left. reflexivity.
    + landed H. eapply payload_reachable; [exact H1|]. rewrite Hp. right. right.
      eexists. reflexivity.
    + destruct H as [H | [H | [? H]]]; discriminate H.
  - landed H. eapply reach_header; [eassumption|]. rewrite Hh. right. left. reflexivity.
  - landed H. eapply reach_header; [eassumption|]. rewrite Hh. right. right.
    eexists. reflexivity.
  - destruct H as [H | [H | [? H]]]; discriminate H.
Qed.

Lemma frame_loop_reachable utf8_Valid config0 (n : nat) :
  forall s st f s' st',
    reachable utf8_Valid config0 st ->
    frame_loop n utf8_Valid config0 s st = Some f -> lands f (s', st') ->
    reachable utf8_Valid config0 st'.
Proof.
  induction n as [|n IH]; intros s st f s' st' Hreach Hloop Hland; [discriminate|].
  cbn [frame_loop] in Hloop.
  destruct (frame_round utf8_Valid config0 s st) as [[s1 st1]|q|why q|] eqn:Hround.
  - eapply IH; [|eassumption|eassumption].
    eapply frame_round_reachable; [eassumption|]. rewrite Hround. apply lands_Next.
  - injection Hloop as <-. eapply frame_round_reachable; [eassumption|].
    rewrite Hround. exact Hland.
  - injection Hloop as <-. eapply frame_round_reachable; [eassumption|].
    rewrite Hround. exact Hland.
  - injection Hloop as <-. destruct Hland as [H | [H | [? H]]]; discriminate H.
Qed.

Lemma after_read_state config0 rd got s st s' st' :
  lands (after_read config0 rd got s st) (s', st') -> st' = st.
Proof.
  unfold after_read, rmask. intros H.
  destruct (read_err rd).
  - destruct (got =? 0); [landed H; reflexivity|].
    destruct (_ >=? _); landed H; reflexivity.
  - destruct (client s); cbv beta iota zeta in H;
      destruct (send _ _) as [s2 err]; destruct err;
      try (landed H; reflexivity);
      destruct (_ >=? _); landed H; reflexivity.
  - landed H. reflexivity.
Qed.

Lemma session_round_reachable utf8_Valid config0 s st rd f s' st' :
  reachable utf8_Valid config0 st ->
  session_round utf8_Valid config0 s st rd = Some f -> lands f (s', st') ->
  reachable utf8_Valid config0 st'.
Proof.
  intros Hreach Hround Hland. unfold session_round in Hround. cbv zeta in Hround.
  match type of Hround with
  | context [recv.with_buffer ?b (compact st)] =>
      assert (H1 : reachable utf8_Valid config0 (recv.with_buffer b (compact st)))
        by (apply reach_buffer, reach_compact; assumption);
      set (st1 := recv.with_buffer b (compact st)) in *
  end.
  destruct (len _ >? 0).
  - match type of Hround with
    | context [frame_loop _ _ _ s ?x] =>
        assert (H2 : reachable utf8_Valid config0 x)
          by (apply reach_woffset, reach_seen; assumption);
        destruct (frame_loop _ utf8_Valid config0 s x) as [g|] eqn:Hloop;
          [|discriminate]
    end.
    destruct g as [[s2 st2]|[s2 st2]|why [s2 st2]|].
    + injection Hround as <-. apply after_read_state in Hland. subst st'.
      eapply frame_loop_reachable; [exact H2|exact Hloop|apply lands_Next].
    + injection Hround as <-. apply after_read_state in Hland. subst st'.
      eapply frame_loop_reachable; [exact H2|exact Hloop|]. right. left. reflexivity.
    + injection Hround as <-. landed Hland.
      eapply frame_loop_reachable; [exact H2|exact Hloop|]. right. right.
      eexists. reflexivity.
    + injection Hround as <-. destruct Hland as [H | [H | [? H]]]; discriminate H.
  - injection Hround as <-. apply after_read_state in Hland. subst st'. exact H1.
Qed.

Lemma session_reachable utf8_Valid config0 (reads : list read) :
  forall s st f s' st',
    reachable utf8_Valid config0 st ->
    session utf8_Valid config0 reads s st = Some f -> lands f (s', st') ->
    reachable utf8_Valid config0 st'.
Proof.
  induction reads as [|rd reads IH]; intros s st f s' st' Hreach Hrun Hland.
  - cbn in Hrun. injection Hrun as <-. landed Hland. assumption.
  - cbn [session] in Hrun.
    destruct (session_round utf8_Valid config0 s st rd) as [g|] eqn:Hround;
      [|discriminate].
    destruct g as [[s1 st1]|q|why q|].
    + eapply IH; [|eassumption|eassumption].
      eapply session_round_reachable; [eassumption|eassumption|apply lands_Next].
    + injection Hrun as <-. eapply session_round_reachable; eassumption.
    + injection Hrun as <-. eapply session_round_reachable; eassumption.
    + injection Hrun as <-. destruct Hland as [H | [H | [? H]]]; discriminate H.
Qed.


(** ** Instances *)

Local Close Scope string_scope.

Lemma example_bytes_ok : Forall byte_ok example_bytes.
Proof. repeat constructor; unfold byte_ok; lia. Defined.

Lemma xor_refines_bytewise_witness :
  xor [1; 2; 3; 4] example_bytes = xor_bytewise [1; 2; 3; 4] example_bytes.
Proof.
  apply xor_refines_bytewise;
    [reflexivity | repeat constructor; unfold byte_ok; lia | exact example_bytes_ok].
Defined.

(** Two callers of [Close], interleaved. *)
Lemma Close_happens_once_witness :
  exists code, code ∈ [1000; 1001] /\
    let s' := shared (run [1; 0; 1; 0; 1; 1; 1; 1]%nat
                          (callers example_client [1000; 1001])) in
    let payload := fst (Close_payload example_client code) in
    frame_opcode payload = WEBSOCKET_OPCODE_CLOSE /\
    closing s' = true /\ connected s' = false /\
    log s' = log example_client ++ [Closing]
                   ++ (if has_CloseHandler example_client then [OnClose code] else [])
                   ++ [if write_fails example_client
                       then WriteFailed payload else Written payload]
                   ++ [Disconnected; StreamClosed].
Proof.
  apply (Close_happens_once example_client [1000; 1001] [1; 0; 1; 0; 1; 1; 1; 1]%nat);
    [reflexivity | reflexivity | discriminate | vm_compute; repeat constructor].
Defined.

(** C2, as stated, fails on a socket without CloseHandler whose stream
    is broken: one call of [Close] returns, no handler was invoked and no
    CLOSE frame reached the wire. *)
Lemma Close_without_handler_counterexample :
  let s := mkSocket "/" "" "" "peer:80" "" (Some Config_zero) true false false
                    [true] [] [] in
  let w := run [0; 0; 0; 0; 0; 0]%nat (callers s [1000]) in
  finished w /\ OnClose_count (log (shared w)) = 0%nat /\ wire (shared w) = [].
Proof. vm_compute. repeat split; repeat constructor. Qed.



(** The second send fails on this client: the data is as before. *)
Lemma Write_leaves_data_witness :
  exists s' err,
    Write small_client WEBSOCKET_OPCODE_BLOB example_bytes
    = Returns (s', example_bytes, err).
Proof.
  apply (Write_leaves_data small_client small_config WEBSOCKET_OPCODE_BLOB example_bytes);
    [reflexivity | reflexivity | right; reflexivity | discriminate
    | exact example_bytes_ok].
Defined.

Lemma example_upgradable offered : upgradable example_writer (example_request offered).
Proof. repeat split; try reflexivity. discriminate. Defined.

Lemma Handle_negotiates_last_piece_witness :
  let request := example_request "k, chat, mqtt" in
  let pieces := Split (Get (Header request) "Sec-WebSocket-Protocol") 10 in
  let chosen := default EmptyString (last_match (Protocols example_config) pieces) in
  exists ws response',
    Handle (fun key => key) example_writer request (Some example_config)
    = Returns (true, ws, response') /\
    if negb (String.eqb chosen "") then
      status response' = Some 101 /\
      response_header response' !! "Sec-WebSocket-Protocol"%string = Some chosen /\
      forall sock, ws = Some sock -> Protocol sock = chosen
    else if NeedProtocol example_config then
      status response' = Some 400 /\ ws = None
    else
      status response' = Some 101 /\
      response_header response' !! "Sec-WebSocket-Protocol"%string = None.
Proof.
  apply (Handle_negotiates_last_piece (fun key => key) example_writer
           (example_request "k, chat, mqtt") example_config);
    [apply example_upgradable | discriminate | reflexivity | reflexivity].
Defined.

(** C8, as stated, fails on an offer of eleven protocols: the last
    offered value, "k", is in the server's list, but it is part of the
    tenth piece "j,k" of the split, and no protocol is negotiated. *)
Lemma Handle_eleven_offers_counterexample :
  let offered := "a,b,c,d,e,f,g,h,i,j,k"%string in
  last_match (Protocols example_config) (offered_values offered) = Some "k"%string /\
  Split offered 10 = ["a"; "b"; "c"; "d"; "e"; "f"; "g"; "h"; "i"; "j,k"]%string /\
  match Handle (fun key => key) example_writer (example_request offered)
               (Some example_config) with
  | Returns (true, Some ws, response') =>
      status response' = Some 101 /\ Protocol ws = EmptyString /\
      response_header response' !! "Sec-WebSocket-Protocol"%string = None
  | _ => False
  end.
Proof. vm_compute. repeat split; reflexivity. Qed.

Lemma Handle_nil_config_panics_witness :
  Handle (fun key => key) example_writer (example_request "chat") None = Panics.
Proof.
  apply Handle_nil_config_panics; try reflexivity. discriminate.
Defined.




(** A PING frame that declares 2^63 bytes: the length wraps to a negative
    [int] and passes the test of line 529. *)
Example huge_control_frame_passes :
  let st := example_state [137; 127; 128; 0; 0; 0; 0; 0; 0; 0] in
  declared_length (frame_bytes st) = 2^63 /\
  exists st', header example_client example_config st = Next st' /\
              recv.size st' = - 2^63.
Proof. split; [reflexivity|]. eexists. split; reflexivity. Qed.

(** The scenarios of section 8 that the model runs: the fragmented
    message of scenario 2 on the wire, and its delivery by a server. *)
Example fragmented_binary_on_the_wire :
  let s := mkSocket "/" "" "" "peer:80" ""
                    (Some (mkConfig [] false 4096 8 4096 0 0 0 0 0 0 true true true))
                    true true false [] [1; 2; 3; 4; 5; 6; 7; 8; 9; 10; 11; 12] [] in
  match Write s WEBSOCKET_OPCODE_BLOB (seqZ 0 20) with
  | Returns (s', data, err) =>
      data = seqZ 0 20 /\ err = false /\
      (fun payload => (frame_first payload, byte_at (default [] (payload !! 0%nat)) 1))
        <$> wire s' = [(2, 136); (0, 136); (128, 132)]
  | Panics => False
  end.
Proof. vm_compute. repeat split; reflexivity. Qed.

(* ===================================================================== *)
(** * Further properties of the code *)
(* ===================================================================== *)

(** ** The masking primitive *)

(** X1. Masking is its own inverse: applying [xor] twice with the same
    key (of four bytes or more; the first four are used) gives the span
    back, whatever the length of the span. *)
Theorem xor_twice_restores (key span : list Z) :
  (4 <= length key)%nat -> Forall byte_ok key -> Forall byte_ok span ->
  xor key (xor key span) = span.
Proof. intros _ Hk Hs. apply xor_involutive; assumption. Qed.

Lemma xor_twice_restores_witness :
  xor [1; 2; 3; 4] (xor [1; 2; 3; 4] example_bytes) = example_bytes.
Proof.
  apply xor_twice_restores;
    [cbn; lia | repeat constructor; unfold byte_ok; lia | exact example_bytes_ok].
Defined.

(** ** cval and the clamped configurations *)

(** X2. With [min <= max], [cval] returns a value of [[min, max]]; a value
    that is not zero and lies in the range is returned as it is, and zero
    gives the fallback, clamped. *)
Theorem cval_clamps (value fallback min max : Z) :
  min <= max ->
  min <= cval value fallback min max <= max /\
  (value <> 0 -> min <= value <= max -> cval value fallback min max = value) /\
  (value = 0 -> cval value fallback min max = Z.min max (Z.max min fallback)).
Proof.
  intros Hmm. split; [apply cval_range; assumption|]. split.
  - apply cval_fixed.
  - intros ->. rewrite cval_table by assumption. reflexivity.
Qed.

Lemma cval_clamps_witness :
  4096 <= cval 0 16384 4096 1048576 <= 1048576 /\
  (0 <> 0 -> 4096 <= 0 <= 1048576 -> cval 0 16384 4096 1048576 = 0) /\
  (0 = 0 -> cval 0 16384 4096 1048576 = Z.min 1048576 (Z.max 4096 16384)).
Proof. apply cval_clamps. lia. Defined.

(** X3. After the clamping of Dial every option lies in its range: the
    sizes between their bounds, the three timeouts in [1 s, 30 s], the
    inactivity timeout between the probe timeout plus 1 s and five times
    the probe timeout, and each buffer size zero or in [4 KiB, 32 MiB]. *)
Theorem Dial_clamp_ranges (config : Config) :
  let c := Dial_clamp config in
  4096 <= ReadSize c <= 262144 /\
  4096 <= FragmentSize c <= 1048576 /\
  4096 <= MessageSize c <= 67108864 /\
  1 * Second <= ConnectTimeout c <= 30 * Second /\
  1 * Second <= ProbeTimeout c <= 30 * Second /\
  ProbeTimeout c + Second <= InactiveTimeout c <= 5 * ProbeTimeout c /\
  1 * Second <= WriteTimeout c <= 30 * Second /\
  (WriteBufferSize c = 0 \/ 4096 <= WriteBufferSize c <= 33554432) /\
  (ReadBufferSize c = 0 \/ 4096 <= ReadBufferSize c <= 33554432).
Proof.
  cbn zeta. rewrite Dial_clamp_table. cbn zeta.
  unfold table_clamp. cbn [ReadSize FragmentSize MessageSize ConnectTimeout
    ProbeTimeout InactiveTimeout WriteTimeout WriteBufferSize ReadBufferSize].
  unfold table_rule, Second.
  repeat split; compare_all; lia.
Qed.

(** X4. After the clamping of Handle every option that Handle clamps lies
    in its range; [ConnectTimeout] is the caller's. *)
Theorem Handle_clamp_ranges (config : Config) :
  let c := Handle_clamp config in
  4096 <= ReadSize c <= 262144 /\
  4096 <= FragmentSize c <= 1048576 /\
  4096 <= MessageSize c <= 67108864 /\
  ConnectTimeout c = ConnectTimeout config /\
  1 * Second <= ProbeTimeout c <= 30 * Second /\
  ProbeTimeout c + Second <= InactiveTimeout c <= 5 * ProbeTimeout c /\
  1 * Second <= WriteTimeout c <= 30 * Second /\
  (WriteBufferSize c = 0 \/ 4096 <= WriteBufferSize c <= 33554432) /\
  (ReadBufferSize c = 0 \/ 4096 <= ReadBufferSize c <= 33554432).
Proof.
  cbn zeta. rewrite Handle_clamp_table. cbn zeta.
  unfold table_clamp. cbn [ReadSize FragmentSize MessageSize ConnectTimeout
    ProbeTimeout InactiveTimeout WriteTimeout WriteBufferSize ReadBufferSize].
  unfold table_rule, Second.
  repeat split; compare_all; lia.
Qed.

(** X5. The clamping of Handle is idempotent: a configuration shared by
    the sockets of a server is the same after every upgrade. *)
Theorem Handle_clamp_idempotent (config : Config) :
  Handle_clamp (Handle_clamp config) = Handle_clamp config.
Proof.
  unfold Handle_clamp. cbn zeta. cbn [Protocols NeedProtocol ReadSize
    FragmentSize MessageSize ConnectTimeout ProbeTimeout InactiveTimeout WriteTimeout
    WriteBufferSize ReadBufferSize OpenHandler MessageHandler CloseHandler].
  change (Z.shiftl 4 10) with 4096. change (Z.shiftl 256 10) with 262144.
  change (Z.shiftl 16 10) with 16384. change (Z.shiftl 1 20) with 1048576.
  change (Z.shiftl 4 20) with 4194304. change (Z.shiftl 64 20) with 67108864.
  change (Z.shiftl 32 20) with 33554432.
  pose proof (probe_range (ProbeTimeout config) (10 * Second)) as Hp.
  set (probe := cval (ProbeTimeout config) (10 * Second) (1 * Second) (30 * Second)) in *.
  assert (Hprobe : cval probe (10 * Second) (1 * Second) (30 * Second) = probe).
  { apply cval_fixed; unfold Second in *; lia. }
  rewrite !Hprobe.
  f_equal; try (apply cval_idempotent; unfold Second; lia).
  - apply cval_idempotent; rewrite !wrap64_small; unfold Second in *; lia.
  - destruct (Z.eqb_spec (WriteBufferSize config) 0) as [->|Hnz]; [reflexivity|].
    cbn [negb].
    pose proof (cval_range (WriteBufferSize config) 4096 4096 33554432 ltac:(lia)).
    destruct (Z.eqb_spec (cval (WriteBufferSize config) 4096 4096 33554432) 0);
      [lia|]. cbn [negb]. apply cval_idempotent; lia.
  - destruct (Z.eqb_spec (ReadBufferSize config) 0) as [->|Hnz]; [reflexivity|].
    cbn [negb].
    pose proof (cval_range (ReadBufferSize config) 4096 4096 33554432 ltac:(lia)).
    destruct (Z.eqb_spec (cval (ReadBufferSize config) 4096 4096 33554432) 0);
      [lia|]. cbn [negb]. apply cval_idempotent; lia.
Qed.

(** ** Close, send and Write, one call after the other *)

(** X6. A second call of [Close] changes nothing, whatever the socket and
    the codes; and a socket that was not closing is not connected after
    [Close]. *)
Theorem Close_idempotent (s : Socket) (code code' : Z) :
  Close (Close s code) code' = Close s code /\
  (closing s = false -> IsConnected (Close s code) = false).
Proof.
  destruct (negb (closing s) && connected s) eqn:Hgate.
  - apply andb_true_iff in Hgate as [Hg Hc]. apply negb_true_iff in Hg.
    rewrite (Close_open s code Hc Hg).
    destruct (Close_effect_spec s code Hc Hg) as (Hg' & Hc' & _).
    split; [|intros _; exact Hc'].
    apply Close_shut. rewrite Hg'. reflexivity.
  - rewrite (Close_shut s code Hgate). split; [apply Close_shut; assumption|].
    intros Hg. rewrite Hg in Hgate. cbn in Hgate. exact Hgate.
Qed.

Lemma Close_idempotent_witness :
  Close (Close example_client 1000) 1001 = Close example_client 1000 /\
  (closing example_client = false -> IsConnected (Close example_client 1000) = false).
Proof. apply Close_idempotent. Defined.

(** What [send] leaves of a socket that was not closing: a socket that is
    still not closing when the payload was written, and a socket that is
    not connected when it was not. *)
Lemma send_outcome s payload :
  closing s = false ->
  (snd (send s payload) = false -> closing (fst (send s payload)) = false) /\
  (snd (send s payload) = true -> connected (fst (send s payload)) = false).
Proof.
  intros Hg. unfold send.
  destruct (connected s) eqn:Hc; cbn [negb]; [|split; [discriminate|intros _; exact Hc]].
  pose proof (WriteTo_flags s payload) as (Hc1 & Hg1 & _).
  destruct (WriteTo s payload) as [s1 err]. cbn [fst] in Hc1, Hg1.
  destruct err; cbn [fst snd]; (split; [|]); try discriminate.
  - intros _. rewrite Close_open by congruence.
    apply Close_effect_spec; congruence.
  - intros _. congruence.
Qed.

(** X7. A write that fails closes the socket on the spot: [send] on a
    connected socket that is not closing, whose write fails, returns an
    error and has run [Close(0)]: the CloseHandler is invoked with code 0
    if one is set, a CLOSE frame is tried, and the socket is neither
    connected nor open for a later [Close]. *)
Theorem send_failure_closes (s : Socket) (payload : list (list Z)) :
  connected s = true -> closing s = false -> write_fails s = true ->
  let s1 := fst (WriteTo s payload) in
  let close_frame := fst (Close_payload s1 0) in
  send s payload = (Close s1 0, true) /\
  connected (Close s1 0) = false /\ closing (Close s1 0) = true /\
  log (Close s1 0)
  = log s ++ [WriteFailed payload; Closing]
          ++ (if has_CloseHandler s then [OnClose 0] else [])
          ++ [if write_fails s1 then WriteFailed close_frame else Written close_frame]
          ++ [Disconnected; StreamClosed].
Proof.
  intros Hc Hg Hf. cbn zeta. unfold send. rewrite Hc. cbn [negb].
  pose proof (WriteTo_flags s payload) as (Hc1 & Hg1 & _ & Hcfg).
  assert (Hw : WriteTo s payload
               = (record (WriteFailed payload) (set_faults (tail (faults s)) s), true)).
  { unfold WriteTo, write_fails in *. destruct (faults s) as [|[] rest];
      try discriminate. reflexivity. }
  rewrite Hw in *. cbn [fst] in *.
  set (s1 := record (WriteFailed payload) (set_faults (tail (faults s)) s)) in *.
  split; [reflexivity|].
  rewrite Close_open by congruence.
  destruct (Close_effect_spec s1 0 ltac:(congruence) ltac:(congruence))
    as (Hg2 & Hc2 & Hlog).
  split; [assumption|]. split; [assumption|].
  rewrite Hlog. unfold has_CloseHandler. rewrite Hcfg.
  subst s1. cbn [log record set_faults]. rewrite <- !app_assoc. reflexivity.
Qed.

Lemma send_failure_closes_witness :
  let s := mkSocket "/" "" "" "peer:80" "" (Some small_config) true false false
                    [true] [] [] in
  let payload := [[129; 1]; [104]] in
  let s1 := fst (WriteTo s payload) in
  let close_frame := fst (Close_payload s1 0) in
  send s payload = (Close s1 0, true) /\
  connected (Close s1 0) = false /\ closing (Close s1 0) = true /\
  log (Close s1 0)
  = log s ++ [WriteFailed payload; Closing]
          ++ (if has_CloseHandler s then [OnClose 0] else [])
          ++ [if write_fails s1 then WriteFailed close_frame else Written close_frame]
          ++ [Disconnected; StreamClosed].
Proof. apply send_failure_closes; reflexivity. Defined.

Lemma Write_round_outcome fragment length0 frames frame mode s (span : list Z) :
  closing s = false ->
  let '(s', _, _, err) := Write_round fragment length0 frames frame mode s span in
  (err = false -> closing s' = false) /\ (err = true -> connected s' = false).
Proof.
  intros Hg. unfold Write_round.
  destruct (frame =? frames);
    match goal with
    | |- context [if ?sz <? 126 then _ else _] =>
        destruct (sz <? 126); [| destruct (sz <? 65536)]
    end;
    (destruct (client s);
     [ pose proof (rmask_flags s) as (_ & Hg1 & _);
       destruct (rmask s) as [key s1]; cbn [snd] in Hg1
     | ]);
    match goal with
    | |- context [send ?s0 ?payload] =>
        pose proof (send_outcome s0 payload ltac:(congruence)) as Hsend;
        destruct (send s0 payload) as [s2 err]
    end; exact Hsend.
Qed.

Lemma Write_loop_outcome fragment length0 frames (n : nat) :
  forall frame mode s (span : list Z),
    closing s = false ->
    let '(s', _, err) := Write_loop n fragment length0 frames frame mode s span in
    err = true -> connected s' = false.
Proof.
  induction n as [|n IH]; intros frame mode s span Hg; [discriminate|].
  cbn [Write_loop]. destruct (frame <=? frames); [|discriminate].
  pose proof (Write_round_outcome fragment length0 frames frame mode s span Hg) as Hround.
  destruct (Write_round fragment length0 frames frame mode s span)
    as [[[s1 span1] mode1] err1].
  destruct Hround as [Hok Hbad]. destruct err1.
  - intros _. apply Hbad. reflexivity.
  - apply IH. apply Hok. reflexivity.
Qed.

(** X8. When [Write] returns an error on a socket that was not closing,
    the socket is not connected any more: either it was not connected, or
    the failed send has closed it. *)
Theorem Write_error_disconnects (s s' : Socket) (mode : Z) (data data' : list Z) :
  closing s = false ->
  Write s mode data = Returns (s', data', true) ->
  IsConnected s' = false.
Proof.
  intros Hg. unfold Write.
  destruct (((mode =? WEBSOCKET_OPCODE_TEXT) || (mode =? WEBSOCKET_OPCODE_BLOB))
            && (len data >? 0)); [|discriminate].
  destruct (config s) as [config0|]; [|discriminate].
  destruct (FragmentSize config0 =? 0); [discriminate|].
  match goal with
  | |- Returns (Write_loop ?n ?f ?l ?fr ?k ?m ?s0 ?d) = _ -> _ =>
      pose proof (Write_loop_outcome f l fr n k m s0 d Hg) as Hloop;
      destruct (Write_loop n f l fr k m s0 d) as [[s1 d1] err1]
  end.
  intros Heq. injection Heq as -> -> ->. apply Hloop. reflexivity.
Qed.

Lemma Write_error_disconnects_witness :
  IsConnected
    (match Write small_client WEBSOCKET_OPCODE_BLOB example_bytes with
     | Returns (s', _, _) => s'
     | Panics => small_client
     end) = false.
Proof.
  apply (Write_error_disconnects small_client _ WEBSOCKET_OPCODE_BLOB
           example_bytes example_bytes); [reflexivity | vm_compute; reflexivity].
Defined.

(** X9. [Write] never panics on a socket made by Dial or by Handle: the
    clamping keeps [FragmentSize] at 4 KiB or more, so the division of
    line 358 is defined. *)
Theorem Write_returns_after_clamp (s : Socket) (c : Config) (mode : Z) (data : list Z) :
  config s = Some (Dial_clamp c) \/ config s = Some (Handle_clamp c) ->
  exists result, Write s mode data = Returns result.
Proof.
  intros Hcfg. unfold Write.
  destruct (((mode =? WEBSOCKET_OPCODE_TEXT) || (mode =? WEBSOCKET_OPCODE_BLOB))
            && (len data >? 0)); [|eexists; reflexivity].
  assert (Hfragment : forall value, 4096 <= cval value (Z.shiftl 16 10) (Z.shiftl 4 10)
                                                 (Z.shiftl 1 20)).
  { intros value.
    pose proof (cval_range value (Z.shiftl 16 10) (Z.shiftl 4 10) (Z.shiftl 1 20)) as Hr.
    change (Z.shiftl 4 10) with 4096 in Hr. change (Z.shiftl 1 20) with 1048576 in Hr.
    change (Z.shiftl 4 10) with 4096. change (Z.shiftl 1 20) with 1048576. lia. }
  destruct Hcfg as [-> | ->]; cbn [Dial_clamp Handle_clamp FragmentSize];
    match goal with
    | |- context [cval ?value _ _ _ =? 0] =>
        specialize (Hfragment value);
        destruct (Z.eqb_spec (cval value (Z.shiftl 16 10) (Z.shiftl 4 10) (Z.shiftl 1 20)) 0);
        [lia|]
    end;
    eexists; reflexivity.
Qed.

Lemma Write_returns_after_clamp_witness :
  exists result, Write example_client WEBSOCKET_OPCODE_TEXT example_bytes = Returns result.
Proof.
  apply (Write_returns_after_clamp example_client
           (mkConfig ["chat"%string; "k"%string] false 0 0 0 0 0 0 0 0 0 true true true)).
  left. reflexivity.
Defined.

(** ** Write on a socket that is not connected *)

Lemma Write_round_refused fragment length0 frames frame mode s (span : list Z) :
  connected s = false ->
  let '(s', _, _, err) := Write_round fragment length0 frames frame mode s span in
  err = true /\ log s' = log s /\ wire s' = wire s /\
  connected s' = false /\ closing s' = closing s.
Proof.
  intros Hc. unfold Write_round.
  destruct (frame =? frames);
    match goal with
    | |- context [if ?sz <? 126 then _ else _] =>
        destruct (sz <? 126); [| destruct (sz <? 65536)]
    end;
    (destruct (client s);
     [ destruct (rmask s) as [key s1] eqn:Hrmask;
       assert (Hs1 : connected s1 = false /\ log s1 = log s /\ closing s1 = closing s)
         by (unfold rmask in Hrmask; injection Hrmask as _ <-; repeat split; assumption);
       destruct Hs1 as (Hc1 & Hl1 & Hg1);
       unfold send, wire; rewrite Hc1; cbn [negb]; rewrite Hl1; repeat split; assumption
     | unfold send; rewrite Hc; cbn [negb]; repeat split; assumption ]).
Qed.

(** X10. [Write] on a socket that is not connected: the call returns an
    error at its first frame; nothing is handed to the stream, no handler
    runs, the flags of the socket stay, and the caller's data are as they
    were. *)
Theorem Write_refused (s : Socket) (config0 : Config) (mode : Z) (data : list Z) :
  config s = Some config0 -> 0 < FragmentSize config0 -> connected s = false ->
  mode = WEBSOCKET_OPCODE_TEXT \/ mode = WEBSOCKET_OPCODE_BLOB ->
  data <> [] -> Forall byte_ok data ->
  exists s',
    Write s mode data = Returns (s', data, true) /\
    log s' = log s /\ wire s' = wire s /\
    IsConnected s' = false /\ closing s' = closing s.
Proof.
  intros Hcfg Hf Hc Hmode Hne Hd.
  assert (Hlen : 0 < len data).
  { unfold len. destruct data; [congruence|]. cbn [length]. lia. }
  pose proof (frames_of_bounds _ _ Hlen Hf) as Hb.
  assert (Hpos : 1 <= frames_of (len data) (FragmentSize config0)) by nia.
  destruct (round_bounds (FragmentSize config0)
              (frames_of (len data) (FragmentSize config0)) 1 data Hf ltac:(lia) Hb)
    as (Ho & Hs & Hh).
  pose proof (Write_round_data (FragmentSize config0)
                (frames_of (len data) (FragmentSize config0)) 1 mode s data
                ltac:(lia) ltac:(lia) Hh Hd) as Hdata.
  pose proof (Write_round_refused (FragmentSize config0) (len data)
                (frames_of (len data) (FragmentSize config0)) 1 mode s data Hc) as Hround.
  unfold Write. rewrite Hcfg.
  replace ((mode =? WEBSOCKET_OPCODE_TEXT) || (mode =? WEBSOCKET_OPCODE_BLOB)) with true
    by (destruct Hmode as [-> | ->]; reflexivity).
  destruct (Z.gtb_spec (len data) 0); [|lia]. cbn [andb].
  destruct (Z.eqb_spec (FragmentSize config0) 0); [lia|].
  fold (frames_of (len data) (FragmentSize config0)).
  destruct (Z.to_nat (frames_of (len data) (FragmentSize config0))) as [|rounds] eqn:Hrounds; [lia|].
  cbn [Write_loop].
  destruct (Z.leb_spec 1 (frames_of (len data) (FragmentSize config0))); [|lia].
  destruct (Write_round _ _ _ _ _ _ _) as [[[s1 data1] mode1] err1].
  cbn [fst snd] in Hdata. subst data1.
  destruct Hround as (-> & Hlog & Hwire & Hconn & Hclosing).
  exists s1. repeat split; assumption.
Qed.

Lemma Write_refused_witness :
  let s := mkSocket "/" "" "" "peer:80" "" (Some small_config) false true false
                    [] [1; 2; 3; 4] [] in
  exists s',
    Write s WEBSOCKET_OPCODE_TEXT example_bytes = Returns (s', example_bytes, true) /\
    log s' = log s /\ wire s' = wire s /\
    IsConnected s' = false /\ closing s' = closing s.
Proof.
  apply (Write_refused _ small_config).
  - reflexivity.
  - reflexivity.
  - reflexivity.
  - left. reflexivity.
  - discriminate.
  - exact example_bytes_ok.
Defined.

Local Open Scope string_scope.

(** ** Handle: what it replies and the socket it makes *)

Lemma negotiate_member config0 offered :
  negotiate config0 offered = "" \/ negotiate config0 offered ∈ Protocols config0.
Proof.
  rewrite negotiate_last_match. unfold last_match.
  destruct (last (filter (fun value => value ∈ Protocols config0) (Split offered 10)))
    as [value|] eqn:Hlast; [right | left; reflexivity].
  cbn [default]. apply last_Some_elem_of in Hlast.
  apply list_elem_of_filter in Hlast as [Hin _]. exact Hin.
Qed.

Lemma Handle_upgrade_socket accept response request config0 ckey protocol :
  status response = None ->
  match Handle_upgrade accept response request config0 ckey protocol with
  | (handled, ws, response') =>
      handled = true /\ status response' = Some 101 /\
      response_header response' !! "Connection" = Some "Upgrade" /\
      response_header response' !! "Upgrade" = Some "websocket" /\
      response_header response' !! "Sec-WebSocket-Accept"
      = Some (accept (ckey ++ WEBSOCKET_UUID)) /\
      response_header response' !! "Sec-WebSocket-Protocol"
      = response_header response !! "Sec-WebSocket-Protocol" /\
      match ws with
      | Some ws =>
          IsConnected ws = true /\ IsClient ws = false /\ closing ws = false /\
          config ws = Some (Handle_clamp config0) /\
          Path ws = URLPath request /\ Protocol ws = protocol /\
          Agent ws = Get (Header request) "User-Agent" /\
          Origin ws = (if String.eqb (ToLower (Get (Header request) "Origin")) "null"
                       then "" else Get (Header request) "Origin") /\
          log ws = (if OpenHandler (Handle_clamp config0) then [OnOpen] else [])
      | None => hijack response = None
      end
  end.
Proof.
  intros Hstatus. cbv beta delta [Handle_upgrade WriteHeader Set_] zeta.
  cbn [hijack status response_header]. rewrite Hstatus.
  destruct (hijack response) as [conn|]; cbn [status response_header];
    (split; [reflexivity|]); (split; [reflexivity|]);
    (split; [rewrite lookup_insert_ne by discriminate;
             rewrite lookup_insert_ne by discriminate;
             apply lookup_insert_eq|]);
    (split; [rewrite lookup_insert_ne by discriminate; apply lookup_insert_eq|]);
    (split; [apply lookup_insert_eq|]);
    (split; [rewrite !lookup_insert_ne by discriminate; reflexivity|]);
    [|reflexivity].
  destruct (OpenHandler (Handle_clamp config0)); repeat split.
Qed.

(** X11. The socket of an accepted upgrade.  When [Handle] returns a socket,
    on a writer that had no status yet, the request was handled and
    answered with 101 and the three handshake headers, the accept value
    being computed from the key of the request; the socket is connected,
    of the server role and not closing, carries the clamped configuration,
    the path and the user agent of the request and its origin, but for an
    origin "null" (in any case), which is dropped; its protocol is empty or
    one of the configured protocols, announced in the reply; and the
    OpenHandler, if any, has been invoked once. *)
Theorem Handle_socket (accept : string -> string) (response : ResponseWriter)
        (request : Request) (server : option Config) :
  status response = None ->
  match Handle accept response request server with
  | Returns (handled, Some ws, response') =>
      handled = true /\ status response' = Some 101 /\
      response_header response' !! "Connection" = Some "Upgrade" /\
      response_header response' !! "Upgrade" = Some "websocket" /\
      response_header response' !! "Sec-WebSocket-Accept"
      = Some (accept (Get (Header request) "Sec-WebSocket-Key" ++ WEBSOCKET_UUID)) /\
      IsConnected ws = true /\ IsClient ws = false /\ closing ws = false /\
      (exists config0, server = Some config0 /\
         config ws = Some (Handle_clamp config0) /\
         (Protocol ws = "" \/
          Protocol ws ∈ Protocols config0 /\
          response_header response' !! "Sec-WebSocket-Protocol" = Some (Protocol ws)) /\
         log ws = (if OpenHandler config0 then [OnOpen] else [])) /\
      Path ws = URLPath request /\
      Agent ws = Get (Header request) "User-Agent" /\
      Origin ws = (if String.eqb (ToLower (Get (Header request) "Origin")) "null"
                   then "" else Get (Header request) "Origin")
  | _ => True
  end.
Proof.
  intros Hstatus. unfold Handle.
  destruct (Contains _ _ && String.eqb _ _); [|exact I].
  destruct (negb (String.eqb (Method request) "GET")); [exact I|].
  destruct (negb (String.eqb _ WEBSOCKET_VERSION) || String.eqb _ EmptyString); [exact I|].
  destruct (negb (hijacker response)); [exact I|].
  destruct server as [config0|]; [|exact I].
  assert (Hshape : forall response0 protocol,
             status response0 = None ->
             (protocol = "" \/
              protocol ∈ Protocols config0 /\
              response_header response0 !! "Sec-WebSocket-Protocol" = Some protocol) ->
             match Handle_upgrade accept response0 request config0
                     (Get (Header request) "Sec-WebSocket-Key") protocol with
             | (handled, Some ws, response') =>
                 handled = true /\ status response' = Some 101 /\
                 response_header response' !! "Connection" = Some "Upgrade" /\
                 response_header response' !! "Upgrade" = Some "websocket" /\
                 response_header response' !! "Sec-WebSocket-Accept"
                 = Some (accept (Get (Header request) "Sec-WebSocket-Key"
                                 ++ WEBSOCKET_UUID)) /\
                 IsConnected ws = true /\ IsClient ws = false /\ closing ws = false /\
                 (exists config1, Some config0 = Some config1 /\
                    config ws = Some (Handle_clamp config1) /\
                    (Protocol ws = "" \/
                     Protocol ws ∈ Protocols config1 /\
                     response_header response' !! "Sec-WebSocket-Protocol"
                     = Some (Protocol ws)) /\
                    log ws = (if OpenHandler config1 then [OnOpen] else [])) /\
                 Path ws = URLPath request /\
                 Agent ws = Get (Header request) "User-Agent" /\
                 Origin ws
                 = (if String.eqb (ToLower (Get (Header request) "Origin")) "null"
                    then "" else Get (Header request) "Origin")
             | _ => True
             end).
  { intros response0 protocol Hfresh Hproto.
    pose proof (Handle_upgrade_socket accept response0 request config0
                  (Get (Header request) "Sec-WebSocket-Key") protocol Hfresh) as Hup.
    destruct (Handle_upgrade accept response0 request config0 _ protocol)
      as [[handled [ws|]] response']; [|exact I].
    destruct Hup as (H1 & H2 & H3 & H4 & H5 & H6 & H7 & H8 & H9 & H10 & H11 & H12 & H13
                     & H14 & H15).
    repeat (split; [assumption|]).
    split; [|repeat split; assumption].
    exists config0. split; [reflexivity|]. split; [assumption|]. split.
    - rewrite H12. destruct Hproto as [-> | [Hin Hhead]]; [left; reflexivity|].
      right. split; [assumption|]. rewrite H6. exact Hhead.
    - rewrite H15. reflexivity. }
  destruct (0 <? length (Protocols config0))%nat.
  - destruct (negotiate_member config0 (Get (Header request) "Sec-WebSocket-Protocol"))
      as [Hnone | Hin].
    + rewrite Hnone. cbn [String.eqb negb].
      destruct (NeedProtocol config0); [exact I|].
      apply Hshape; [assumption | left; reflexivity].
    + destruct (String.eqb_spec (negotiate config0
                                   (Get (Header request) "Sec-WebSocket-Protocol")) "")
        as [Hnone | Hsome]; cbn [negb].
      * rewrite Hnone. destruct (NeedProtocol config0); [exact I|].
        apply Hshape; [assumption | left; reflexivity].
      * apply Hshape; [exact Hstatus|]. right. split; [assumption|].
        cbn [Set_ response_header]. apply lookup_insert_eq.
  - apply Hshape; [assumption | left; reflexivity].
Qed.

Lemma Handle_socket_witness :
  match Handle (fun key => key) example_writer (example_request "k, chat, mqtt")
               (Some example_config) with
  | Returns (handled, Some ws, response') =>
      handled = true /\ status response' = Some 101 /\
      response_header response' !! "Connection" = Some "Upgrade" /\
      response_header response' !! "Upgrade" = Some "websocket" /\
      response_header response' !! "Sec-WebSocket-Accept"
      = Some (Get (Header (example_request "k, chat, mqtt")) "Sec-WebSocket-Key"
              ++ WEBSOCKET_UUID) /\
      IsConnected ws = true /\ IsClient ws = false /\ closing ws = false /\
      (exists config0, Some example_config = Some config0 /\
         config ws = Some (Handle_clamp config0) /\
         (Protocol ws = "" \/
          Protocol ws ∈ Protocols config0 /\
          response_header response' !! "Sec-WebSocket-Protocol" = Some (Protocol ws)) /\
         log ws = (if OpenHandler config0 then [OnOpen] else [])) /\
      Path ws = URLPath (example_request "k, chat, mqtt") /\
      Agent ws = Get (Header (example_request "k, chat, mqtt")) "User-Agent" /\
      Origin ws
      = (if String.eqb (ToLower (Get (Header (example_request "k, chat, mqtt")) "Origin"))
                       "null"
         then "" else Get (Header (example_request "k, chat, mqtt")) "Origin")
  | _ => True
  end.
Proof.
  apply (Handle_socket (fun key => key) example_writer (example_request "k, chat, mqtt")
           (Some example_config)).
  reflexivity.
Defined.

(** X12. [Handle] leaves no handled request without a status.  On a writer
    that had no status yet: a request that does not ask for the upgrade is
    not handled, and the writer is untouched; every other request is
    handled and answered with 405, 400, 500 or 101, and a socket is
    returned with 101 only. *)
Theorem Handle_always_answers (accept : string -> string) (response : ResponseWriter)
        (request : Request) (server : option Config) :
  status response = None ->
  match Handle accept response request server with
  | Returns (handled, ws, response') =>
      if handled
      then (exists code, status response' = Some code /\ code ∈ [405; 400; 500; 101] /\
              (ws <> None -> code = 101))
      else ws = None /\ response' = response
  | Panics => server = None
  end.
Proof.
  intros Hstatus. unfold Handle.
  destruct (Contains _ _ && String.eqb _ _); [|split; reflexivity].
  assert (Herror : forall code response0,
             status response0 = None -> code ∈ [405; 400; 500; 101] ->
             exists code', status (WriteHeader code response0) = Some code' /\
                           code' ∈ [405; 400; 500; 101] /\
                           (@None Socket <> None -> code' = 101)).
  { intros code response0 Hfresh Hin. exists code. unfold WriteHeader.
    cbn [status]. rewrite Hfresh. split; [reflexivity|]. split; [assumption|].
    intros Hne. contradiction. }
  destruct (negb (String.eqb (Method request) "GET")).
  { apply Herror; [assumption|]. set_solver. }
  destruct (negb (String.eqb _ WEBSOCKET_VERSION) || String.eqb _ EmptyString).
  { apply Herror; [exact Hstatus|]. set_solver. }
  destruct (negb (hijacker response)).
  { apply Herror; [assumption|]. set_solver. }
  destruct server as [config0|]; [|reflexivity].
  assert (Hupgrade : forall response0 protocol,
             status response0 = None ->
             match Handle_upgrade accept response0 request config0
                     (Get (Header request) "Sec-WebSocket-Key") protocol with
             | (handled, ws, response') =>
                 if handled
                 then (exists code, status response' = Some code /\
                         code ∈ [405; 400; 500; 101] /\ (ws <> None -> code = 101))
                 else ws = None /\ response' = response
             end).
  { intros response0 protocol Hfresh.
    pose proof (Handle_upgrade_socket accept response0 request config0
                  (Get (Header request) "Sec-WebSocket-Key") protocol Hfresh) as Hup.
    destruct (Handle_upgrade accept response0 request config0 _ protocol)
      as [[handled ws] response'].
    destruct Hup as (-> & H101 & _). exists 101.
    split; [assumption|]. split; [set_solver | reflexivity]. }
  destruct (0 <? length (Protocols config0))%nat; [|apply Hupgrade; assumption].
  destruct (negb (String.eqb _ "")); [apply Hupgrade; assumption|].
  destruct (NeedProtocol config0); [|apply Hupgrade; assumption].
  apply Herror; [assumption|]. set_solver.
Qed.

Lemma Handle_always_answers_witness :
  match Handle (fun key => key) example_writer (example_request "mqtt")
               (Some (mkConfig ["chat"] true 0 0 0 0 0 0 0 0 0 false false false)) with
  | Returns (handled, ws, response') =>
      if handled
      then (exists code, status response' = Some code /\ code ∈ [405; 400; 500; 101] /\
              (ws <> None -> code = 101))
      else ws = None /\ response' = example_writer
  | Panics => Some (mkConfig ["chat"] true 0 0 0 0 0 0 0 0 0 false false false) = None
  end.
Proof.
  apply (Handle_always_answers (fun key => key) example_writer (example_request "mqtt")).
  reflexivity.
Defined.


(** ** The handshake, both ends *)

(** X13. The two ends of the handshake agree.  When [Handle] has accepted
    an upgrade and returned a socket, [Dial], reading that reply with the
    key it had sent, returns a socket too, unless it has protocols to
    offer, needs one, and none was negotiated; the socket of the client is
    connected, of the client role, carries the clamped configuration of
    the caller, and has the protocol of the socket of the server.  [Dial]
    does not check that this protocol is one it has offered. *)
Theorem handshake_agrees (sha1 DecodeString : string -> list Z) (accept : string -> string)
        (response : ResponseWriter) (request : Request) (server client0 : option Config)
        (path origin : string) (conn : Conn) :
  (forall key, DecodeString (accept key) = sha1 key) ->
  status response = None ->
  response_header response !! "Sec-WebSocket-Protocol" = None ->
  match Handle accept response request server with
  | Returns (_, Some ws, response') =>
      match Dial_response sha1 DecodeString (sent response')
              (Get (Header request) "Sec-WebSocket-Key") path origin conn client0 with
      | Some cs =>
          Protocol cs = Protocol ws /\ IsClient cs = true /\ IsConnected cs = true /\
          closing cs = false /\
          config cs = Some (Dial_clamp (default Config_zero client0))
      | None =>
          Protocols (default Config_zero client0) <> [] /\ Protocol ws = "" /\
          NeedProtocol (default Config_zero client0) = true
      end
  | _ => True
  end.
Proof.
  intros Hcodec Hstatus Hfresh. unfold Handle.
  destruct (Contains _ _ && String.eqb _ _); [|exact I].
  destruct (negb (String.eqb (Method request) "GET")); [exact I|].
  destruct (negb (String.eqb _ WEBSOCKET_VERSION) || String.eqb _ EmptyString); [exact I|].
  destruct (negb (hijacker response)); [exact I|].
  destruct server as [config0|]; [|exact I].
  assert (Hagree : forall response0 protocol,
             status response0 = None ->
             response_header response0 !! "Sec-WebSocket-Protocol"
             = (if String.eqb protocol "" then None else Some protocol) ->
             match Handle_upgrade accept response0 request config0
                     (Get (Header request) "Sec-WebSocket-Key") protocol with
             | (_, Some ws, response') =>
                 match Dial_response sha1 DecodeString (sent response')
                         (Get (Header request) "Sec-WebSocket-Key") path origin conn
                         client0 with
                 | Some cs =>
                     Protocol cs = Protocol ws /\ IsClient cs = true /\
                     IsConnected cs = true /\ closing cs = false /\
                     config cs = Some (Dial_clamp (default Config_zero client0))
                 | None =>
                     Protocols (default Config_zero client0) <> [] /\ Protocol ws = "" /\
                     NeedProtocol (default Config_zero client0) = true
                 end
             | _ => True
             end).
  { intros response0 protocol Hnew Hheader.
    pose proof (Handle_upgrade_socket accept response0 request config0
                  (Get (Header request) "Sec-WebSocket-Key") protocol Hnew) as Hup.
    destruct (Handle_upgrade accept response0 request config0 _ protocol)
      as [[handled [ws|]] response']; [|exact I].
    destruct Hup as (_ & H101 & Hconn & Hupg & Hacc & Hproto & _ & _ & _ & _ & _ & Hws & _).
    assert (G0 : default 200 (status response') = 101) by (rewrite H101; reflexivity).
    assert (G1 : Get (response_header response') "Connection" = "Upgrade")
      by (unfold Get; rewrite Hconn; reflexivity).
    assert (G2 : Get (response_header response') "Upgrade" = "websocket")
      by (unfold Get; rewrite Hupg; reflexivity).
    assert (G3 : Get (response_header response') "Sec-WebSocket-Accept"
                 = accept (Get (Header request) "Sec-WebSocket-Key" ++ WEBSOCKET_UUID))
      by (unfold Get at 1; rewrite Hacc; reflexivity).
    assert (G4 : Get (response_header response') "Sec-WebSocket-Protocol" = protocol).
    { unfold Get. rewrite Hproto, Hheader.
      destruct (String.eqb_spec protocol "") as [->|]; reflexivity. }
    unfold Dial_response, sent. cbn [StatusCode ResponseHeader].
    rewrite G0, G1, G2, G3, G4, Hcodec.
    rewrite bool_decide_eq_true_2 by reflexivity.
    change (101 =? 101)%Z with true.
    change (String.eqb (ToLower "Upgrade") "upgrade") with true.
    change (String.eqb (ToLower "websocket") "websocket") with true.
    cbn [negb orb].
    assert (Hlist : Protocols (Dial_clamp (default Config_zero client0))
                    = Protocols (default Config_zero client0)) by reflexivity.
    assert (Hneed : NeedProtocol (Dial_clamp (default Config_zero client0))
                    = NeedProtocol (default Config_zero client0)) by reflexivity.
    rewrite Hlist, Hneed, Hws.
    destruct (Protocols (default Config_zero client0)) as [|p ps] eqn:Hps;
      cbn [length Nat.ltb Nat.leb andb].
    - destruct (OpenHandler _); repeat split.
    - destruct (String.eqb_spec protocol "") as [->|Hne]; cbn [andb].
      + destruct (NeedProtocol (default Config_zero client0)).
        * repeat split. discriminate.
        * destruct (OpenHandler _); repeat split.
      + destruct (OpenHandler _); repeat split. }
  destruct (0 <? length (Protocols config0))%nat.
  - destruct (String.eqb_spec (negotiate config0
                                 (Get (Header request) "Sec-WebSocket-Protocol")) "")
      as [Hempty | Hsome]; cbn [negb].
    + destruct (NeedProtocol config0); [exact I|].
      rewrite Hempty. apply Hagree; assumption.
    + apply Hagree; [exact Hstatus|]. cbn [Set_ response_header].
      rewrite lookup_insert_eq.
      destruct (String.eqb_spec (negotiate config0
                                   (Get (Header request) "Sec-WebSocket-Protocol")) "");
        [contradiction | reflexivity].
  - apply Hagree; assumption.
Qed.

Lemma handshake_agrees_witness :
  match Handle (fun key => key) example_writer (example_request "k, chat, mqtt")
               (Some example_config) with
  | Returns (_, Some ws, response') =>
      match Dial_response (fun key => [Z.of_nat (String.length key)])
              (fun key => [Z.of_nat (String.length key)]) (sent response')
              (Get (Header (example_request "k, chat, mqtt")) "Sec-WebSocket-Key")
              "" "" (mkConn "peer:80" [] []) (Some example_config) with
      | Some cs =>
          Protocol cs = Protocol ws /\ IsClient cs = true /\ IsConnected cs = true /\
          closing cs = false /\
          config cs = Some (Dial_clamp (default Config_zero (Some example_config)))
      | None =>
          Protocols (default Config_zero (Some example_config)) <> [] /\
          Protocol ws = "" /\
          NeedProtocol (default Config_zero (Some example_config)) = true
      end
  | _ => True
  end.
Proof.
  apply (handshake_agrees (fun key => [Z.of_nat (String.length key)])
           (fun key => [Z.of_nat (String.length key)]) (fun key => key)
           example_writer (example_request "k, chat, mqtt")).
  - reflexivity.
  - reflexivity.
  - reflexivity.
Defined.

Local Close Scope string_scope.

(** ** Frames: what one side writes, the other side reads *)

Lemma lor_shiftl_byte acc b :
  0 <= acc -> 0 <= b < 256 -> Z.lor (Z.shiftl acc 8) b = acc * 256 + b.
Proof.
  intros Hacc Hb.
  assert (Hdisjoint : Z.land (Z.shiftl acc 8) b = 0).
  { apply Z.bits_inj'. intros i Hi. rewrite Z.land_spec, Z.bits_0.
    destruct (Z.lt_ge_cases i 8).
    - rewrite Z.shiftl_spec_low by lia. reflexivity.
    - destruct (Z.eq_dec b 0) as [->|Hb0].
      + rewrite Z.bits_0. apply andb_false_r.
      + rewrite (Z.bits_above_log2 b i), andb_false_r; [reflexivity | lia |].
        apply Z.lt_le_trans with 8; [|assumption].
        apply Z.log2_lt_pow2; lia. }
  rewrite <- Z.lxor_lor, <- Z.add_nocarry_lxor by assumption.
  rewrite Z.shiftl_mul_pow2 by lia. reflexivity.
Qed.

Lemma land_255 v : Z.land v 255 = v mod 256.
Proof. change 255 with (Z.ones 8). rewrite Z.land_ones by lia. reflexivity. Qed.

Lemma Uint16_PutUint16 n rest :
  0 <= n < 65536 -> Uint16 (PutUint16 n ++ rest) = n.
Proof.
  intros Hn. unfold Uint16, PutUint16. cbn [app]. index_bytes.
  rewrite !land_255, Z.shiftr_div_pow2 by lia. change (2 ^ 8) with 256.
  rewrite lor_shiftl_byte by (Z.div_mod_to_equations; lia).
  Z.div_mod_to_equations. lia.
Qed.

Lemma Uint64_PutUint64 n rest :
  0 <= n < 2^64 -> Uint64 (PutUint64 n ++ rest) = n.
Proof.
  intros Hn. unfold Uint64, PutUint64. cbn [fmap list_fmap app foldl]. index_bytes.
  change (8 * 7) with (8 * 6 + 8). rewrite <- (Z.shiftr_shiftr n (8 * 6) 8) by lia.
  change (8 * 6) with (8 * 5 + 8). rewrite <- (Z.shiftr_shiftr n (8 * 5) 8) by lia.
  change (8 * 5) with (8 * 4 + 8). rewrite <- (Z.shiftr_shiftr n (8 * 4) 8) by lia.
  change (8 * 4) with (8 * 3 + 8). rewrite <- (Z.shiftr_shiftr n (8 * 3) 8) by lia.
  change (8 * 3) with (8 * 2 + 8). rewrite <- (Z.shiftr_shiftr n (8 * 2) 8) by lia.
  change (8 * 2) with (8 * 1 + 8). rewrite <- (Z.shiftr_shiftr n (8 * 1) 8) by lia.
  change (8 * 1) with 8. change (8 * 0) with 0. rewrite Z.shiftr_0_r.
  rewrite !land_255, !Z.shiftr_div_pow2 by lia. change (2 ^ 8) with 256.
  change (2 ^ 64) with 18446744073709551616 in Hn.
  rewrite Z.shiftl_0_l, Z.lor_0_l.
  repeat match goal with
         | |- context [Z.lor (Z.shiftl ?acc 8) ?b] =>
             rewrite (lor_shiftl_byte acc b) by (Z.div_mod_to_equations; lia)
         end.
  Z.div_mod_to_equations. lia.
Qed.

Lemma window_bytes st bytes :
  at_hand st bytes ->
  frame_bytes st = bytes ++ drop (Z.to_nat (recv.woffset st)) (recv.buffer st) /\
  recv.woffset st - recv.roffset st = len bytes.
Proof.
  intros (Hr & Hw & <-). unfold frame_bytes, slice. split.
  - rewrite <- (take_drop (Z.to_nat (recv.woffset st - recv.roffset st))
                          (drop (Z.to_nat (recv.roffset st)) (recv.buffer st))) at 1.
    f_equal. rewrite drop_drop. f_equal. lia.
  - unfold len in *. rewrite length_take, length_drop. lia.
Qed.

Lemma frame_bytes_drop st k :
  0 <= recv.roffset st -> 0 <= k ->
  drop (Z.to_nat (recv.roffset st + k)) (recv.buffer st)
  = drop (Z.to_nat k) (frame_bytes st).
Proof.
  intros Hr Hk. unfold frame_bytes. rewrite drop_drop. f_equal. lia.
Qed.

Lemma frame_bytes_slice st lo hi :
  0 <= recv.roffset st -> 0 <= lo ->
  slice (recv.buffer st) (recv.roffset st + lo) (recv.roffset st + hi)
  = slice (frame_bytes st) lo hi.
Proof.
  intros Hr Hlo. unfold slice. rewrite frame_bytes_drop by assumption.
  f_equal. lia.
Qed.

Lemma mask_bit_test b : byte_ok b -> (Z.land b WEBSOCKET_MASK =? 0) = (b <? 128).
Proof.
  intros Hb. apply Bool.eqb_prop.
  apply (byte_cases (fun b => Bool.eqb (Z.land b WEBSOCKET_MASK =? 0) (b <? 128)));
    [vm_compute; reflexivity | assumption].
Qed.

Lemma second_byte (masked : bool) code :
  0 <= code < 128 ->
  Z.land ((if masked then 128 else 0) + code) 127 = code /\
  (Z.land ((if masked then 128 else 0) + code) WEBSOCKET_MASK =? 0) = negb masked.
Proof.
  intros Hcode. rewrite byte_length_code, mask_bit_test by (unfold byte_ok; destruct masked; lia).
  destruct masked; cbn [negb]; (split; [Z.div_mod_to_equations; lia|]).
  - apply Z.ltb_ge. lia.
  - apply Z.ltb_lt. lia.
Qed.

Lemma first_byte fin opcode :
  0 <= fin <= 1 -> 0 <= opcode < 16 ->
  Z.shiftr (128 * fin + opcode) 7 = fin /\ Z.land (128 * fin + opcode) 15 = opcode.
Proof.
  intros Hfin Hop. rewrite Z.shiftr_div_pow2, byte_opcode by lia. unfold opcode_of.
  change (2 ^ 7) with 128. split; Z.div_mod_to_equations; lia.
Qed.

Lemma copy_key (dst key rest : list Z) :
  length dst = 4%nat -> length key = 4%nat -> copy dst (key ++ rest) = key.
Proof.
  intros Hdst Hkey. unfold copy, splice. rewrite Hdst, <- Hkey, take_app_length.
  cbn [Z.to_nat take app Nat.add]. rewrite drop_ge by lia. apply app_nil_r.
Qed.

Lemma length_field_range n :
  0 <= n -> 0 <= fst (length_field n) < 128.
Proof.
  intros Hn. unfold length_field.
  destruct (Z.ltb_spec n 126); [cbn; lia|]. destruct (n <? 65536); cbn; lia.
Qed.

Lemma len_frame_head masked fin opcode n key :
  length key = 4%nat ->
  len (frame_head masked fin opcode n key)
  = 2 + (if n <? 126 then 0 else if n <? 65536 then 2 else 8) + (if masked then 4 else 0).
Proof.
  intros Hkey. unfold frame_head, length_field, len.
  destruct (n <? 126); [| destruct (n <? 65536)]; destruct masked;
    cbn [fst snd app length PutUint16 PutUint64 fmap list_fmap];
    rewrite ?length_app, ?Hkey; cbn [length]; lia.
Qed.

(** Lines 503-528 on the bytes of a header: the length and the key. *)
Lemma extended_latches s st (n : Z) (key rest : list Z) :
  0 <= recv.roffset st -> length (recv.mask st) = 4%nat -> length key = 4%nat ->
  0 <= n < 2^63 ->
  recv.size st = fst (length_field n) ->
  drop 2 (frame_bytes st)
  = snd (length_field n) ++ (if negb (client s) then key else []) ++ rest ->
  2 + (if n <? 126 then 0 else if n <? 65536 then 2 else 8)
    + (if negb (client s) then 4 else 0) <= recv.woffset st - recv.roffset st ->
  extended s st
  = Some (recv.mk (recv.fin st) (recv.opcode st) n
                  (if client s then recv.mask st else key)
                  (recv.seen st) (recv.code st) (recv.dmode st) (recv.dsize st)
                  (recv.doffset st) (recv.dlast st) (recv.buffer st)
                  (recv.roffset st
                   + (2 + (if n <? 126 then 0 else if n <? 65536 then 2 else 8)
                      + (if negb (client s) then 4 else 0)))
                  (recv.woffset st) (recv.data st) (recv.control st)).
Proof.
  intros Hr Hmask Hkey Hn Hsize Hbytes Hroom.
  assert (Hd2 : drop (Z.to_nat (recv.roffset st + 2)) (recv.buffer st)
                = drop 2 (frame_bytes st)).
  { apply (frame_bytes_drop st 2); lia. }
  assert (Hd4 : drop (Z.to_nat (recv.roffset st + 4)) (recv.buffer st)
                = drop 2 (drop 2 (frame_bytes st))).
  { rewrite drop_drop. apply (frame_bytes_drop st 4); lia. }
  assert (Hd10 : drop (Z.to_nat (recv.roffset st + 10)) (recv.buffer st)
                 = drop 8 (drop 2 (frame_bytes st))).
  { rewrite drop_drop. apply (frame_bytes_drop st 10); lia. }
  unfold extended. rewrite Hsize, Hd2, Hd4, Hd10, Hbytes. unfold length_field, smask_of in *.
  destruct st as [fin0 opcode0 size0 mask0 seen0 code0 dmode0 dsize0 doffset0 dlast0
                    buffer0 roffset0 woffset0 data0 control0].
  cbn [recv.fin recv.opcode recv.size recv.mask recv.seen recv.code recv.dmode recv.dsize
       recv.doffset recv.dlast recv.buffer recv.roffset recv.woffset recv.data
       recv.control recv.with_size recv.with_mask recv.with_roffset] in *.
  destruct (Z.ltb_spec n 126) as [Hshort|Hlong];
    [| destruct (Z.ltb_spec n 65536) as [Hmid|Hbig]]; cbn [fst snd app] in *.
  - destruct (Z.eqb_spec n 126); [lia|]. destruct (Z.eqb_spec n 127); [lia|].
    subst size0.
    destruct (client s); cbn [negb app]; rewrite ?copy_key by assumption;
      do 2 f_equal; lia.
  - change (126 =? 126) with true. cbn iota.
    rewrite Uint16_PutUint16 by lia. unfold PutUint16 at 1. cbn [app drop].
    destruct (client s); cbn [negb app] in *;
      match goal with
      | |- context [if ?a <? ?b then _ else _] => destruct (Z.ltb_spec a b)
      end; try lia;
      rewrite ?drop_0, ?copy_key by assumption;
      cbv beta iota delta [recv.with_roffset recv.with_mask recv.with_size recv.fin
        recv.opcode recv.size recv.mask recv.seen recv.code recv.dmode recv.dsize
        recv.doffset recv.dlast recv.buffer recv.roffset recv.woffset recv.data
        recv.control];
      do 2 f_equal; lia.
  - change (127 =? 126) with false. change (127 =? 127) with true. cbn iota.
    rewrite Uint64_PutUint64, wrap64_small by lia.
    unfold PutUint64 at 1. cbn [app drop fmap list_fmap].
    destruct (client s); cbn [negb app] in *;
      match goal with
      | |- context [if ?a <? ?b then _ else _] => destruct (Z.ltb_spec a b)
      end; try lia;
      rewrite ?drop_0, ?copy_key by assumption;
      cbv beta iota delta [recv.with_roffset recv.with_mask recv.with_size recv.fin
        recv.opcode recv.size recv.mask recv.seen recv.code recv.dmode recv.dsize
        recv.doffset recv.dlast recv.buffer recv.roffset recv.woffset recv.data
        recv.control];
      do 2 f_equal; lia.
Qed.

(** The header of a frame that is no violation and not oversized, wholly
    at hand: what lines 484-539 latch. *)
Lemma header_latches s config0 st (fin opcode n : Z) (key rest : list Z) :
  recv.size st < 0 -> 0 <= recv.roffset st ->
  length (recv.mask st) = 4%nat -> length key = 4%nat ->
  0 <= fin <= 1 -> known_opcode opcode -> (control_opcode opcode -> fin = 1) ->
  0 <= n < 2^63 ->
  frame_bytes st = frame_head (negb (client s)) fin opcode n key ++ rest ->
  len (frame_head (negb (client s)) fin opcode n key)
  <= recv.woffset st - recv.roffset st ->
  oversized config0 (recv.with_size n (recv.with_opcode opcode (recv.with_fin fin st)))
  = false ->
  header s config0 st =
  let dmode := if (opcode =? WEBSOCKET_OPCODE_TEXT) || (opcode =? WEBSOCKET_OPCODE_BLOB)
               then opcode else recv.dmode st in
  Next (recv.mk fin opcode n (if client s then recv.mask st else key)
                (recv.seen st) (recv.code st) dmode
                (if negb (dmode =? 0) then wrap64 (recv.dsize st + n) else recv.dsize st)
                (recv.doffset st)
                (if negb (dmode =? 0) && (fin =? 1) then true else recv.dlast st)
                (recv.buffer st)
                (recv.roffset st + len (frame_head (negb (client s)) fin opcode n key))
                (recv.woffset st) (recv.data st) (recv.control st)).
Proof.
  intros Hsize Hr Hmask Hkey Hfin Hknown Hctl Hn Hfb Hroom Hfit.
  rewrite len_frame_head in * by assumption.
  assert (Hop : 0 <= opcode < 16).
  { unfold known_opcode, control_opcode, WEBSOCKET_OPCODE_CLOSE, WEBSOCKET_OPCODE_PING,
      WEBSOCKET_OPCODE_PONG, WEBSOCKET_OPCODE_TEXT, WEBSOCKET_OPCODE_BLOB in Hknown. lia. }
  pose proof (length_field_range n ltac:(lia)) as Hcode.
  destruct (frame_bytes_first st Hr) as [E0 E1].
  rewrite Hfb in E0, E1. unfold frame_head in E0, E1. cbn [app] in E0, E1.
  unfold byte_at at 1 in E0. unfold byte_at at 1 in E1.
  change (Z.to_nat 0) with 0%nat in E0. change (Z.to_nat 1) with 1%nat in E1.
  cbn [lookup list_lookup default from_option id] in E0, E1.
  destruct (first_byte fin opcode Hfin Hop) as [Ffin Fop].
  destruct (second_byte (negb (client s)) _ Hcode) as [Scode Smask].
  rewrite header_decodes by (destruct (n <? 126), (n <? 65536), (negb (client s)); lia).
  cbn zeta. unfold decoded. rewrite <- E0, <- E1, Ffin, Fop, Scode.
  assert (Hv : violation s
                 (recv.with_size (fst (length_field n))
                    (recv.with_opcode opcode (recv.with_fin fin st)))
                 ((if negb (client s) then 128 else 0) + fst (length_field n)) = false).
  { unfold violation. rewrite Smask.
    cbn [recv.fin recv.opcode recv.with_size recv.with_opcode recv.with_fin].
    unfold known_opcode, control_opcode, WEBSOCKET_OPCODE_CLOSE, WEBSOCKET_OPCODE_PING,
      WEBSOCKET_OPCODE_PONG, WEBSOCKET_OPCODE_TEXT, WEBSOCKET_OPCODE_BLOB in *.
    destruct (client s); cbn [negb andb orb]; compare_all; cbn [negb andb orb];
      try reflexivity; lia. }
  rewrite Hv. clear Hv.
  cbn zeta.
  cbn [recv.fin recv.opcode recv.size recv.mask recv.seen recv.code recv.dmode recv.dsize
       recv.doffset recv.dlast recv.buffer recv.roffset recv.woffset recv.data
       recv.control recv.with_fin recv.with_opcode recv.with_size recv.with_mask
       recv.with_dmode recv.with_dlast].
  replace (negb (client s) && (recv.woffset st - recv.roffset st <? 2 + smask_of s))
    with false.
  2: { unfold smask_of. destruct (client s); cbn [negb andb] in *; [reflexivity|].
       symmetry. apply Z.ltb_ge. destruct (n <? 126), (n <? 65536); lia. }
  unfold oversized in Hfit.
  cbn [recv.fin recv.opcode recv.size recv.with_size recv.with_opcode recv.with_fin] in Hfit.
  assert (Hd2 := frame_bytes_drop st 2 Hr ltac:(lia)).
  rewrite Hfb in Hd2. unfold frame_head in Hd2. change (Z.to_nat 2) with 2%nat in Hd2.
  cbn [app drop] in Hd2. rewrite drop_0, <- app_assoc in Hd2.
  destruct ((opcode =? WEBSOCKET_OPCODE_TEXT) || (opcode =? WEBSOCKET_OPCODE_BLOB));
    cbn [recv.dmode recv.fin recv.with_dmode recv.with_size recv.with_opcode
         recv.with_fin];
    match goal with
    | |- context [negb (?d =? 0) && (fin =? 1)] =>
        destruct (negb (d =? 0)) eqn:Hmode; destruct (fin =? 1) eqn:Hlast
    end;
    cbn [negb andb];
    match goal with
    | |- context [extended s ?x] =>
        rewrite (extended_latches s x n key rest);
        [ | assumption | assumption | assumption | assumption | reflexivity
          | unfold frame_bytes; cbn [recv.buffer recv.roffset recv.with_dlast
              recv.with_dmode recv.with_size recv.with_opcode recv.with_fin];
            rewrite drop_drop;
            replace (Z.to_nat (recv.roffset st) + 2)%nat
              with (Z.to_nat (recv.roffset st + 2)) by lia;
            exact Hd2
          | assumption ]
    end;
    unfold oversized;
    cbn [recv.fin recv.opcode recv.size recv.mask recv.seen recv.code recv.dmode
         recv.dsize recv.doffset recv.dlast recv.buffer recv.roffset recv.woffset
         recv.data recv.control recv.with_fin recv.with_opcode recv.with_size
         recv.with_mask recv.with_dmode recv.with_dlast];
    rewrite ?Hlast, ?Hmode; rewrite Hfit; cbn [negb andb]; reflexivity.
Qed.

Lemma slice_all (data : list Z) : slice data 0 (len data) = data.
Proof.
  unfold slice, len. rewrite Z.sub_0_r, Nat2Z.id. change (Z.to_nat 0) with 0%nat.
  rewrite drop_0. apply firstn_all.
Qed.

Lemma splice_all (data block : list Z) :
  length block = length data -> splice data 0 block = block.
Proof.
  intros Hsame. unfold splice. change (Z.to_nat 0) with 0%nat.
  rewrite take_0, Nat.add_0_l, Hsame, drop_all. cbn [app]. apply app_nil_r.
Qed.

Lemma lor_mask code : 0 <= code < 128 -> Z.lor code WEBSOCKET_MASK = 128 + code.
Proof.
  intros Hcode.
  assert (Hdisjoint : Z.land code WEBSOCKET_MASK = 0).
  { apply Z.eqb_eq. rewrite mask_bit_test by (unfold byte_ok; lia). apply Z.ltb_lt. lia. }
  rewrite <- Z.lxor_lor, <- Z.add_nocarry_lxor by assumption.
  unfold WEBSOCKET_MASK. lia.
Qed.

(** A message that fits one fragment, on a connected socket whose next
    write succeeds: one final frame with the whole data, masked with a
    fresh key by a client. *)
Lemma Write_single_frame (w : Socket) (cw : Config) (mode : Z) (data : list Z) :
  config w = Some cw -> connected w = true -> write_fails w = false ->
  mode = WEBSOCKET_OPCODE_TEXT \/ mode = WEBSOCKET_OPCODE_BLOB ->
  0 < len data <= FragmentSize cw -> len data < 2^63 -> Forall byte_ok data ->
  exists w' payload,
    Write w mode data = Returns (w', data, false) /\
    log w' = log w ++ [Written payload] /\
    concat payload
    = frame_head (client w) 1 mode (len data) (fst (rmask w))
      ++ (if client w then xor (fst (rmask w)) data else data).
Proof.
  intros Hcfg Hc Hf Hmode Hlen Hint Hdata.
  destruct (rmask_bytes w) as [Hkey Hkey4].
  assert (Hframes : (let frames := Z.quot (len data) (FragmentSize cw) in
                     if negb (Z.rem (len data) (FragmentSize cw) =? 0)
                     then frames + 1 else frames) = 1).
  { cbn zeta. destruct (Z.eq_dec (len data) (FragmentSize cw)) as [<-|Hne].
    - rewrite Z.quot_same, Z.rem_same by lia. reflexivity.
    - rewrite Z.quot_small, Z.rem_small by lia.
      destruct (Z.eqb_spec (len data) 0); [lia|]. reflexivity. }
  unfold Write. rewrite Hcfg.
  replace ((mode =? WEBSOCKET_OPCODE_TEXT) || (mode =? WEBSOCKET_OPCODE_BLOB)) with true
    by (destruct Hmode as [-> | ->]; reflexivity).
  destruct (Z.gtb_spec (len data) 0); [|lia]. cbn [andb].
  destruct (Z.eqb_spec (FragmentSize cw) 0); [lia|].
  cbn zeta in Hframes |- *. rewrite Hframes.
  change (Z.to_nat 1) with 1%nat. cbn [Write_loop]. change (1 <=? 1) with true. cbn iota.
  unfold Write_round. change (1 =? 1) with true. change (1 >? 1) with false.
  change ((1 - 1) * FragmentSize cw) with 0. cbn iota zeta.
  rewrite Z.sub_0_r, Z.add_0_l, slice_all.
  assert (Hsend : forall s payload,
             connected s = true -> faults s = faults w ->
             send s payload = (fst (WriteTo s payload), false) /\
             log (fst (WriteTo s payload)) = log s ++ [Written payload]).
  { intros s payload Hcs Hfs. unfold send, WriteTo, write_fails in *.
    rewrite Hcs, Hfs. cbn [negb].
    destruct (faults w) as [|[] rest]; try discriminate; split; reflexivity. }
  assert (Hfirst : Z.lor WEBSOCKET_FIN mode = 128 * 1 + mode)
    by (destruct Hmode as [-> | ->]; reflexivity).
  assert (Hwhole : forall d : list Z, length d = length data -> slice d 0 (len data) = d).
  { intros d Hd. unfold len. rewrite <- Hd. apply slice_all. }
  rewrite Hfirst. unfold frame_head, length_field.
  destruct (client w) eqn:Hclient.
  - (* a client masks the payload in place *)
    destruct (rmask w) as [key w1] eqn:Hrmask. cbn [fst] in *.
    assert (Hw1 : connected w1 = true /\ faults w1 = faults w /\ log w1 = log w).
    { unfold rmask in Hrmask. injection Hrmask as _ <-. repeat split. assumption. }
    destruct Hw1 as (Hc1 & Hf1 & Hl1).
    rewrite (splice_all data (xor key data)) by (apply length_xor; assumption).
    rewrite (Hwhole (xor key data)) by (apply length_xor; assumption).
    rewrite xor_involutive by assumption.
    rewrite (splice_all (xor key data) data) by (symmetry; apply length_xor; assumption).
    destruct (Z.ltb_spec (len data) 126) as [Hshort|Hlong];
      [| destruct (Z.ltb_spec (len data) 65536) as [Hmid|Hbig]];
      cbn [fst snd];
      match goal with
      | |- context [send w1 ?payload] =>
          destruct (Hsend w1 payload Hc1 Hf1) as [-> Hlog]
      end;
      eexists; eexists; (split; [reflexivity|]);
      (split; [rewrite Hlog, Hl1; reflexivity|]);
      cbn [concat app]; rewrite ?app_nil_r, <- ?app_assoc; cbn [app];
      rewrite ?Z.mod_small by lia; rewrite ?Z.lor_0_l, ?lor_mask by lia;
      reflexivity.
  - (* a server sends the data as they are *)
    destruct (Z.ltb_spec (len data) 126) as [Hshort|Hlong];
      [| destruct (Z.ltb_spec (len data) 65536) as [Hmid|Hbig]];
      cbn [fst snd];
      match goal with
      | |- context [send w ?payload] =>
          destruct (Hsend w payload Hc eq_refl) as [-> Hlog]
      end;
      eexists; eexists; (split; [reflexivity|]);
      (split; [rewrite Hlog; reflexivity|]);
      cbn [concat app]; rewrite ?app_nil_r, <- ?app_assoc; cbn [app];
      rewrite ?Z.mod_small by lia; rewrite ?Z.lor_0_l;
      reflexivity.
Qed.

Lemma slice_middle (head body post : list Z) :
  slice (head ++ body ++ post) (len head) (len head + len body) = body.
Proof.
  unfold slice, len. rewrite Nat2Z.id, drop_app_length.
  replace (Z.to_nat (Z.of_nat (length head) + Z.of_nat (length body)
                     - Z.of_nat (length head))) with (length body) by lia.
  apply take_app_length.
Qed.

Lemma splice_end (prefix chunk chunk' : list Z) :
  length chunk' = length chunk ->
  splice (prefix ++ chunk) (len prefix) chunk' = prefix ++ chunk'.
Proof.
  intros Hsame. unfold splice, len. rewrite Nat2Z.id, take_app_length.
  rewrite drop_ge by (rewrite length_app; lia). rewrite app_nil_r. reflexivity.
Qed.

(** A frame that is wholly at hand, in front of the bytes [more], and
    that opens a message or comes while a message is in assembly (a
    continuation frame, or a control frame): one round of the frame loop
    appends its unmasked payload to the message in assembly and, when the
    frame is final, hands the message to the MessageHandler; the bytes
    [more] are at hand after it. *)
Lemma frame_round_fragment utf8_Valid config0 (r : Socket) (st : recv.state)
      (mode0 mode fin opcode : Z) (key prefix chunk more : list Z) :
  assembling st mode0 prefix ->
  at_hand st (frame_head (negb (client r)) fin opcode (len chunk) key
              ++ (if client r then chunk else xor key chunk) ++ more) ->
  0 <= fin <= 1 ->
  mode = WEBSOCKET_OPCODE_TEXT \/ mode = WEBSOCKET_OPCODE_BLOB ->
  (mode0 = 0 /\ opcode = mode) \/
  (mode0 = mode /\ (opcode = 0 \/ control_opcode opcode /\ fin = 1)) ->
  (if opcode <=? WEBSOCKET_OPCODE_BLOB then 0 < len chunk else len chunk <= 125) ->
  len prefix + len chunk <= MessageSize config0 ->
  len prefix + len chunk < 2^63 ->
  Forall byte_ok chunk -> Forall byte_ok key -> length key = 4%nat ->
  exists st',
    if (fin =? 1)
       && ((mode =? WEBSOCKET_OPCODE_TEXT) && negb (utf8_Valid (prefix ++ chunk)))
    then
      frame_round utf8_Valid config0 r st = Exit Invalid (r, st') /\
      recv.code st' = WEBSOCKET_ERROR_INVALID
    else
      frame_round utf8_Valid config0 r st
      = (match more with [] => Break | _ => Next end)
          (if (fin =? 1) && MessageHandler config0
           then record (OnMessage mode (prefix ++ chunk)) r else r, st') /\
      (if fin =? 1 then assembling st' 0 [] else assembling st' mode (prefix ++ chunk)) /\
      at_hand st' more.
Proof.
  intros (Hsize & Hdmode & Hdsize & Hdoffset & Hdlast & Hdata0 & Hcontrol & Hmask)
         Hhand Hfin Hmode Hkind Hlen Hfit Hint Hchunk Hkey Hkey4.
  set (body := if client r then chunk else xor key chunk) in *.
  assert (Hbody : length body = length chunk).
  { subst body. destruct (client r); [reflexivity|]. apply length_xor; assumption. }
  assert (Hlb : len body = len chunk) by (unfold len; lia).
  assert (Hprefix : 0 <= len prefix) by (unfold len; lia).
  assert (Hmore : 0 <= len more) by (unfold len; lia).
  destruct (window_bytes st _ Hhand) as [Hfb Havail].
  destruct Hhand as (Hr & Hw & Hbytes).
  rewrite <- !app_assoc in Hfb.
  set (head := frame_head (negb (client r)) fin opcode (len chunk) key) in *.
  set (hl := len head) in *.
  assert (Hhl : 0 <= hl) by (subst hl; unfold len; lia).
  assert (Hroom : recv.woffset st - recv.roffset st = hl + len chunk + len more).
  { rewrite Havail. subst hl. unfold len. rewrite !length_app, Hbody. lia. }
  clear Havail.
  assert (Hchunk0 : 0 <= len chunk) by (unfold len; lia).
  assert (Hdm : (if (opcode =? WEBSOCKET_OPCODE_TEXT) || (opcode =? WEBSOCKET_OPCODE_BLOB)
                 then opcode else recv.dmode st) = mode).
  { rewrite Hdmode.
    destruct Hkind as [[-> ->] | [-> [-> | [[-> | [-> | ->]] _]]]];
      destruct Hmode as [-> | ->]; reflexivity. }
  assert (Hnz : negb (mode =? 0) = true) by (destruct Hmode as [-> | ->]; reflexivity).
  unfold frame_round.
  rewrite (header_latches r config0 st fin opcode (len chunk) key
             (body ++ more ++ drop (Z.to_nat (recv.woffset st)) (recv.buffer st))
             Hsize ltac:(lia) Hmask Hkey4 Hfin); [ | | | | exact Hfb | | ].
  2: { unfold known_opcode.
       destruct Hkind as [[_ ->] | [_ [-> | [Hctl _]]]]; destruct Hmode; auto. }
  2: { unfold control_opcode, WEBSOCKET_OPCODE_CLOSE, WEBSOCKET_OPCODE_PING,
         WEBSOCKET_OPCODE_PONG, WEBSOCKET_OPCODE_TEXT, WEBSOCKET_OPCODE_BLOB in *. lia. }
  2: { lia. }
  2: { fold head. fold hl. lia. }
  2: { unfold oversized.
       cbn [recv.fin recv.opcode recv.size recv.with_size recv.with_opcode recv.with_fin].
       destruct (Z.gtb_spec (len chunk) (MessageSize config0)); [lia|].
       rewrite andb_false_r, orb_false_r.
       unfold WEBSOCKET_OPCODE_BLOB in *.
       destruct (Z.leb_spec opcode 2); cbn [andb orb].
       - destruct (Z.eqb_spec (len chunk) 0); [lia|].
         destruct (Z.gtb_spec opcode 2); [lia|]. reflexivity.
       - destruct (Z.gtb_spec (len chunk) 125); [lia|]. apply andb_false_r. }
  cbn zeta. fold head. fold hl. rewrite Hdm, Hnz. cbn [andb].
  rewrite Hdsize, wrap64_small by lia.
  unfold payload. cbn [recv.size recv.dmode].
  destruct (Z.geb_spec (len chunk) 0); [|lia]. rewrite Hnz.
  unfold absorb.
  cbn [recv.fin recv.opcode recv.size recv.mask recv.seen recv.code recv.dmode
       recv.dsize recv.doffset recv.dlast recv.buffer recv.roffset recv.woffset
       recv.data recv.control recv.with_data recv.with_size recv.with_roffset].
  assert (Hslice : slice (recv.buffer st) (recv.roffset st + hl)
                          (recv.roffset st + hl + len chunk) = body).
  { rewrite <- Z.add_assoc, frame_bytes_slice, Hfb by lia.
    pose proof (slice_middle head body
                  (more ++ drop (Z.to_nat (recv.woffset st)) (recv.buffer st)))
      as Hmiddle.
    rewrite Hlb in Hmiddle. exact Hmiddle. }
  rewrite (Z.min_r _ (len chunk)) by lia. rewrite Hslice, Hdata0, Z.sub_diag.
  destruct (Z.gtb_spec (len prefix + len chunk) (MessageSize config0)); [lia|].
  unfold complete.
  cbn [recv.fin recv.opcode recv.size recv.mask recv.seen recv.code recv.dmode
       recv.dsize recv.doffset recv.dlast recv.buffer recv.roffset recv.woffset
       recv.data recv.control recv.with_data recv.with_size recv.with_roffset].
  change (0 <=? 0) with true.
  assert (Hall : len (prefix ++ body) = len prefix + len chunk).
  { unfold len. rewrite length_app. lia. }
  rewrite Hall, Hdoffset.
  destruct (Z.geb_spec (len prefix + len chunk) (len prefix + len chunk)); [|lia].
  destruct (Z.leb_spec 0 (len prefix)); [|lia].
  destruct (Z.leb_spec (len prefix) (len prefix + len chunk)); [|lia].
  cbn [andb negb]. rewrite andb_false_r.
  assert (Hwhole : slice (prefix ++ body) (len prefix) (len prefix + len chunk) = body).
  { pose proof (slice_middle prefix body []) as Hmiddle.
    rewrite app_nil_r, Hlb in Hmiddle. exact Hmiddle. }
  rewrite Hwhole.
  assert (Hplain : (if negb (client r)
                    then splice (prefix ++ body) (len prefix)
                                (xor (if client r then recv.mask st else key) body)
                    else prefix ++ body) = prefix ++ chunk).
  { subst body. destruct (client r); cbn [negb]; [reflexivity|].
    rewrite xor_involutive by assumption.
    apply splice_end. symmetry. apply length_xor; assumption. }
  assert (Hafter : slice (recv.buffer st) (recv.roffset st + hl + len chunk)
                          (recv.woffset st) = more).
  { replace (recv.woffset st)
      with (recv.roffset st + (hl + len chunk + len more)) at 1 by lia.
    rewrite <- Z.add_assoc, frame_bytes_slice, Hfb by lia.
    rewrite (app_assoc head body).
    pose proof (slice_middle (head ++ body) more
                  (drop (Z.to_nat (recv.woffset st)) (recv.buffer st))) as Hmiddle.
    replace (len (head ++ body)) with (hl + len chunk) in Hmiddle
      by (subst hl; unfold len; rewrite length_app; lia).
    exact Hmiddle. }
  assert (Hempty : slice (recv.buffer st) 0 0 = []).
  { unfold slice. reflexivity. }
  assert (Hfin01 : fin = 0 \/ fin = 1) by lia.
  destruct (client r) eqn:Hclient; cbn [negb] in Hplain |- *;
    cbn [recv.fin recv.opcode recv.size recv.mask recv.seen recv.code recv.dmode
         recv.dsize recv.doffset recv.dlast recv.buffer recv.roffset recv.woffset
         recv.data recv.control recv.with_data recv.with_size recv.with_roffset
         recv.with_doffset];
    rewrite Hplain, Hdlast;
    (destruct Hfin01 as [-> | ->];
     [ change (0 =? 1) with false; cbn [andb]
     | change (1 =? 1) with true; cbn [andb];
       destruct ((mode =? WEBSOCKET_OPCODE_TEXT) && negb (utf8_Valid (prefix ++ chunk)));
       [ eexists; split; reflexivity | ] ]);
    unfold rewind;
    cbn [recv.fin recv.opcode recv.size recv.mask recv.seen recv.code recv.dmode
         recv.dsize recv.doffset recv.dlast recv.buffer recv.roffset recv.woffset
         recv.data recv.control recv.with_data recv.with_size recv.with_roffset
         recv.with_doffset recv.with_dmode recv.with_dsize recv.with_dlast];
    (destruct more as [|b more'];
     [ change (len []) with 0 in *;
       destruct (Z.geb_spec (recv.roffset st + hl + len chunk) (recv.woffset st)); [|lia]
     | assert (0 < len (b :: more')) by (unfold len; cbn [length]; lia);
       destruct (Z.geb_spec (recv.roffset st + hl + len chunk) (recv.woffset st)); [lia|] ]);
    eexists; (split; [reflexivity|]);
    unfold assembling, at_hand;
    cbn [recv.fin recv.opcode recv.size recv.mask recv.seen recv.code recv.dmode
         recv.dsize recv.doffset recv.dlast recv.buffer recv.roffset recv.woffset
         recv.data recv.control recv.with_data recv.with_size recv.with_roffset
         recv.with_woffset
         recv.with_doffset recv.with_dmode recv.with_dsize recv.with_dlast];
    change (len []) with 0;
    repeat split; try assumption; try lia;
    unfold len; rewrite length_app; lia.
Qed.

(** One round of [Write] on a socket whose writes succeed: the bytes of
    the frame it hands to the stream. *)
Lemma Write_round_frame fragment frames frame mode s (data : list Z) :
  let offset := (frame - 1) * fragment in
  let size := if frame =? frames then len data - offset else fragment in
  let chunk := slice data offset (offset + size) in
  reliable s -> 0 <= offset -> 0 <= size -> offset + size <= len data ->
  len data < 2^63 -> 0 <= mode < 16 -> Forall byte_ok data ->
  exists s' payload,
    Write_round fragment (len data) frames frame mode s data
    = (s', data, if frame >? 1 then 0 else mode, false) /\
    reliable s' /\ client s' = client s /\
    log s' = log s ++ [Written payload] /\
    concat payload
    = frame_head (client s) (if frame =? frames then 1 else 0)
                 (if frame >? 1 then 0 else mode) size (fst (rmask s))
      ++ (if client s then xor (fst (rmask s)) chunk else chunk).
Proof.
  cbn zeta. intros Hrel Hlo Hsize Hhi Hint Hmode Hd. unfold Write_round.
  assert (Hfirst : forall fin : bool,
             Z.lor (if fin then WEBSOCKET_FIN else 0) (if frame >? 1 then 0 else mode)
             = 128 * (if fin then 1 else 0) + (if frame >? 1 then 0 else mode)).
  { intros [|]; [|rewrite Z.lor_0_l; lia].
    rewrite Z.lor_comm. apply lor_mask. destruct (frame >? 1); lia. }
  unfold frame_head, length_field.
  destruct (frame =? frames);
    [ specialize (Hfirst true) | specialize (Hfirst false) ];
    cbn iota in Hfirst; rewrite Hfirst;
    match goal with
    | |- context [if ?sz <? 126 then _ else _] =>
        destruct (Z.ltb_spec sz 126); [| destruct (Z.ltb_spec sz 65536)]
    end;
    cbn [fst snd];
    (destruct (client s) eqn:Ecl;
     [ pose proof (rmask_bytes s) as [Hm _];
       destruct (rmask_reliable s Hrel) as (Hrel1 & Hcl1 & Hlog1);
       destruct (rmask s) as [mask s1]; cbn [fst snd] in Hm, Hrel1, Hcl1, Hlog1 |- *;
       match goal with
       | |- context [send s1 ?payload] =>
           destruct (send_reliable s1 payload Hrel1) as (s2 & Hsend & Hrel2 & Hcl2 & Hlog2);
           rewrite Hsend; exists s2, payload
       end;
       match goal with
       | |- context [splice data ?lo (xor mask (slice data ?lo ?hi))] =>
           destruct (masked_in_place data mask lo (hi - lo)
                       ltac:(lia) ltac:(lia) ltac:(lia) Hm Hd) as [Hread Hback];
           replace (lo + (hi - lo)) with hi in Hread, Hback by lia
       end;
       repeat split;
       [ rewrite Hback; reflexivity
       | apply Hrel2 | apply Hrel2 | congruence | congruence
       | rewrite Hread; cbn [concat app]; rewrite ?app_nil_r, <- ?app_assoc; cbn [app];
         rewrite ?Z.mod_small by lia; rewrite ?Z.lor_0_l, ?lor_mask by lia;
         reflexivity ]
     | match goal with
       | |- context [send s ?payload] =>
           destruct (send_reliable s payload Hrel) as (s2 & Hsend & Hrel2 & Hcl2 & Hlog2);
           rewrite Hsend; exists s2, payload
       end;
       repeat split;
       [ apply Hrel2 | apply Hrel2 | congruence | congruence
       | cbn [concat app]; rewrite ?app_nil_r, <- ?app_assoc; cbn [app];
         rewrite ?Z.mod_small by lia; rewrite ?Z.lor_0_l;
         reflexivity ] ]).
Qed.

Lemma slice_app (data : list Z) a b :
  0 <= a <= b -> slice data 0 a ++ slice data a b = slice data 0 b.
Proof.
  intros Hab. unfold slice. change (Z.to_nat 0) with 0%nat. rewrite !drop_0, !Z.sub_0_r.
  rewrite take_take_drop. f_equal. lia.
Qed.

Lemma frame_head_not_nil masked fin opcode n key rest :
  frame_head masked fin opcode n key ++ rest <> [].
Proof. unfold frame_head. cbn [app]. discriminate. Qed.

(** The rounds of [Write] from frame [frame] on, and the rounds of the
    frame loop of the peer on the frames they write. *)
Lemma Write_loop_received utf8_Valid config0 fragment frames mode0
      (data : list Z) (r : Socket) :
  0 < fragment -> (frames - 1) * fragment < len data <= frames * fragment ->
  Forall byte_ok data -> len data < 2^63 -> len data <= MessageSize config0 ->
  mode0 = WEBSOCKET_OPCODE_TEXT \/ mode0 = WEBSOCKET_OPCODE_BLOB ->
  forall (n : nat) frame mode w,
    reliable w -> client r = negb (client w) ->
    1 <= frame -> Z.of_nat n = frames - frame + 1 -> (1 <= n)%nat ->
    0 <= mode < 16 -> (frame = 1 -> mode = mode0) ->
    exists w' payloads,
      Write_loop n fragment (len data) frames frame mode w data = (w', data, false) /\
      log w' = log w ++ (Written <$> payloads) /\
      length payloads = n /\
      concat (concat payloads) <> [] /\
      forall st more (fuel : nat),
        assembling st (if frame =? 1 then 0 else mode0)
                   (slice data 0 ((frame - 1) * fragment)) ->
        at_hand st (concat (concat payloads) ++ more) ->
        exists st',
          if (mode0 =? WEBSOCKET_OPCODE_TEXT) && negb (utf8_Valid data) then
            frame_loop (n + fuel) utf8_Valid config0 r st = Some (Exit Invalid (r, st')) /\
            recv.code st' = WEBSOCKET_ERROR_INVALID
          else
            frame_loop (n + fuel) utf8_Valid config0 r st
            = (let r' := if MessageHandler config0
                         then record (OnMessage mode0 data) r else r in
               match more with
               | [] => Some (Break (r', st'))
               | _ => frame_loop fuel utf8_Valid config0 r' st'
               end) /\
            idle st' /\ at_hand st' more.
Proof.
  intros Hf Hb Hd Hint Hfit Hmode0.
  induction n as [|n IH]; intros frame mode w Hrel Hrole Hfr Hn Hpos Hmode Hfirst; [lia|].
  cbn [Write_loop]. destruct (Z.leb_spec frame frames) as [Hle|Hgt]; [|lia].
  destruct (round_bounds fragment frames frame data Hf ltac:(lia) Hb) as (Ho & Hs & Hh).
  destruct (Write_round_frame fragment frames frame mode w data Hrel
              ltac:(lia) ltac:(lia) Hh Hint Hmode Hd)
    as (w1 & p & Hround & Hrel1 & Hcl1 & Hlog1 & Hbytes).
  rewrite Hround.
  set (offset := (frame - 1) * fragment) in *.
  set (size := if frame =? frames then len data - offset else fragment) in *.
  set (chunk := slice data offset (offset + size)) in *.
  set (key := fst (rmask w)) in *.
  destruct (rmask_bytes w) as [Hkey Hkey4]. fold key in Hkey, Hkey4.
  assert (Hchunk : len chunk = size).
  { subst chunk. unfold len at 1. rewrite length_slice by lia. lia. }
  assert (Hprefix : len (slice data 0 offset) = offset).
  { unfold len at 1. rewrite length_slice by lia. lia. }
  assert (Hjoin : slice data 0 offset ++ chunk = slice data 0 (offset + size)).
  { subst chunk. apply slice_app. lia. }
  assert (Hround_r : forall st more,
             assembling st (if frame =? 1 then 0 else mode0) (slice data 0 offset) ->
             at_hand st (concat p ++ more) ->
             exists st',
               if (frame =? frames)
                  && ((mode0 =? WEBSOCKET_OPCODE_TEXT)
                      && negb (utf8_Valid (slice data 0 (offset + size))))
               then
                 frame_round utf8_Valid config0 r st = Exit Invalid (r, st') /\
                 recv.code st' = WEBSOCKET_ERROR_INVALID
               else
                 frame_round utf8_Valid config0 r st
                 = (match more with [] => Break | _ => Next end)
                     (if (frame =? frames) && MessageHandler config0
                      then record (OnMessage mode0 (slice data 0 (offset + size))) r
                      else r,
                      st') /\
                 (if frame =? frames then assembling st' 0 []
                  else assembling st' mode0 (slice data 0 (offset + size))) /\
                 at_hand st' more).
  { intros st more Hst Hhand.
    rewrite Hbytes, <- Hchunk, <- app_assoc in Hhand.
    assert (Hw : client w = negb (client r))
      by (rewrite Hrole, Bool.negb_involutive; reflexivity).
    rewrite Hw in Hhand.
    replace (if negb (client r) then xor key chunk else chunk)
      with (if client r then chunk else xor key chunk) in Hhand
      by (destruct (client r); reflexivity).
    destruct (frame_round_fragment utf8_Valid config0 r st
                (if frame =? 1 then 0 else mode0) mode0
                (if frame =? frames then 1 else 0)
                (if frame >? 1 then 0 else mode) key
                (slice data 0 offset) chunk more Hst Hhand)
      as (st' & Hrun); try assumption.
    - destruct (frame =? frames); lia.
    - destruct (Z.eqb_spec frame 1) as [->|Hne].
      + left. split; [reflexivity|]. change (1 >? 1) with false. cbn iota. auto.
      + right. split; [reflexivity|]. left.
        destruct (Z.gtb_spec frame 1); [reflexivity|lia].
    - replace ((if frame >? 1 then 0 else mode) <=? WEBSOCKET_OPCODE_BLOB) with true; [lia|].
      symmetry. apply Z.leb_le. unfold WEBSOCKET_OPCODE_BLOB, WEBSOCKET_OPCODE_TEXT in *.
      destruct (Z.gtb_spec frame 1); [lia|]. rewrite Hfirst by lia. lia.
    - lia.
    - lia.
    - subst chunk. apply Forall_slice. assumption.
    - exists st'. rewrite Hjoin in Hrun.
      destruct (frame =? frames);
        [ change (1 =? 1) with true in Hrun | change (0 =? 1) with false in Hrun ];
        cbn [andb] in Hrun |- *; exact Hrun. }
  destruct n as [|n].
  - (* the final frame *)
    assert (Hlast : frame = frames) by lia.
    exists w1, [p]. cbn [Write_loop].
    split; [reflexivity|]. split; [rewrite Hlog1; reflexivity|].
    split; [reflexivity|].
    split; [cbn [concat]; rewrite !app_nil_r, Hbytes; apply frame_head_not_nil|].
    intros st more fuel Hst Hhand.
    cbn [concat] in Hhand. rewrite !app_nil_r in Hhand.
    destruct (Hround_r st more Hst Hhand) as (st' & Hrun).
    exists st'. destruct (Z.eqb_spec frame frames); [|lia].
    subst size. replace (offset + (len data - offset)) with (len data) in Hrun by lia.
    rewrite slice_all in Hrun. cbn [andb] in Hrun.
    destruct ((mode0 =? WEBSOCKET_OPCODE_TEXT) && negb (utf8_Valid data)).
    + destruct Hrun as [Hrun Hcode]. split; [|assumption].
      cbn [Nat.add frame_loop]. rewrite Hrun. reflexivity.
    + destruct Hrun as (Hrun & Hst' & Hhand'). split; [|split; assumption].
      cbn [Nat.add frame_loop]. rewrite Hrun. cbn zeta.
      destruct more; reflexivity.
  - (* a frame that is not the last *)
    assert (Hmore : frame < frames) by lia.
    destruct (IH (frame + 1) (if frame >? 1 then 0 else mode) w1 Hrel1
                 ltac:(congruence) ltac:(lia) ltac:(lia) ltac:(lia)
                 ltac:(destruct (frame >? 1); lia) ltac:(lia))
      as (w2 & ps & Hloop & Hlog2 & Hcount & Hsome & Hrest).
    rewrite Hloop. exists w2, (p :: ps).
    split; [reflexivity|].
    split; [rewrite Hlog2, Hlog1, <- app_assoc; reflexivity|].
    split; [cbn [length]; congruence|].
    split.
    { cbn [concat]. rewrite concat_app, Hbytes, <- app_assoc. apply frame_head_not_nil. }
    intros st more fuel Hst Hhand.
    cbn [concat] in Hhand. rewrite concat_app, <- app_assoc in Hhand.
    destruct (Hround_r st (concat (concat ps) ++ more) Hst Hhand) as (st1 & Hrun).
    destruct (Z.eqb_spec frame frames); [lia|]. cbn [andb] in Hrun.
    destruct Hrun as (Hrun & Hst1 & Hhand1).
    assert (Hnext : concat (concat ps) ++ more <> []).
    { intros Hnil. apply app_eq_nil in Hnil as [Hnil _]. contradiction. }
    destruct (concat (concat ps) ++ more) as [|b rest] eqn:Hlist; [contradiction|].
    rewrite <- Hlist in Hhand1.
    subst size. replace (offset + fragment) with ((frame + 1 - 1) * fragment) in Hst1
      by (subst offset; lia).
    replace (if frame + 1 =? 1 then 0 else mode0) with mode0 in Hrest
      by (destruct (Z.eqb_spec (frame + 1) 1); [lia|reflexivity]).
    destruct (Hrest st1 more fuel Hst1 Hhand1) as (st' & Hloop_r).
    exists st'.
    change (S (S n) + fuel)%nat with (S (S n + fuel)). cbn [frame_loop].
    rewrite Hrun. exact Hloop_r.
Qed.

(** X14. What [Write] sends, the receive loop of the peer delivers.  On a
    connected socket whose writes succeed, [Write] of a TEXT or BLOB
    message hands its frames to the stream; when these frames are at hand
    in the read buffer of the peer (a socket of the other role, between
    two messages, whose [MessageSize] admits the message; a TEXT message
    is valid UTF-8), in front of any further bytes [more], the frame loop
    takes one round per frame, invokes the MessageHandler once, with the
    opcode and the bytes of the call of [Write], unmasked and reassembled,
    and is between two messages again, at the start of [more]. *)
Theorem Write_is_received (utf8_Valid : list Z -> bool) (config0 cw : Config)
        (w r : Socket) (mode : Z) (data : list Z) :
  config w = Some cw -> 0 < FragmentSize cw -> reliable w ->
  mode = WEBSOCKET_OPCODE_TEXT \/ mode = WEBSOCKET_OPCODE_BLOB ->
  data <> [] -> Forall byte_ok data -> len data < 2^63 ->
  client r = negb (client w) -> len data <= MessageSize config0 ->
  (mode = WEBSOCKET_OPCODE_TEXT -> utf8_Valid data = true) ->
  exists w' payloads,
    Write w mode data = Returns (w', data, false) /\
    log w' = log w ++ (Written <$> payloads) /\
    forall st more (fuel : nat),
      idle st -> at_hand st (concat (concat payloads) ++ more) ->
      exists st',
        frame_loop (length payloads + fuel) utf8_Valid config0 r st
        = (let r' := if MessageHandler config0
                     then record (OnMessage mode data) r else r in
           match more with
           | [] => Some (Break (r', st'))
           | _ => frame_loop fuel utf8_Valid config0 r' st'
           end) /\
        idle st' /\ at_hand st' more.
Proof.
  intros Hcfg Hf Hrel Hmode Hne Hd Hint Hrole Hfit Hutf8. unfold Write. rewrite Hcfg.
  assert (Hlen : 0 < len data).
  { unfold len. destruct data; [congruence|]. cbn [length]. lia. }
  assert (Hvalid : ((mode =? WEBSOCKET_OPCODE_TEXT) || (mode =? WEBSOCKET_OPCODE_BLOB))
                   && (len data >? 0) = true).
  { destruct (Z.gtb_spec (len data) 0); [|lia].
    destruct Hmode as [-> | ->]; reflexivity. }
  rewrite Hvalid.
  destruct (Z.eqb_spec (FragmentSize cw) 0) as [Hz|_]; [lia|].
  fold (frames_of (len data) (FragmentSize cw)).
  pose proof (frames_of_bounds _ _ Hlen Hf) as Hb.
  set (frames := frames_of (len data) (FragmentSize cw)) in *.
  assert (Hpos : 1 <= frames) by nia.
  destruct (Write_loop_received utf8_Valid config0 (FragmentSize cw) frames mode data r
              Hf Hb Hd Hint Hfit Hmode
              (Z.to_nat frames) 1 mode w Hrel Hrole ltac:(lia) ltac:(lia) ltac:(lia))
    as (w' & ps & Hloop & Hlog & Hcount & _ & Hrecv).
  { unfold WEBSOCKET_OPCODE_TEXT, WEBSOCKET_OPCODE_BLOB in Hmode. lia. }
  { reflexivity. }
  rewrite Hloop. exists w', ps.
  split; [reflexivity|]. split; [assumption|].
  intros st more fuel Hidle Hhand. rewrite Hcount.
  assert (Hgood : (mode =? WEBSOCKET_OPCODE_TEXT) && negb (utf8_Valid data) = false).
  { destruct Hmode as [-> | ->]; [|reflexivity].
    rewrite Hutf8 by reflexivity. reflexivity. }
  destruct (Hrecv st more fuel) as (st' & Hrun); [|assumption|].
  - change (1 =? 1) with true. cbn iota.
    change ((1 - 1) * FragmentSize cw) with 0.
    replace (slice data 0 0) with (@nil Z) by reflexivity. exact Hidle.
  - rewrite Hgood in Hrun. exists st'. exact Hrun.
Qed.

Lemma Write_is_received_witness :
  exists w' payloads,
    Write small_server WEBSOCKET_OPCODE_TEXT example_bytes
    = Returns (w', example_bytes, false) /\
    log w' = log small_server ++ (Written <$> payloads) /\
    forall st more (fuel : nat),
      idle st -> at_hand st (concat (concat payloads) ++ more) ->
      exists st',
        frame_loop (length payloads + fuel) (fun _ => true) example_config
                   example_client st
        = (let r' := if MessageHandler example_config
                     then record (OnMessage WEBSOCKET_OPCODE_TEXT example_bytes)
                                 example_client
                     else example_client in
           match more with
           | [] => Some (Break (r', st'))
           | _ => frame_loop fuel (fun _ => true) example_config r' st'
           end) /\
        idle st' /\ at_hand st' more.
Proof.
  apply (Write_is_received (fun _ => true) example_config small_config
           small_server example_client WEBSOCKET_OPCODE_TEXT example_bytes).
  - reflexivity.
  - reflexivity.
  - split; [reflexivity|]. constructor.
  - left. reflexivity.
  - discriminate.
  - exact example_bytes_ok.
  - reflexivity.
  - reflexivity.
  - cbv. discriminate.
  - reflexivity.
Defined.

(** The three frames that a server with fragments of 4 bytes writes for
    11 bytes, read by a client. *)
Example fragments_reassembled_by_the_peer :
  match Write small_server WEBSOCKET_OPCODE_TEXT example_bytes with
  | Returns (w', _, _) =>
      length (wire w') = 3%nat /\
      match frame_loop 3 (fun _ => true) example_config example_client
                       (example_state (concat (concat (wire w')))) with
      | Some (Break (r', st')) =>
          log r' = [OnMessage WEBSOCKET_OPCODE_TEXT example_bytes] /\
          recv.data st' = [] /\ recv.roffset st' = 0 /\ recv.woffset st' = 0
      | _ => False
      end
  | Panics => False
  end.
Proof. vm_compute. repeat split; reflexivity. Qed.

(** A control frame that is wholly at hand between two messages, up to
    the point where lines 586-606 look at its opcode: the header is
    latched, the payload is read and unmasked. *)
Lemma control_frame_read utf8_Valid config0 (r : Socket) (st : recv.state)
      (opcode : Z) (key p more : list Z) :
  idle st ->
  at_hand st (frame_head (negb (client r)) 1 opcode (len p) key
              ++ (if client r then p else xor key p) ++ more) ->
  control_opcode opcode -> len p <= 125 -> len p <= MessageSize config0 ->
  Forall byte_ok p -> Forall byte_ok key -> length key = 4%nat ->
  exists st1,
    frame_round utf8_Valid config0 r st
    = (if opcode =? WEBSOCKET_OPCODE_CLOSE then
         Exit PeerClosed
              (r, if len p >=? 2 then recv.with_code (Uint16 p) st1 else st1)
       else
         match
           (if opcode =? WEBSOCKET_OPCODE_PING then
              let first := Z.lor WEBSOCKET_FIN WEBSOCKET_OPCODE_PONG in
              let second := len p `mod` 256 in
              let '(payload, s, st2) :=
                if client r then
                  let '(key', s') := rmask r in
                  ([[first; Z.lor second WEBSOCKET_MASK]; key'; xor key' p], s',
                   recv.with_control (xor key' p) st1)
                else ([[first; second]; p], r, st1) in
              let '(s, err) := send s payload in
              if err then Exit SendFailed (s, st2)
              else Next (s, recv.with_control [] (recv.with_size (-1) st2))
            else Next (r, recv.with_control [] (recv.with_size (-1) st1)))
         with
         | Next (s, st) =>
             match rewind st with
             | Next st => Next (s, st)
             | Break st => Break (s, st)
             | Exit why st => Exit why (s, st)
             | Panic => Panic
             end
         | other => other
         end) /\
    recv.size st1 = 0 /\ recv.control st1 = p /\ recv.code st1 = recv.code st /\
    recv.dmode st1 = 0 /\ recv.dsize st1 = 0 /\ recv.doffset st1 = 0 /\
    recv.dlast st1 = false /\ recv.data st1 = [] /\ length (recv.mask st1) = 4%nat /\
    recv.buffer st1 = recv.buffer st /\ recv.woffset st1 = recv.woffset st /\
    0 <= recv.roffset st1 /\ recv.roffset st1 + len more = recv.woffset st /\
    slice (recv.buffer st) (recv.roffset st1) (recv.woffset st) = more.
Proof.
  intros (Hsize & Hdmode & Hdsize & Hdoffset & Hdlast & Hdata0 & Hcontrol & Hmask)
         Hhand Hop Hshort Hfit Hp Hkey Hkey4.
  set (body := if client r then p else xor key p) in *.
  assert (Hbody : length body = length p).
  { subst body. destruct (client r); [reflexivity|]. apply length_xor; assumption. }
  assert (Hlb : len body = len p) by (unfold len; lia).
  assert (Hlen : 0 <= len p) by (unfold len; lia).
  assert (Hmore : 0 <= len more) by (unfold len; lia).
  destruct (window_bytes st _ Hhand) as [Hfb Havail].
  destruct Hhand as (Hr & Hw & Hbytes).
  rewrite <- !app_assoc in Hfb.
  set (head := frame_head (negb (client r)) 1 opcode (len p) key) in *.
  set (hl := len head) in *.
  assert (Hhl : 0 <= hl) by (subst hl; unfold len; lia).
  assert (Hroom : recv.woffset st - recv.roffset st = hl + len p + len more).
  { rewrite Havail. subst hl. unfold len. rewrite !length_app, Hbody. lia. }
  clear Havail.
  assert (Hcodes : opcode = 8 \/ opcode = 9 \/ opcode = 10) by exact Hop.
  assert (Hdm : (if (opcode =? WEBSOCKET_OPCODE_TEXT) || (opcode =? WEBSOCKET_OPCODE_BLOB)
                 then opcode else recv.dmode st) = 0).
  { rewrite Hdmode. destruct Hcodes as [-> | [-> | ->]]; reflexivity. }
  unfold frame_round.
  rewrite (header_latches r config0 st 1 opcode (len p) key
             (body ++ more ++ drop (Z.to_nat (recv.woffset st)) (recv.buffer st))
             Hsize ltac:(lia) Hmask Hkey4 ltac:(lia)); [ | | | | exact Hfb | | ].
  2: { unfold known_opcode. auto. }
  2: { reflexivity. }
  2: { lia. }
  2: { fold head. fold hl. lia. }
  2: { unfold oversized.
       cbn [recv.fin recv.opcode recv.size recv.with_size recv.with_opcode recv.with_fin].
       destruct (Z.gtb_spec (len p) 125); [lia|].
       destruct (Z.gtb_spec (len p) (MessageSize config0)); [lia|].
       rewrite !andb_false_r, orb_false_r.
       unfold WEBSOCKET_OPCODE_BLOB.
       destruct (Z.leb_spec opcode 2); [lia|]. reflexivity. }
  cbn zeta. fold head. fold hl. rewrite Hdm. change (negb (0 =? 0)) with false.
  cbn [andb].
  unfold payload. cbn [recv.size recv.dmode].
  destruct (Z.geb_spec (len p) 0); [|lia]. change (negb (0 =? 0)) with false. cbn iota.
  unfold control_frame.
  cbn [recv.fin recv.opcode recv.size recv.mask recv.seen recv.code recv.dmode
       recv.dsize recv.doffset recv.dlast recv.buffer recv.roffset recv.woffset
       recv.data recv.control recv.with_control recv.with_size recv.with_roffset].
  assert (Hslice : slice (recv.buffer st) (recv.roffset st + hl)
                          (recv.roffset st + hl + len p) = body).
  { rewrite <- Z.add_assoc, frame_bytes_slice, Hfb by lia.
    pose proof (slice_middle head body
                  (more ++ drop (Z.to_nat (recv.woffset st)) (recv.buffer st)))
      as Hmiddle.
    rewrite Hlb in Hmiddle. exact Hmiddle. }
  assert (Hafter : slice (recv.buffer st) (recv.roffset st + hl + len p)
                          (recv.woffset st) = more).
  { replace (recv.woffset st)
      with (recv.roffset st + (hl + len p + len more)) at 1 by lia.
    rewrite <- Z.add_assoc, frame_bytes_slice, Hfb by lia.
    rewrite (app_assoc head body).
    pose proof (slice_middle (head ++ body) more
                  (drop (Z.to_nat (recv.woffset st)) (recv.buffer st))) as Hmiddle.
    replace (len (head ++ body)) with (hl + len p) in Hmiddle
      by (subst hl; unfold len; rewrite length_app; lia).
    exact Hmiddle. }
  rewrite (Z.min_r _ (len p)) by lia. rewrite Hslice, Hcontrol, Z.sub_diag.
  cbn [app]. change (0 <=? 0) with true. cbn iota.
  assert (Hplain : (if client r then body else xor key body) = p).
  { subst body. destruct (client r); [reflexivity|].
    apply xor_involutive; assumption. }
  destruct (client r) eqn:Hclient; cbn [negb]; cbn iota; rewrite Hplain;
    exists (recv.mk 1 opcode 0 (if client r then recv.mask st else key)
                    (recv.seen st) (recv.code st) 0 (recv.dsize st) (recv.doffset st)
                    (recv.dlast st) (recv.buffer st) (recv.roffset st + hl + len p)
                    (recv.woffset st) (recv.data st) p);
    rewrite Hclient;
    (split;
     [ cbn [recv.opcode recv.with_control recv.with_size recv.with_roffset];
       destruct (opcode =? WEBSOCKET_OPCODE_CLOSE);
       [|destruct (opcode =? WEBSOCKET_OPCODE_PING)]; reflexivity |]);
    cbn [recv.fin recv.opcode recv.size recv.mask recv.seen recv.code recv.dmode
         recv.dsize recv.doffset recv.dlast recv.buffer recv.roffset recv.woffset
         recv.data recv.control recv.with_control recv.with_size recv.with_roffset];
    repeat split; try assumption; try lia.
Qed.

(** Lines 611-614 behind a frame: the bytes [more] that follow it are at
    hand, at the start of the buffer when there are none. *)
Lemma rewind_at_hand (st : recv.state) (more : list Z) :
  0 <= recv.roffset st -> recv.roffset st + len more = recv.woffset st ->
  recv.woffset st <= len (recv.buffer st) ->
  slice (recv.buffer st) (recv.roffset st) (recv.woffset st) = more ->
  exists st',
    rewind st = (match more with [] => Break | _ => Next end) st' /\
    at_hand st' more /\
    forall mode prefix, assembling st mode prefix -> assembling st' mode prefix.
Proof.
  intros Hr Hlen Hw Hslice. unfold rewind.
  destruct more as [|b more'].
  - change (len []) with 0 in Hlen.
    destruct (Z.geb_spec (recv.roffset st) (recv.woffset st)); [|lia].
    eexists. split; [reflexivity|]. split.
    + unfold at_hand. cbn [recv.roffset recv.woffset recv.buffer recv.with_roffset
                             recv.with_woffset].
      unfold len. repeat split; try lia.
    + intros mode prefix Hst. exact Hst.
  - assert (0 < len (b :: more')) by (unfold len; cbn [length]; lia).
    destruct (Z.geb_spec (recv.roffset st) (recv.woffset st)); [lia|].
    exists st. split; [reflexivity|]. split; [|auto].
    unfold at_hand. repeat split; try assumption; lia.
Qed.

(** X15. A CLOSE frame that [Close] has sent, at hand in the read buffer of
    the peer between two messages: the frame loop of the peer leaves with
    the code of the call ([code mod 65536], the 16 bits the frame carries);
    a CLOSE frame for code 0 has no payload and leaves the code of the
    loop as it is.  ([receive] then calls [Close] with that code.) *)
Theorem Close_frame_is_received (utf8_Valid : list Z -> bool) (config0 : Config)
        (s r : Socket) (code : Z) (st : recv.state) (more : list Z) :
  client r = negb (client s) -> 2 <= MessageSize config0 -> idle st ->
  at_hand st (concat (fst (Close_payload s code)) ++ more) ->
  exists st',
    frame_round utf8_Valid config0 r st = Exit PeerClosed (r, st') /\
    recv.code st' = (if code =? 0 then recv.code st else code `mod` 65536).
Proof.
  intros Hrole Hfit Hidle Hhand.
  destruct (rmask_bytes s) as [Hkey Hkey4].
  set (key := fst (rmask s)) in *.
  set (p := if code =? 0 then [] else PutUint16 (code `mod` 65536)).
  assert (Hp : Forall byte_ok p).
  { subst p. destruct (code =? 0); [constructor|].
    unfold PutUint16. repeat constructor; rewrite land_255; apply Z.mod_pos_bound; lia. }
  assert (Hlen : len p = if code =? 0 then 0 else 2).
  { subst p. destruct (code =? 0); reflexivity. }
  assert (Hbytes : concat (fst (Close_payload s code))
                   = frame_head (negb (client r)) 1 WEBSOCKET_OPCODE_CLOSE (len p) key
                     ++ (if client r then p else xor key p)).
  { rewrite Hrole, Bool.negb_involutive, Hlen. unfold Close_payload, frame_head, length_field.
    subst p key. unfold rmask.
    destruct (client s), (code =? 0); cbn [negb fst snd concat app]; reflexivity. }
  rewrite Hbytes, <- app_assoc in Hhand.
  destruct (control_frame_read utf8_Valid config0 r st WEBSOCKET_OPCODE_CLOSE key p more
              Hidle Hhand)
    as (st1 & Hrun & _ & _ & Hcode & _); try assumption.
  - left. reflexivity.
  - rewrite Hlen. destruct (code =? 0); lia.
  - rewrite Hlen. destruct (code =? 0); lia.
  - change (WEBSOCKET_OPCODE_CLOSE =? WEBSOCKET_OPCODE_CLOSE) with true in Hrun.
    cbn iota in Hrun. eexists. split; [exact Hrun|].
    rewrite Hlen. subst p. destruct (code =? 0); cbn [Z.geb Z.compare];
      cbn [recv.code recv.with_code]; [assumption|].
    rewrite <- (app_nil_r (PutUint16 _)). apply Uint16_PutUint16.
    apply Z.mod_pos_bound. lia.
Qed.

Lemma Close_frame_is_received_witness :
  exists st',
    frame_round (fun _ => true) example_config example_client
                (example_state (concat (fst (Close_payload small_server 1001))))
    = Exit PeerClosed (example_client, st') /\
    recv.code st'
    = (if 1001 =? 0
       then recv.code (example_state (concat (fst (Close_payload small_server 1001))))
       else 1001 `mod` 65536).
Proof.
  apply (Close_frame_is_received (fun _ => true) example_config small_server
           example_client 1001 _ []).
  - reflexivity.
  - cbv. discriminate.
  - unfold idle, assembling. cbn. repeat split; lia.
  - unfold at_hand. vm_compute. repeat split; discriminate.
Defined.

(** X16. A PING frame of the peer, wholly at hand between two messages, is
    answered at once with a PONG frame that carries the payload of the
    PING (masked with a fresh key by a client); a PONG frame of the peer
    is dropped.  Neither reaches a handler, and the loop is between two
    messages again, at the bytes [more] that follow the frame.  The frame
    is given by its bytes: FIN and opcode, the length with the MASK bit a
    server expects, the key and the masked payload for a server, the plain
    payload for a client. *)
Theorem PING_is_answered (utf8_Valid : list Z -> bool) (config0 : Config)
        (r : Socket) (st : recv.state) (opcode : Z) (key p more : list Z) :
  idle st -> connected r = true -> write_fails r = false ->
  opcode = WEBSOCKET_OPCODE_PING \/ opcode = WEBSOCKET_OPCODE_PONG ->
  len p <= 125 -> len p <= MessageSize config0 ->
  Forall byte_ok p -> Forall byte_ok key -> length key = 4%nat ->
  at_hand st ([128 + opcode; (if client r then 0 else 128) + len p]
              ++ (if client r then p else key ++ xor key p) ++ more) ->
  exists r' st',
    frame_round utf8_Valid config0 r st
    = (match more with [] => Break | _ => Next end) (r', st') /\
    log r'
    = log r ++ (if opcode =? WEBSOCKET_OPCODE_PING
                then [Written (if client r
                               then [[138; 128 + len p]; fst (rmask r);
                                     xor (fst (rmask r)) p]
                               else [[138; len p]; p])]
                else []) /\
    connected r' = true /\ idle st' /\ at_hand st' more.
Proof.
  intros Hidle Hc Hf Hop Hshort Hfit Hp Hkey Hkey4 Hhand.
  assert (Hlen : 0 <= len p) by (unfold len; lia).
  assert (Hbytes : [128 + opcode; (if client r then 0 else 128) + len p]
                   ++ (if client r then p else key ++ xor key p) ++ more
                   = frame_head (negb (client r)) 1 opcode (len p) key
                     ++ (if client r then p else xor key p) ++ more).
  { unfold frame_head, length_field.
    destruct (Z.ltb_spec (len p) 126); [|lia].
    destruct (client r); cbn [negb fst snd app]; rewrite <- ?app_assoc; reflexivity. }
  rewrite Hbytes in Hhand.
  destruct (control_frame_read utf8_Valid config0 r st opcode key p more Hidle Hhand)
    as (st1 & Hrun & Hsize1 & Hcontrol1 & Hcode1 & Hdmode1 & Hdsize1 & Hdoffset1
        & Hdlast1 & Hdata1 & Hmask1 & Hbuffer1 & Hw1 & Hr1 & Hmore1 & Hslice1);
    try assumption.
  { destruct Hop as [-> | ->]; [right; left | right; right]; reflexivity. }
  destruct Hhand as (_ & Hw & _).
  replace (opcode =? WEBSOCKET_OPCODE_CLOSE) with false in Hrun
    by (destruct Hop as [-> | ->]; reflexivity).
  assert (Hsend : forall s payload,
             connected s = true -> faults s = faults r ->
             send s payload = (fst (WriteTo s payload), false) /\
             log (fst (WriteTo s payload)) = log s ++ [Written payload] /\
             connected (fst (WriteTo s payload)) = true).
  { intros s payload Hcs Hfs. unfold send, WriteTo, write_fails in *.
    rewrite Hcs, Hfs. cbn [negb].
    destruct (faults r) as [|[] rest]; try discriminate; repeat split; assumption. }
  assert (Hready : forall st2,
             recv.roffset st2 = recv.roffset st1 -> recv.woffset st2 = recv.woffset st ->
             recv.buffer st2 = recv.buffer st -> recv.dmode st2 = 0 ->
             recv.dsize st2 = 0 -> recv.doffset st2 = 0 -> recv.dlast st2 = false ->
             recv.data st2 = [] -> length (recv.mask st2) = 4%nat ->
             exists st',
               rewind (recv.with_control [] (recv.with_size (-1) st2))
               = (match more with [] => Break | _ => Next end) st' /\
               idle st' /\ at_hand st' more).
  { intros st2 E1 E2 E3 E4 E5 E6 E7 E8 E9.
    destruct (rewind_at_hand (recv.with_control [] (recv.with_size (-1) st2)) more)
      as (st' & Hrewind & Hhand' & Hkeep);
      cbn [recv.roffset recv.woffset recv.buffer recv.with_control recv.with_size];
      rewrite ?E1, ?E2, ?E3; try assumption.
    exists st'. split; [exact Hrewind|]. split; [|assumption].
    apply Hkeep. unfold assembling.
    cbn [recv.size recv.dmode recv.dsize recv.doffset recv.dlast recv.data recv.control
         recv.mask recv.with_control recv.with_size].
    change (len []) with 0. repeat split; try assumption; lia. }
  destruct Hop as [-> | ->].
  - (* PING *)
    change (WEBSOCKET_OPCODE_PING =? WEBSOCKET_OPCODE_PING) with true in Hrun |- *.
    cbn iota zeta in Hrun |- *.
    rewrite Z.mod_small in Hrun by lia.
    destruct (client r) eqn:Hclient.
    + destruct (rmask r) as [key' r1] eqn:Hrmask. cbn [fst].
      assert (Hsame : connected r1 = true /\ faults r1 = faults r /\ log r1 = log r).
      { unfold rmask in Hrmask. injection Hrmask as _ <-. repeat split. assumption. }
      destruct Hsame as (Hc1 & Hf1 & Hl1).
      match type of Hrun with
      | context [send r1 ?payload] =>
          destruct (Hsend r1 payload Hc1 Hf1) as (Hs & Hlog & Hconn); rewrite Hs in Hrun
      end.
      destruct (Hready (recv.with_control (xor key' p) st1)) as (st' & Hrewind & Hst' & Hhand');
        try assumption; try reflexivity.
      rewrite Hrewind in Hrun. eexists. exists st'.
      split; [rewrite Hrun; destruct more; reflexivity|].
      split; [|auto].
      rewrite Hlog, Hl1, lor_mask by lia. reflexivity.
    + match type of Hrun with
      | context [send r ?payload] =>
          destruct (Hsend r payload Hc eq_refl) as (Hs & Hlog & Hconn); rewrite Hs in Hrun
      end.
      destruct (Hready st1) as (st' & Hrewind & Hst' & Hhand');
        try assumption; try reflexivity.
      rewrite Hrewind in Hrun. eexists. exists st'.
      split; [rewrite Hrun; destruct more; reflexivity|].
      split; [|auto].
      rewrite Hlog. reflexivity.
  - (* PONG *)
    change (WEBSOCKET_OPCODE_PONG =? WEBSOCKET_OPCODE_PING) with false in Hrun |- *.
    cbn iota in Hrun |- *.
    destruct (Hready st1) as (st' & Hrewind & Hst' & Hhand');
      try assumption; try reflexivity.
    rewrite Hrewind in Hrun. exists r, st'.
    split; [rewrite Hrun; destruct more; reflexivity|].
    split; [rewrite app_nil_r; reflexivity|]. auto.
Qed.

Lemma PING_is_answered_witness :
  exists r' st',
    frame_round (fun _ => true) example_config example_client
                (example_state ([128 + WEBSOCKET_OPCODE_PING;
                                 (if client example_client then 0 else 128)
                                 + len example_bytes]
                                ++ (if client example_client then example_bytes
                                    else [1; 2; 3; 4] ++ xor [1; 2; 3; 4] example_bytes)
                                ++ []))
    = Break (r', st') /\
    log r'
    = log example_client
      ++ (if WEBSOCKET_OPCODE_PING =? WEBSOCKET_OPCODE_PING
          then [Written (if client example_client
                         then [[138; 128 + len example_bytes]; fst (rmask example_client);
                               xor (fst (rmask example_client)) example_bytes]
                         else [[138; len example_bytes]; example_bytes])]
          else []) /\
    connected r' = true /\ idle st' /\ at_hand st' [].
Proof.
  apply (PING_is_answered (fun _ => true) example_config example_client _
           WEBSOCKET_OPCODE_PING [1; 2; 3; 4] example_bytes []).
  - unfold idle, assembling. cbn. repeat split; lia.
  - reflexivity.
  - reflexivity.
  - left. reflexivity.
  - cbv. discriminate.
  - cbv. discriminate.
  - exact example_bytes_ok.
  - repeat constructor; unfold byte_ok; lia.
  - reflexivity.
  - unfold at_hand. vm_compute. repeat split; discriminate.
Defined.

(** X17. A control frame between the fragments of a message is taken for
    the last fragment.  While a TEXT or BLOB message is in assembly
    ([prefix] received so far), a PING, PONG or CLOSE frame of the peer
    that is wholly at hand is not handled as a control frame: nothing is
    written (a PING gets no PONG) and a CLOSE does not end the session;
    its payload is appended to [prefix] and the result is handed to the
    MessageHandler as the whole message.  The loop is between two
    messages after it, so the fragments that follow are not part of the
    message any more. *)
Theorem control_frame_cuts_message (utf8_Valid : list Z -> bool) (config0 : Config)
        (r : Socket) (st : recv.state) (mode opcode : Z)
        (key prefix p more : list Z) :
  assembling st mode prefix ->
  mode = WEBSOCKET_OPCODE_TEXT \/ mode = WEBSOCKET_OPCODE_BLOB ->
  control_opcode opcode -> len p <= 125 ->
  len prefix + len p <= MessageSize config0 -> len prefix + len p < 2^63 ->
  Forall byte_ok p -> Forall byte_ok key -> length key = 4%nat ->
  (mode = WEBSOCKET_OPCODE_TEXT -> utf8_Valid (prefix ++ p) = true) ->
  at_hand st ([128 + opcode; (if client r then 0 else 128) + len p]
              ++ (if client r then p else key ++ xor key p) ++ more) ->
  exists st',
    frame_round utf8_Valid config0 r st
    = (match more with [] => Break | _ => Next end)
        (if MessageHandler config0
         then record (OnMessage mode (prefix ++ p)) r else r, st') /\
    idle st' /\ at_hand st' more.
Proof.
  intros Hst Hmode Hop Hshort Hfit Hint Hp Hkey Hkey4 Hutf8 Hhand.
  assert (Hlen : 0 <= len p) by (unfold len; lia).
  assert (Hbytes : [128 + opcode; (if client r then 0 else 128) + len p]
                   ++ (if client r then p else key ++ xor key p) ++ more
                   = frame_head (negb (client r)) 1 opcode (len p) key
                     ++ (if client r then p else xor key p) ++ more).
  { unfold frame_head, length_field.
    destruct (Z.ltb_spec (len p) 126); [|lia].
    destruct (client r); cbn [negb fst snd app]; rewrite <- ?app_assoc; reflexivity. }
  rewrite Hbytes in Hhand.
  destruct (frame_round_fragment utf8_Valid config0 r st mode mode 1 opcode
              key prefix p more Hst Hhand)
    as (st' & Hrun); try assumption; try lia.
  - right. split; [reflexivity|]. right. split; [assumption|reflexivity].
  - replace (opcode <=? WEBSOCKET_OPCODE_BLOB) with false; [assumption|].
    symmetry. apply Z.leb_gt.
    unfold control_opcode, WEBSOCKET_OPCODE_CLOSE, WEBSOCKET_OPCODE_PING,
      WEBSOCKET_OPCODE_PONG, WEBSOCKET_OPCODE_BLOB in *. lia.
  - assert (Hgood : (mode =? WEBSOCKET_OPCODE_TEXT) && negb (utf8_Valid (prefix ++ p))
                    = false).
    { destruct Hmode as [-> | ->]; [|reflexivity].
      rewrite Hutf8 by reflexivity. reflexivity. }
    change (1 =? 1) with true in Hrun. cbn [andb] in Hrun. rewrite Hgood in Hrun.
    exists st'. exact Hrun.
Qed.

Lemma control_frame_cuts_message_witness :
  let st := recv.with_doffset 2 (recv.with_dsize 2 (recv.with_dmode WEBSOCKET_OPCODE_BLOB
              (recv.with_data [104; 105] (example_state [137; 0])))) in
  exists st',
    frame_round (fun _ => true) example_config example_client st
    = Break (if MessageHandler example_config
             then record (OnMessage WEBSOCKET_OPCODE_BLOB ([104; 105] ++ [])) example_client
             else example_client, st') /\
    idle st' /\ at_hand st' [].
Proof.
  apply (control_frame_cuts_message (fun _ => true) example_config example_client _
           WEBSOCKET_OPCODE_BLOB WEBSOCKET_OPCODE_PING [0; 0; 0; 0] [104; 105] [] []).
  - unfold assembling. cbn. repeat split; lia.
  - right. reflexivity.
  - right. left. reflexivity.
  - cbv. discriminate.
  - cbv. discriminate.
  - reflexivity.
  - constructor.
  - repeat constructor; unfold byte_ok; lia.
  - reflexivity.
  - discriminate.
  - unfold at_hand. vm_compute. repeat split; discriminate.
Defined.

(** The scenario on the wire: a client reads the first fragment of a BLOB
    message, an empty PING and the final fragment.  The first two bytes
    are handed over as the whole message, no PONG is written, and the
    final fragment is dropped. *)
Example ping_between_fragments :
  match frame_loop 5 (fun _ => true) example_config example_client
          (example_state ([2; 2; 104; 105] ++ [137; 0] ++ [128; 2; 33; 33])) with
  | Some (Break (r', st')) =>
      log r' = [OnMessage WEBSOCKET_OPCODE_BLOB [104; 105]] /\ recv.dmode st' = 0
  | _ => False
  end.
Proof. vm_compute. split; reflexivity. Qed.

(** X18. [Write] does not look at the text, the peer does.  A TEXT message
    that is not valid UTF-8 is written like any other; when its frames are
    at hand at the peer (a socket of the other role, between two messages,
    whose [MessageSize] admits the message), the frame loop of the peer
    leaves at the final frame with code 1007 (INVALID), however the
    message was fragmented: the MessageHandler is not invoked and the loop
    writes nothing.  ([receive] then calls [Close] with 1007.) *)
Theorem invalid_text_is_refused (utf8_Valid : list Z -> bool) (config0 cw : Config)
        (w r : Socket) (data : list Z) :
  config w = Some cw -> 0 < FragmentSize cw -> reliable w ->
  data <> [] -> Forall byte_ok data -> len data < 2^63 ->
  client r = negb (client w) -> len data <= MessageSize config0 ->
  utf8_Valid data = false ->
  exists w' payloads,
    Write w WEBSOCKET_OPCODE_TEXT data = Returns (w', data, false) /\
    log w' = log w ++ (Written <$> payloads) /\
    forall st more (fuel : nat),
      idle st -> at_hand st (concat (concat payloads) ++ more) ->
      exists st',
        frame_loop (length payloads + fuel) utf8_Valid config0 r st
        = Some (Exit Invalid (r, st')) /\
        recv.code st' = WEBSOCKET_ERROR_INVALID.
Proof.
  intros Hcfg Hf Hrel Hne Hd Hint Hrole Hfit Hutf8. unfold Write. rewrite Hcfg.
  assert (Hlen : 0 < len data).
  { unfold len. destruct data; [congruence|]. cbn [length]. lia. }
  destruct (Z.gtb_spec (len data) 0); [|lia].
  change ((WEBSOCKET_OPCODE_TEXT =? WEBSOCKET_OPCODE_TEXT)
          || (WEBSOCKET_OPCODE_TEXT =? WEBSOCKET_OPCODE_BLOB)) with true.
  cbn [andb].
  destruct (Z.eqb_spec (FragmentSize cw) 0) as [Hz|_]; [lia|].
  fold (frames_of (len data) (FragmentSize cw)).
  pose proof (frames_of_bounds _ _ Hlen Hf) as Hb.
  set (frames := frames_of (len data) (FragmentSize cw)) in *.
  assert (Hpos : 1 <= frames) by nia.
  destruct (Write_loop_received utf8_Valid config0 (FragmentSize cw) frames
              WEBSOCKET_OPCODE_TEXT data r Hf Hb Hd Hint Hfit ltac:(left; reflexivity)
              (Z.to_nat frames) 1 WEBSOCKET_OPCODE_TEXT w Hrel Hrole
              ltac:(lia) ltac:(lia) ltac:(lia))
    as (w' & ps & Hloop & Hlog & Hcount & _ & Hrecv).
  { unfold WEBSOCKET_OPCODE_TEXT. lia. }
  { reflexivity. }
  rewrite Hloop. exists w', ps.
  split; [reflexivity|]. split; [assumption|].
  intros st more fuel Hidle Hhand. rewrite Hcount.
  destruct (Hrecv st more fuel) as (st' & Hrun); [|assumption|].
  - change (1 =? 1) with true. cbn iota.
    change ((1 - 1) * FragmentSize cw) with 0.
    replace (slice data 0 0) with (@nil Z) by reflexivity. exact Hidle.
  - rewrite Hutf8 in Hrun.
    change ((WEBSOCKET_OPCODE_TEXT =? WEBSOCKET_OPCODE_TEXT) && negb false)
      with true in Hrun.
    exists st'. exact Hrun.
Qed.

Lemma invalid_text_is_refused_witness :
  exists w' payloads,
    Write small_server WEBSOCKET_OPCODE_TEXT [104; 255; 105; 104; 105]
    = Returns (w', [104; 255; 105; 104; 105], false) /\
    log w' = log small_server ++ (Written <$> payloads) /\
    forall st more (fuel : nat),
      idle st -> at_hand st (concat (concat payloads) ++ more) ->
      exists st',
        frame_loop (length payloads + fuel) (fun _ => false) example_config
                   example_client st
        = Some (Exit Invalid (example_client, st')) /\
        recv.code st' = WEBSOCKET_ERROR_INVALID.
Proof.
  apply (invalid_text_is_refused (fun _ => false) example_config small_config
           small_server example_client [104; 255; 105; 104; 105]).
  - reflexivity.
  - reflexivity.
  - split; [reflexivity|]. constructor.
  - discriminate.
  - repeat constructor; unfold byte_ok; lia.
  - reflexivity.
  - reflexivity.
  - cbv. discriminate.
  - reflexivity.
Defined.

(** ** The read buffer *)

Lemma keeps_window_refl st : keeps_window st st.
Proof. intros Hw. split; [assumption|reflexivity]. Qed.

Lemma keeps_window_trans st1 st2 st3 :
  keeps_window st1 st2 -> keeps_window st2 st3 -> keeps_window st1 st3.
Proof.
  intros H12 H23 Hw. destruct (H12 Hw) as [Hw2 Hl2]. destruct (H23 Hw2) as [Hw3 Hl3].
  split; [assumption|congruence].
Qed.

(** A state that differs in neither the cursors nor the buffer. *)
Lemma keeps_window_same st st' :
  recv.roffset st' = recv.roffset st -> recv.woffset st' = recv.woffset st ->
  recv.buffer st' = recv.buffer st -> keeps_window st st'.
Proof.
  intros Hr Hwo Hb Hw. unfold window in *. rewrite Hr, Hwo, Hb. split; [assumption|reflexivity].
Qed.

(** The read cursor moves forward, not behind the write cursor. *)
Lemma keeps_window_forward st st' :
  recv.roffset st <= recv.roffset st' <= recv.woffset st ->
  recv.woffset st' = recv.woffset st ->
  recv.buffer st' = recv.buffer st -> keeps_window st st'.
Proof.
  intros Hr Hwo Hb Hw. unfold window in *. rewrite Hwo, Hb. split; [lia|reflexivity].
Qed.

Lemma extended_window s st st' :
  2 + smask_of s <= recv.woffset st - recv.roffset st ->
  extended s st = Some st' -> keeps_window st st'.
Proof.
  intros Hroom. unfold extended, smask_of in *.
  destruct (recv.size st =? 126); [| destruct (recv.size st =? 127)];
    destruct (client s); cbn [negb];
    repeat match goal with
           | |- context [if ?a <? ?b then _ else _] => destruct (Z.ltb_spec a b)
           end;
    intros Hext; try discriminate Hext; injection Hext as <-;
    apply keeps_window_forward;
    cbn [recv.roffset recv.woffset recv.buffer recv.with_roffset recv.with_mask
         recv.with_size];
    try reflexivity; lia.
Qed.

Lemma header_window s config0 st st' :
  lands (header s config0 st) st' -> keeps_window st st'.
Proof.
  unfold header. intros H.
  destruct (recv.size st <? 0); [| landed H; apply keeps_window_refl].
  destruct (Z.geb_spec (recv.woffset st - recv.roffset st) 2) as [Htwo|];
    [| landed H; apply keeps_window_refl].
  cbv zeta in H.
  destruct (violation s _ _); [landed H; apply keeps_window_same; reflexivity|].
  match type of H with
  | context [negb (client s) && (?a <? ?b)] =>
      destruct (negb (client s) && (a <? b)) eqn:Hshort
  end; [landed H; apply keeps_window_same; reflexivity|].
  match type of H with
  | lands (match extended s ?st2 with _ => _ end) _ =>
      assert (Hsame : recv.roffset st2 = recv.roffset st /\
                      recv.woffset st2 = recv.woffset st /\
                      recv.buffer st2 = recv.buffer st)
        by (repeat match goal with
                   | |- context [if ?c then _ else _] => destruct c
                   end; repeat split; reflexivity);
      destruct (extended s st2) as [st3|] eqn:Hext
  end.
  - destruct Hsame as (Hr2 & Hw2 & Hb2).
    apply extended_window in Hext.
    2: { rewrite Hr2, Hw2. unfold smask_of in *.
         cbn [recv.woffset recv.roffset recv.with_size recv.with_opcode recv.with_fin]
           in Hshort.
         destruct (client s); cbn [negb andb] in Hshort; [lia|].
         apply Z.ltb_ge in Hshort. lia. }
    eapply keeps_window_trans; [apply keeps_window_same; eassumption|].
    eapply keeps_window_trans; [exact Hext|].
    destruct (oversized config0 st3); [landed H; apply keeps_window_same; reflexivity|].
    destruct (negb (recv.dmode st3 =? 0)); landed H;
      [apply keeps_window_same; reflexivity | apply keeps_window_refl].
  - destruct Hsame as (Hr2 & Hw2 & Hb2). landed H.
    apply keeps_window_same; cbn [recv.roffset recv.woffset recv.buffer recv.with_size];
      assumption.
Qed.

Lemma absorb_window config0 st st' :
  0 <= recv.size st -> lands (absorb config0 st) st' -> keeps_window st st'.
Proof.
  intros Hsize H. unfold absorb in H.
  destruct (_ >? MessageSize config0); landed H;
    [apply keeps_window_same; reflexivity|].
  intros Hw. unfold window in *.
  cbn [recv.roffset recv.woffset recv.buffer recv.with_roffset recv.with_size
       recv.with_data].
  split; [lia|reflexivity].
Qed.

Lemma complete_window utf8_Valid config0 s st s' st' :
  lands (complete utf8_Valid config0 s st) (s', st') -> keeps_window st st'.
Proof.
  intros H. unfold complete in H.
  destruct ((recv.size st <=? 0) && _); [| landed H; apply keeps_window_refl].
  destruct (negb (client s) && _); [destruct H as [H | [H | [? H]]]; discriminate H|].
  cbv zeta in H.
  match type of H with
  | context [recv.with_doffset _ ?st1] =>
      assert (Hsame : recv.roffset st1 = recv.roffset st /\
                      recv.woffset st1 = recv.woffset st /\
                      recv.buffer st1 = recv.buffer st)
        by (destruct (negb (client s)); repeat split; reflexivity);
      set (st2 := st1) in *
  end.
  destruct Hsame as (Hr2 & Hw2 & Hb2).
  destruct (recv.dlast (recv.with_doffset (recv.dsize st2) st2)).
  - destruct ((recv.dmode _ =? WEBSOCKET_OPCODE_TEXT) && _); landed H;
      apply keeps_window_same; cbn; assumption.
  - landed H. apply keeps_window_same; cbn; assumption.
Qed.

Lemma control_frame_window s st s' st' :
  0 <= recv.size st -> lands (control_frame s st) (s', st') -> keeps_window st st'.
Proof.
  intros Hsize H. cbv beta iota zeta delta [control_frame rmask] in H.
  assert (Hforward : forall st2,
             recv.roffset st2
             = recv.roffset st + Z.min (recv.woffset st - recv.roffset st) (recv.size st) ->
             recv.woffset st2 = recv.woffset st -> recv.buffer st2 = recv.buffer st ->
             keeps_window st st2).
  { intros st2 Hr2 Hw2 Hb2 Hw. unfold window in *. rewrite Hr2, Hw2, Hb2.
    split; [lia|reflexivity]. }
  destruct (recv.size _ <=? 0); [| landed H; apply Hforward; reflexivity].
  destruct (recv.opcode _ =? WEBSOCKET_OPCODE_CLOSE).
  { destruct (client s), (len _ >=? 2); landed H; apply Hforward; reflexivity. }
  destruct (recv.opcode _ =? WEBSOCKET_OPCODE_PING).
  - destruct (client s); cbv beta iota zeta in H;
      destruct (send _ _) as [s2 err]; destruct err; landed H; apply Hforward; reflexivity.
  - destruct (client s); landed H; apply Hforward; reflexivity.
Qed.

Lemma rewind_window st st' : lands (rewind st) st' -> keeps_window st st'.
Proof.
  unfold rewind. intros H. destruct (recv.roffset st >=? recv.woffset st); landed H;
    [|apply keeps_window_refl].
  intros Hw. unfold window in *.
  cbn [recv.roffset recv.woffset recv.buffer recv.with_roffset recv.with_woffset].
  split; [lia|reflexivity].
Qed.

Lemma payload_window utf8_Valid config0 s st s' st' :
  lands (payload utf8_Valid config0 s st) (s', st') -> keeps_window st st'.
Proof.
  unfold payload. intros H.
  destruct (Z.geb_spec (recv.size st) 0) as [Hsize|]; [| landed H; apply keeps_window_refl].
  destruct (negb (recv.dmode st =? 0)).
  - destruct (absorb config0 st) as [st1|st1|why st1|] eqn:Habsorb.
    + eapply keeps_window_trans.
      * apply (absorb_window config0); [lia | left; exact Habsorb].
      * apply (complete_window utf8_Valid config0 s st1 s' st'). exact H.
    + landed H. apply (absorb_window config0); [lia | right; left; exact Habsorb].
    + landed H. apply (absorb_window config0); [lia | right; right; eexists; exact Habsorb].
    + destruct H as [H | [H | [? H]]]; discriminate H.
  - apply (control_frame_window s st s' st'); [lia | exact H].
Qed.

Lemma frame_round_window utf8_Valid config0 s st s' st' :
  lands (frame_round utf8_Valid config0 s st) (s', st') -> keeps_window st st'.
Proof.
  unfold frame_round. intros H.
  destruct (header s config0 st) as [st1|st1|why st1|] eqn:Hheader.
  - assert (H1 : keeps_window st st1) by (apply (header_window s config0); left; exact Hheader).
    destruct (payload utf8_Valid config0 s st1) as [[s2 st2]|[s2 st2]|why [s2 st2]|]
      eqn:Hpayload.
    + assert (H2 : keeps_window st1 st2)
        by (apply (payload_window utf8_Valid config0 s _ s2); left; exact Hpayload).
      destruct (rewind st2) as [st3|st3|why st3|] eqn:Hrewind.
      * landed H. eapply keeps_window_trans; [exact H1|].
        eapply keeps_window_trans; [exact H2|]. apply rewind_window. left. exact Hrewind.
      * landed H. eapply keeps_window_trans; [exact H1|].
        eapply keeps_window_trans; [exact H2|].
        apply rewind_window. right. left. exact Hrewind.
      * landed H. eapply keeps_window_trans; [exact H1|].
        eapply keeps_window_trans; [exact H2|].
        apply rewind_window. right. right. eexists. exact Hrewind.
      * destruct H as [H | [H | [? H]]]; discriminate H.
    + landed H. eapply keeps_window_trans; [exact H1|].
      eapply payload_window. right. left. exact Hpayload.
    + landed H. eapply keeps_window_trans; [exact H1|].
      eapply payload_window. right. right. eexists. exact Hpayload.
    + destruct H as [H | [H | [? H]]]; discriminate H.
  - landed H. eapply header_window. right. left. exact Hheader.
  - landed H. eapply header_window. right. right. eexists. exact Hheader.
  - destruct H as [H | [H | [? H]]]; discriminate H.
Qed.

Lemma frame_loop_window utf8_Valid config0 (n : nat) :
  forall s st f s' st',
    frame_loop n utf8_Valid config0 s st = Some f -> lands f (s', st') ->
    keeps_window st st'.
Proof.
  induction n as [|n IH]; intros s st f s' st' Hloop Hlands; [discriminate|].
  cbn [frame_loop] in Hloop.
  destruct (frame_round utf8_Valid config0 s st) as [[s1 st1]|[s1 st1]|why [s1 st1]|]
    eqn:Hround.
  - eapply keeps_window_trans.
    + apply (frame_round_window utf8_Valid config0 s _ s1). left. exact Hround.
    + eapply IH; eassumption.
  - injection Hloop as <-. apply (frame_round_window utf8_Valid config0 s _ s').
    rewrite Hround. exact Hlands.
  - injection Hloop as <-. apply (frame_round_window utf8_Valid config0 s _ s').
    rewrite Hround. exact Hlands.
  - injection Hloop as <-. destruct Hlands as [H | [H | [? H]]]; discriminate H.
Qed.

Lemma compact_window st : keeps_window st (compact st).
Proof.
  intros (Hr & Hw). unfold compact.
  destruct (Z.ltb_spec (len (recv.buffer st) - recv.roffset st) 14) as [Hshort|Hroom];
    [|split; [split; assumption | reflexivity]].
  assert (Hlen : len (splice (recv.buffer st) 0
                        (slice (recv.buffer st) (recv.roffset st) (recv.woffset st)))
                 = len (recv.buffer st)).
  { unfold len at 1. rewrite length_splice; [reflexivity | lia |].
    unfold len at 1. rewrite length_slice by lia. lia. }
  unfold window.
  cbn [recv.roffset recv.woffset recv.buffer recv.with_roffset recv.with_woffset
       recv.with_buffer].
  rewrite Hlen. split; [lia|reflexivity].
Qed.

(** X19. Compaction (lines 462-466) keeps the bytes that are read and not
    yet consumed, moved to the start of the buffer; the buffer keeps its
    length, and a buffer of 14 bytes or more then has room for the longest
    frame header behind the read cursor. *)
Theorem compact_keeps_unread (st : recv.state) :
  window st ->
  let st' := compact st in
  window st' /\ len (recv.buffer st') = len (recv.buffer st) /\
  slice (recv.buffer st') (recv.roffset st') (recv.woffset st')
  = slice (recv.buffer st) (recv.roffset st) (recv.woffset st) /\
  (14 <= len (recv.buffer st) -> 14 <= len (recv.buffer st') - recv.roffset st').
Proof.
  intros (Hr & Hw). cbn zeta. unfold compact.
  destruct (Z.ltb_spec (len (recv.buffer st) - recv.roffset st) 14) as [Hshort|Hroom].
  - cbn [recv.roffset recv.woffset recv.buffer recv.with_roffset recv.with_woffset
         recv.with_buffer].
    set (unread := slice (recv.buffer st) (recv.roffset st) (recv.woffset st)).
    assert (Hunread : len unread = recv.woffset st - recv.roffset st).
    { subst unread. unfold len at 1. rewrite length_slice by lia. lia. }
    assert (Hlen : len (splice (recv.buffer st) 0 unread) = len (recv.buffer st)).
    { unfold len at 1. rewrite length_splice by lia. reflexivity. }
    split.
    { unfold window.
      cbn [recv.roffset recv.woffset recv.buffer recv.with_roffset recv.with_woffset
           recv.with_buffer].
      rewrite Hlen. lia. }
    split; [exact Hlen|]. split; [|rewrite Hlen; lia].
    rewrite <- Hunread. apply (slice_splice (recv.buffer st) unread 0); lia.
  - split; [split; assumption|]. split; [reflexivity|]. split; [reflexivity|lia].
Qed.

Lemma compact_keeps_unread_witness :
  let st := recv.with_roffset 4090
              (recv.with_buffer (replicate 4090 0 ++ [129; 1; 104; 129; 1; 105])
                 (recv.with_woffset 4096 (receive_start example_client example_config 0))) in
  let st' := compact st in
  window st' /\ len (recv.buffer st') = len (recv.buffer st) /\
  slice (recv.buffer st') (recv.roffset st') (recv.woffset st')
  = slice (recv.buffer st) (recv.roffset st) (recv.woffset st) /\
  (14 <= len (recv.buffer st) -> 14 <= len (recv.buffer st') - recv.roffset st').
Proof.
  apply compact_keeps_unread. unfold window. vm_compute. repeat split; discriminate.
Defined.

Lemma session_round_window utf8_Valid config0 s st rd f s' st' :
  session_round utf8_Valid config0 s st rd = Some f -> lands f (s', st') ->
  keeps_window st st'.
Proof.
  intros Hround Hlands Hw.
  destruct (compact_window st Hw) as (Hw1 & Hl1).
  unfold session_round in Hround. cbv zeta in Hround.
  set (st1 := compact st) in *.
  set (got := take (Z.to_nat (len (recv.buffer st1) - recv.woffset st1)) (read_bytes rd)) in *.
  assert (Hgot : 0 <= len got <= len (recv.buffer st1) - recv.woffset st1).
  { subst got. unfold window in Hw1. unfold len in *. rewrite length_take. lia. }
  set (st2 := recv.with_buffer (splice (recv.buffer st1) (recv.woffset st1) got) st1) in *.
  assert (Hl2 : len (recv.buffer st2) = len (recv.buffer st1)).
  { subst st2. cbn [recv.buffer recv.with_buffer]. unfold len at 1.
    rewrite length_splice by (unfold window in Hw1; lia). reflexivity. }
  assert (Hw2 : window st2).
  { unfold window in *. rewrite Hl2. subst st2.
    cbn [recv.roffset recv.woffset recv.with_buffer]. exact Hw1. }
  destruct (Z.gtb_spec (len got) 0) as [Hsome|Hnone].
  - set (st3 := recv.with_woffset (recv.woffset (recv.with_seen (now_read rd) st2) + len got)
                  (recv.with_seen (now_read rd) st2)) in *.
    assert (Hw3 : window st3 /\ len (recv.buffer st3) = len (recv.buffer st2)).
    { subst st3. unfold window in *.
      cbn [recv.roffset recv.woffset recv.buffer recv.with_woffset recv.with_seen].
      subst st2. cbn [recv.roffset recv.woffset recv.buffer recv.with_buffer] in *.
      split; [lia|reflexivity]. }
    destruct Hw3 as [Hw3 Hl3].
    destruct (frame_loop _ utf8_Valid config0 s st3) as [f0|] eqn:Hloop; [|discriminate].
    assert (Hf0 : forall s4 st4, lands f0 (s4, st4) ->
                    window st4 /\ len (recv.buffer st4) = len (recv.buffer st)).
    { intros s4 st4 Hl4.
      destruct (frame_loop_window utf8_Valid config0 _ s st3 f0 s4 st4 Hloop Hl4 Hw3)
        as [Hw4 Hlen4]. split; [assumption|congruence]. }
    destruct f0 as [[s4 st4]|[s4 st4]|why [s4 st4]|].
    + injection Hround as <-. apply after_read_state in Hlands. subst st'.
      apply (Hf0 s4). left. reflexivity.
    + injection Hround as <-. apply after_read_state in Hlands. subst st'.
      apply (Hf0 s4). right. left. reflexivity.
    + injection Hround as <-. apply (Hf0 s'). exact Hlands.
    + injection Hround as <-. destruct Hlands as [H | [H | [? H]]]; discriminate H.
  - injection Hround as <-. apply after_read_state in Hlands. subst st'.
    split; [assumption|congruence].
Qed.

Lemma session_window utf8_Valid config0 (reads : list read) :
  forall s st f s' st',
    session utf8_Valid config0 reads s st = Some f -> lands f (s', st') ->
    keeps_window st st'.
Proof.
  induction reads as [|rd reads IH]; intros s st f s' st' Hrun Hlands;
    cbn [session] in Hrun.
  - injection Hrun as <-. landed Hlands. apply keeps_window_refl.
  - destruct (session_round utf8_Valid config0 s st rd) as [f1|] eqn:Hround;
      [|discriminate].
    destruct f1 as [[s1 st1]|[s1 st1]|why [s1 st1]|].
    + eapply keeps_window_trans.
      * apply (session_round_window utf8_Valid config0 s st rd _ s1 st1 Hround).
        left. reflexivity.
      * apply (IH s1 st1 f s' st' Hrun Hlands).
    + injection Hrun as <-.
      apply (session_round_window utf8_Valid config0 s st rd _ s' st' Hround Hlands).
    + injection Hrun as <-.
      apply (session_round_window utf8_Valid config0 s st rd _ s' st' Hround Hlands).
    + injection Hrun as <-. destruct Hlands as [H | [H | [? H]]]; discriminate H.
Qed.

(** X20. The read window stays inside the read buffer.  From a state whose
    cursors are in order and inside the buffer ([receive] starts from
    one), whatever is read and however the session ends, the state it ends
    in has its cursors in order and inside the buffer, and the buffer has
    the length it had: no statement of the loop moves a cursor out of the
    read buffer, and the buffer is never reallocated. *)
Theorem session_keeps_window (utf8_Valid : list Z -> bool) (config0 : Config)
        (reads : list read) (s : Socket) (st : recv.state) :
  window st ->
  match session utf8_Valid config0 reads s st with
  | Some (Next (_, st')) | Some (Break (_, st')) | Some (Exit _ (_, st')) =>
      window st' /\ len (recv.buffer st') = len (recv.buffer st)
  | Some Panic | None => True
  end.
Proof.
  intros Hw.
  destruct (session utf8_Valid config0 reads s st) as [f|] eqn:Hrun; [|exact I].
  destruct f as [[s' st']|[s' st']|why [s' st']|]; try exact I;
    apply (session_window utf8_Valid config0 reads s st _ s' st' Hrun);
    try assumption.
  - left. reflexivity.
  - right. left. reflexivity.
  - right. right. eexists. reflexivity.
Qed.

Lemma session_keeps_window_witness :
  let st := receive_start example_client example_config 0 in
  match session (fun _ => true) example_config
                [mkRead [129; 2; 104; 105; 137] NoError 0 0; mkRead [0] NoError 0 0]
                example_client st with
  | Some (Next (_, st')) | Some (Break (_, st')) | Some (Exit _ (_, st')) =>
      window st' /\ len (recv.buffer st') = len (recv.buffer st)
  | Some Panic | None => True
  end.
Proof.
  apply (session_keeps_window (fun _ => true) example_config).
  unfold window. vm_compute. repeat split; discriminate.
Defined.

End uws.
